(** * GeoTIFFTileSource: the RawTIFF decode / classify / convert / pack pipeline

    A shallow embedding of
      - [src/formats/tiff.worker.js]   (half-float codec, mode classifier,
                                        raster decoder, GPU packer, worker
                                        message handler),
      - [src/utils/Converters.js]      (YCbCr converter),
      - [src/utils/consoleOnce.js]     (logOnce),
      - the RawTIFF plugin module      (RawTiffWorkerPool, deepMerge, the
                                        warning of rasterToRGBA8) with its
                                        default format options,
    and the properties stated about them.

    JavaScript numbers are IEEE-754 binary64 values; they are modelled with
    the Standard Library's [spec_float] at precision 53, so every arithmetic
    step below rounds exactly as the program's does. *)

From Stdlib Require Import ZArith Bool Lia SpecFloat DecimalString.
From stdpp Require Import base list strings pretty gmap.

Local Open Scope Z_scope.

(** ** JavaScript numbers *)

Module JS.

(** A JS Number: binary64. *)
Definition number := spec_float.

Definition prec64 : Z := 53.
Definition emax64 : Z := 1024.
Definition prec32 : Z := 24.
Definition emax32 : Z := 128.

Definition add : number -> number -> number := SFadd prec64 emax64.
Definition sub : number -> number -> number := SFsub prec64 emax64.
Definition mul : number -> number -> number := SFmul prec64 emax64.
Definition div : number -> number -> number := SFdiv prec64 emax64.

(** The Number nearest to the integer [z] (exact for |z| <= 2^53). *)
Definition ofZ (z : Z) : number := binary_normalize prec64 emax64 z 0 false.

(** A decimal literal [n / 10^k] such as [1.402 = 1402 / 1000]: division is
    correctly rounded, so the quotient of the two exactly representable
    integers is the binary64 value the literal denotes. *)
Definition lit (n : Z) (pow10 : Z) : number := div (ofZ n) (ofZ pow10).

Definition NaN : number := S754_nan.

(** [a > b], [a < b], [a === b], [a !== b] on Numbers. *)
Definition gt (a b : number) : bool := SFltb b a.
Definition lt (a b : number) : bool := SFltb a b.
Definition strict_eq (a b : number) : bool := SFeqb a b.
Definition strict_ne (a b : number) : bool := negb (SFeqb a b).

(** [Math.pow(2, bits)] for an integer [bits]: a power of two is exact, and
    [binary_normalize] overflows to Infinity and underflows to zero as
    [Math.pow] does. *)
Definition pow2 (bits : Z) : number :=
  if 0 <=? bits then ofZ (2 ^ bits)
  else SFldexp prec64 emax64 (ofZ 1) bits.

(** ToInt32: the operand conversion of [>>], [<<], [&] and [|]. *)
Definition toInt32 (x : Z) : Z := (x + 2 ^ 31) mod 2 ^ 32 - 2 ^ 31.

(** [a >> n], [a << n], [a & b], [a | b] on integer-valued Numbers. *)
Definition sar (a n : Z) : Z := Z.shiftr (toInt32 a) n.
Definition shl (a n : Z) : Z := toInt32 (Z.shiftl (toInt32 a) n).
Definition band (a b : Z) : Z := Z.land (toInt32 a) (toInt32 b).
Definition bor (a b : Z) : Z := Z.lor (toInt32 a) (toInt32 b).

(** The integer part of a finite Number, truncated towards zero. *)
Definition truncZ (v : number) : Z :=
  match v with
  | S754_finite s m e =>
      let a := if 0 <=? e then Z.pos m * 2 ^ e else Z.pos m / 2 ^ (- e) in
      if s then - a else a
  | _ => 0
  end.

(** Store into a [Uint8Array]: ToUint8 (truncate, then wrap modulo 256;
    NaN and the infinities become 0). *)
Definition toUint8 (v : number) : Z := truncZ v mod 256.

(** Store of an integer-valued Number into a [Uint16Array]: ToUint16. *)
Definition toUint16 (z : Z) : Z := z mod 2 ^ 16.

(** Store into a [Uint8ClampedArray]: ToUint8Clamp (NaN becomes 0, clamp to
    [0,255], round to nearest, ties to even). *)
Definition toUint8Clamp (v : number) : Z :=
  match v with
  | S754_nan => 0
  | S754_zero _ => 0
  | S754_infinity s => if s then 0 else 255
  | S754_finite true _ _ => 0
  | S754_finite false m e =>
      if 0 <=? e then Z.min 255 (Z.pos m * 2 ^ e)
      else
        let d := 2 ^ (- e) in
        let f := Z.pos m / d in
        let r := Z.pos m mod d in
        if 255 <=? f then 255
        else match 2 * r ?= d with
             | Lt => f
             | Gt => f + 1
             | Eq => if Z.even f then f else f + 1
             end
  end.

(** Store into a [Float32Array]: round the binary64 value to binary32. *)
Definition fround (v : number) : spec_float :=
  match v with
  | S754_finite s m e => binary_round prec32 emax32 s m e
  | _ => v
  end.

(** The bit pattern of a binary32 value, as read back through a
    [Uint32Array] view of the same buffer.  NaN is stored as the canonical
    quiet NaN. *)
Definition float32_bits (f : spec_float) : Z :=
  match f with
  | S754_zero s => if s then 2 ^ 31 else 0
  | S754_infinity s => (if s then 2 ^ 31 else 0) + 0x7F800000
  | S754_nan => 0x7FC00000
  | S754_finite s m e =>
      (if s then 2 ^ 31 else 0) +
      (if Z.pos m <? 2 ^ 23 then Z.pos m
       else (e + 150) * 2 ^ 23 + (Z.pos m - 2 ^ 23))
  end.

End JS.

(** ** Half-float codec ([tiff.worker.js], [f32ToF16Bits]) *)

Definition f32ToF16Bits (val : JS.number) : Z :=
  (* floatView[0] = val; const x = intView[0]; *)
  let x := JS.float32_bits (JS.fround val) in
  let sign := JS.band (JS.sar x 31) 0x1 in
  let exp := JS.band (JS.sar x 23) 0xFF in
  let mant := JS.band x 0x7FFFFF in
  if exp =? 0xFF then
    if negb (mant =? 0) then JS.bor (JS.shl sign 15) 0x7E00
    else JS.bor (JS.shl sign 15) 0x7C00
  else if exp =? 0 then JS.shl sign 15
  else
    let exp := exp - 127 + 15 in
    if 0x1F <=? exp then JS.bor (JS.shl sign 15) 0x7C00
    else if exp <=? 0 then JS.shl sign 15
    else
      let mant := mant + 0x00001000 in
      if negb (JS.band mant 0x00800000 =? 0) then
        (* mant = 0; exp += 1; *)
        let exp := exp + 1 in
        if 0x1F <=? exp then JS.bor (JS.shl sign 15) 0x7C00
        else JS.bor (JS.bor (JS.shl sign 15) (JS.shl exp 10)) (JS.sar 0 13)
      else
        JS.bor (JS.bor (JS.shl sign 15) (JS.shl exp 10)) (JS.sar mant 13).

(** The binary16 patterns the codec saturates and flushes to. *)
Definition f16_infinity (s : bool) : Z := (if s then 0x8000 else 0) + 0x7C00.
Definition f16_zero (s : bool) : Z := if s then 0x8000 else 0.

Definition sign_of (v : JS.number) : bool :=
  match v with
  | S754_zero s | S754_infinity s | S754_finite s _ _ => s
  | S754_nan => false
  end.

Definition is_finite (v : JS.number) : bool :=
  match v with
  | S754_zero _ | S754_finite _ _ _ => true
  | _ => false
  end.

(** A binary32 value: a [spec_float] in canonical binary32 form. *)
Definition is_float32 (v : spec_float) : bool := valid_binary JS.prec32 JS.emax32 v.

(** ** Saturation and flushing of the half-float codec *)

Definition float32_ofZ (z : Z) : spec_float :=
  binary_normalize JS.prec32 JS.emax32 z 0 false.

(** 65504, the largest finite binary16 value. *)
Definition f16_max_finite : spec_float := float32_ofZ 65504.
(** 65520, the midpoint between 65504 and 2^16: the least magnitude that
    rounds up out of the finite binary16 range. *)
Definition f16_overflow_bound : spec_float := float32_ofZ 65520.
(** 2^-14, the smallest binary16 normal. *)
Definition f16_min_normal : spec_float :=
  SFldexp JS.prec32 JS.emax32 (float32_ofZ 1) (-14).
(** The pattern of the largest finite binary16 value, with sign [s]. *)
Definition f16_max_pattern (s : bool) : Z := (if s then 0x8000 else 0) + 0x7BFF.

(** The saturation and flushing rule as worded: every finite binary32
    input whose magnitude exceeds 65504 encodes as signed Infinity, and
    every one whose magnitude is below the smallest binary16 normal encodes
    as signed zero. *)
Definition saturates_beyond_f16_max : Prop :=
  forall val : spec_float,
    is_float32 val = true -> is_finite val = true ->
    (SFltb f16_max_finite (SFabs val) = true ->
       f32ToF16Bits val = f16_infinity (sign_of val)) /\
    (SFltb (SFabs val) f16_min_normal = true ->
       f32ToF16Bits val = f16_zero (sign_of val)).


(** ** Data model ([tiff.worker.js] and the format options) *)

(** The typed-array constructors a band can be revived with. *)
Inductive Ctor :=
  | Uint8Array | Uint8ClampedArray | Int8Array
  | Uint16Array | Int16Array | Uint32Array | Int32Array
  | Float32Array | Float64Array.

(** A revived band: a typed array, read element-wise as Numbers. *)
Module Band.
Record t := { ctor : Ctor; samples : list JS.number }.
End Band.

(** [b instanceof Uint8Array || b instanceof Uint8ClampedArray] *)
Definition isU8 (b : Band.t) : bool :=
  match Band.ctor b with
  | Uint8Array | Uint8ClampedArray => true
  | _ => false
  end.

(** [band instanceof Float32Array || band instanceof Float64Array] *)
Definition isFloat (b : Band.t) : bool :=
  match Band.ctor b with
  | Float32Array | Float64Array => true
  | _ => false
  end.

(** The canonical raster, bands revived.  Absent fields are [None]. *)
Module Raster.
Record t := {
  width : nat;
  height : nat;
  bands : list Band.t;
  samplesPerPixel : option Z;
  bitsPerSample : option (list Z);
  photometricInterpretation : option Z;
}.
End Raster.

Inductive Interpretation := auto | image | data.

Module Gpu.
Record t := { preferRGBA8 : option bool; forceRGBA16F : option bool }.
End Gpu.

(** The resolved format options the worker receives.  An entry of
    [channels] is a band index, or [None] for a null entry. *)
Module Format.
Record t := {
  interpretation : option Interpretation;
  channels : option (list (option Z));
  gpu : option Gpu.t;
}.
End Format.

Inductive PackFormat := RGBA8 | RGBA16F.

(** One RGBA texture.  [data] is the content of the typed array the pack
    descriptor points to: bytes for [RGBA8], binary16 patterns for
    [RGBA16F]. *)
Module Pack.
Record t := {
  format : PackFormat;
  data : list Z;
  channels : list Z;
  normalized : bool;
  scale : list JS.number;
  offset : list JS.number;
}.
End Pack.

Module TextureSet.
Record t := {
  width : nat;
  height : nat;
  mode : Interpretation;
  channelCount : nat;
  packs : list Pack.t;
}.
End TextureSet.

(** An out-of-band warning posted by the worker ([workerWarn]). *)
Module Warn.
Record t := { code : string; message : string }.
End Warn.

(** ** GPU packer, data mode ([tiff.worker.js], [packBandsAsData]) *)

Section Packer.

Variable raster : Raster.t.
Variable format : option Format.t.

(** [const gpu = (format && format.gpu) || {}] *)
Definition gpuOf : Gpu.t :=
  match format with
  | Some f => match Format.gpu f with
              | Some g => g
              | None => {| Gpu.preferRGBA8 := None; Gpu.forceRGBA16F := None |}
              end
  | None => {| Gpu.preferRGBA8 := None; Gpu.forceRGBA16F := None |}
  end.

(** [gpu.preferRGBA8 !== false] *)
Definition preferRGBA8 : bool :=
  match Gpu.preferRGBA8 gpuOf with Some false => false | _ => true end.

(** [!!gpu.forceRGBA16F] *)
Definition forceRGBA16F : bool :=
  match Gpu.forceRGBA16F gpuOf with Some true => true | _ => false end.

Definition pixelCount : nat := (Raster.width raster * Raster.height raster)%nat.

Definition bandCount : nat := length (Raster.bands raster).

(** The active channel order: the explicit list when it is a non-empty
    array, else the natural band order [0 .. bandCount-1]. *)
Definition activeChannels : list (option Z) :=
  match format with
  | Some {| Format.channels := Some (c :: cs) |} => c :: cs
  | _ => map (fun i => Some (Z.of_nat i)) (seq 0 bandCount)
  end.

(** [channels.filter((c) => c != null && c >= 0).length] *)
Definition countChannels (channels : list (option Z)) : nat :=
  length (List.filter (fun c => match c with Some z => 0 <=? z | None => false end)
            channels).

(** [raster.bands[c]] for a channel entry [c]: [None] is [undefined]. *)
Definition bandAt (bi : Z) : option Band.t :=
  if (0 <=? bi) then Raster.bands raster !! Z.to_nat bi else None.

(** [channels.every(...)]: every active channel is backed by an 8-bit band. *)
Definition allU8 (channels : list (option Z)) : bool :=
  forallb (fun c => match c with
                    | Some bi => match bandAt bi with
                                 | Some b => isU8 b
                                 | None => false
                                 end
                    | None => false
                    end) channels.

Definition useRGBA8 (channels : list (option Z)) : bool :=
  preferRGBA8 && negb forceRGBA16F && allU8 channels.

(** [channels[i] ?? -1] *)
Definition channelOr (channels : list (option Z)) (i : nat) : Z :=
  match channels !! i with
  | Some (Some c) => c
  | _ => -1
  end.

Definition packCh (channels : list (option Z)) (p : nat) : list Z :=
  [ channelOr channels p; channelOr channels (p + 1);
    channelOr channels (p + 2); channelOr channels (p + 3) ].

(** [bi >= 0 && bi < raster.bands.length] *)
Definition inBands (bi : Z) : bool :=
  (0 <=? bi) && (bi <? Z.of_nat bandCount).

(** [raster.bands[bi][i]], read as a Number; reading past the end of a
    typed array gives [undefined], which converts to NaN. *)
Definition sampleAt (bi : Z) (i : nat) : JS.number :=
  match bandAt bi with
  | Some b => match Band.samples b !! i with
              | Some v => v
              | None => JS.NaN
              end
  | None => JS.NaN
  end.

(** The RGBA8 branch of the pack loop. *)
Definition packRGBA8 (ch : list Z) : Pack.t :=
  {| Pack.format := RGBA8;
     Pack.data :=
       flat_map (fun i =>
         map (fun bi => if inBands bi then JS.toUint8 (sampleAt bi i) else 0) ch)
         (seq 0 pixelCount);
     Pack.channels := ch;
     Pack.normalized := false;
     Pack.scale := [JS.ofZ 1; JS.ofZ 1; JS.ofZ 1; JS.ofZ 1];
     Pack.offset := [JS.ofZ 0; JS.ofZ 0; JS.ofZ 0; JS.ofZ 0] |}.

(** The declared bit depth of band [bi]; [None] is [undefined]. *)
Definition bitsOf (bi : Z) : option Z :=
  match Raster.bitsPerSample raster with
  | Some bps =>
      match (if 0 <=? bi then bps !! Z.to_nat bi else None) with
      | Some b => Some b
      | None => bps !! 0%nat
      end
  | None => Some 8
  end.

(** [bits > 0 ? (Math.pow(2, bits) - 1) : 65535] *)
Definition maxOf (bits : option Z) : JS.number :=
  match bits with
  | Some b => if 0 <? b then JS.sub (JS.pow2 b) (JS.ofZ 1) else JS.ofZ 65535
  | None => JS.ofZ 65535
  end.

(** The scale entry of one slot after the normalization loop. *)
Definition scaleFor (bi : Z) : JS.number :=
  if negb (inBands bi) then JS.ofZ 1
  else match bandAt bi with
       | Some band =>
           if negb (isFloat band) then
             let max := maxOf (bitsOf bi) in
             if JS.gt max (JS.ofZ 65504) then max else JS.ofZ 1
           else JS.ofZ 1
       | None => JS.ofZ 1
       end.

(** One stored value of the RGBA16F branch, before encoding, with the flag
    telling whether it was clamped. *)
Definition halfValue (bi : Z) (scale_k : JS.number) (i : nat) : JS.number * bool :=
  let v := if inBands bi then sampleAt bi i else JS.ofZ 0 in
  let v := if JS.strict_ne scale_k (JS.ofZ 1) then JS.div v scale_k else v in
  if JS.gt v (JS.ofZ 65504) then (JS.ofZ 65504, true)
  else if JS.lt v (JS.ofZ (-65504)) then (JS.ofZ (-65504), true)
  else (v, false).

(** The RGBA16F branch of the pack loop; the flag is [clamped]. *)
Definition packRGBA16F (ch : list Z) : Pack.t * bool :=
  let scale := map scaleFor ch in
  let cells :=
    flat_map (fun i => map (fun '(bi, s) => halfValue bi s i) (zip ch scale))
      (seq 0 pixelCount) in
  ({| Pack.format := RGBA16F;
      Pack.data := map (fun c => JS.toUint16 (f32ToF16Bits (fst c))) cells;
      Pack.channels := ch;
      Pack.normalized := false;
      Pack.scale := scale;
      Pack.offset := [JS.ofZ 0; JS.ofZ 0; JS.ofZ 0; JS.ofZ 0] |},
   existsb snd cells).

Definition clampWarning : Warn.t :=
  {| Warn.code := "gpuPack_f16_clamp_worker";
     Warn.message := "[tiff-worker] Some values exceeded RGBA16F finite range and were clamped. Consider normalization via format.gpu.forceRGBA16F + relying on scale/offset." |}.

(** [for (let p = 0; p < channels.length; p += 4) { ... }]: the packs and
    the warnings posted, in order.  [fuel] bounds the iterations. *)
Fixpoint packLoop (fuel : nat) (channels : list (option Z)) (u8 : bool) (p : nat)
  : list Pack.t * list Warn.t :=
  match fuel with
  | O => ([], [])
  | S fuel' =>
      if (p <? length channels)%nat then
        let ch := packCh channels p in
        let '(packs, warns) := packLoop fuel' channels u8 (p + 4) in
        if u8 then (packRGBA8 ch :: packs, warns)
        else
          let '(pk, clamped) := packRGBA16F ch in
          (pk :: packs, if clamped then clampWarning :: warns else warns)
      else ([], [])
  end.

Definition packBandsAsData : TextureSet.t * list Warn.t :=
  let channels := activeChannels in
  let '(packs, warns) :=
    packLoop (length channels) channels (useRGBA8 channels) 0 in
  ({| TextureSet.width := Raster.width raster;
      TextureSet.height := Raster.height raster;
      TextureSet.mode := data;
      TextureSet.channelCount := countChannels channels;
      TextureSet.packs := packs |},
   warns).

End Packer.

(** The pack built at loop position [p]. *)
Definition packAt (raster : Raster.t) (channels : list (option Z)) (u8 : bool) (p : nat)
  : Pack.t :=
  if u8 then packRGBA8 raster (packCh channels p)
  else fst (packRGBA16F raster (packCh channels p)).

(** [format && Array.isArray(format.channels) && format.channels.length]:
    whether an explicit channel order overrides the natural band order. *)
Definition hasExplicitChannels (format : option Format.t) : bool :=
  match format with
  | Some {| Format.channels := Some (_ :: _) |} => true
  | _ => false
  end.

(** The number of slots of the last pack that carry a channel, for [n]
    channels: [n mod 4], or all 4 when [n mod 4 = 0]. *)
Definition usedSlots (n : nat) : nat :=
  if (n mod 4 =? 0)%nat then 4%nat else (n mod 4)%nat.

(** ** The storage decision and the normalization, as worded *)

(** A texture set that holds both a Byte4 and a HalfFloat4 pack. *)
Definition mixedStorage (ts : TextureSet.t) : Prop :=
  (exists pk, pk ∈ TextureSet.packs ts /\ Pack.format pk = RGBA8) /\
  (exists pk, pk ∈ TextureSet.packs ts /\ Pack.format pk = RGBA16F).

(** Byte4 only for packs whose own channels are all 8-bit, with 8-bit
    storage preferred and half-float not forced. *)
Definition byte4_only_if_pack_is_8bit : Prop :=
  forall raster format pk,
    pk ∈ TextureSet.packs (fst (packBandsAsData raster format)) ->
    Pack.format pk = RGBA8 ->
    preferRGBA8 format = true /\ forceRGBA16F format = false /\
    forall c, c ∈ Pack.channels pk -> c <> -1 ->
      exists b, bandAt raster c = Some b /\ isU8 b = true.

(** The storage decision as worded: per pack, so that some input yields
    both kinds of pack. *)
Definition storage_decided_per_pack : Prop :=
  byte4_only_if_pack_is_8bit /\
  exists raster format, mixedStorage (fst (packBandsAsData raster format)).

(** A binary16 pattern whose value lies in [0,1]: +0 .. 1.0, or -0. *)
Definition f16_in_unit (h : Z) : bool :=
  ((0 <=? h) && (h <=? 0x3C00)) || (h =? 0x8000).

(** Scenario F as worded: a 12-bit integer band packed with half-float
    forced gets scale 4095 and stored samples in [0,1]. *)
Definition normalizes_12bit_band : Prop :=
  forall raster format pi pk k bi band,
    forceRGBA16F format = true ->
    TextureSet.packs (fst (packBandsAsData raster format)) !! pi = Some pk ->
    Pack.channels pk !! k = Some bi ->
    bandAt raster bi = Some band ->
    isFloat band = false ->
    bitsOf raster bi = Some 12 ->
    Pack.scale pk !! k = Some (JS.ofZ 4095) /\
    forall i, (i < pixelCount raster)%nat ->
      exists h, Pack.data pk !! (4 * i + k)%nat = Some h /\ f16_in_unit h = true.

(** [if (v > 65504) v = 65504; else if (v < -65504) v = -65504;] *)
Definition clampHalf (v : JS.number) : JS.number :=
  if JS.gt v (JS.ofZ 65504) then JS.ofZ 65504
  else if JS.lt v (JS.ofZ (-65504)) then JS.ofZ (-65504)
  else v.

(** ** Sample inputs *)

Definition bandOf (c : Ctor) (l : list Z) : Band.t :=
  {| Band.ctor := c; Band.samples := map JS.ofZ l |}.

(** Six 8-bit bands, 1x2 pixels, no colour-space tag. *)
Definition raster6 : Raster.t :=
  {| Raster.width := 1; Raster.height := 2;
     Raster.bands := [bandOf Uint8Array [1; 2]; bandOf Uint8Array [3; 4];
                      bandOf Uint8Array [5; 6]; bandOf Uint8Array [7; 8];
                      bandOf Uint8Array [9; 10]; bandOf Uint8Array [11; 12]];
     Raster.samplesPerPixel := Some 6;
     Raster.bitsPerSample := Some [8];
     Raster.photometricInterpretation := None |}.

(** Four 8-bit bands and one 12-bit band in a [Uint16Array], 1x1 pixel. *)
Definition rasterMixed : Raster.t :=
  {| Raster.width := 1; Raster.height := 1;
     Raster.bands := [bandOf Uint8Array [1]; bandOf Uint8Array [3];
                      bandOf Uint8Array [5]; bandOf Uint8Array [7];
                      bandOf Uint16Array [4095]];
     Raster.samplesPerPixel := Some 5;
     Raster.bitsPerSample := Some [8; 8; 8; 8; 12];
     Raster.photometricInterpretation := None |}.

(** One 12-bit band holding its declared maximum 4095. *)
Definition raster12 : Raster.t :=
  {| Raster.width := 1; Raster.height := 1;
     Raster.bands := [bandOf Uint16Array [4095]];
     Raster.samplesPerPixel := Some 1;
     Raster.bitsPerSample := Some [12];
     Raster.photometricInterpretation := None |}.

(** [{ interpretation: "data", gpu: { forceRGBA16F: true } }] *)
Definition formatForce16 : option Format.t :=
  Some {| Format.interpretation := Some data;
          Format.channels := None;
          Format.gpu := Some {| Gpu.preferRGBA8 := None;
                                Gpu.forceRGBA16F := Some true |} |}.

(** ** Colour-space converter ([Converters.js], [RGBAfromYCbCr]) *)

Module Converters.

(** [a[i]] on a typed array, used in arithmetic: reading past the end
    gives [undefined], which converts to NaN. *)
Definition read (a : list JS.number) (i : nat) : JS.number :=
  match a !! i with Some v => v | None => JS.NaN end.

(** The two call forms: one interleaved buffer, or three planar bands. *)
Inductive YCbCrArgs :=
  | Interleaved (input : list JS.number)
  | Planar (y cb cr : list JS.number).

Definition RGBAfromYCbCr (args : YCbCrArgs) : list Z :=
  match args with
  | Interleaved input =>
      (* new Uint8ClampedArray((input.length * 4) / 3): the length is
         truncated to an integer, and writes past the end are dropped. *)
      take (length input * 4 / 3)
        (flat_map (fun p =>
           let y := read input (3 * p) in
           let cb := read input (3 * p + 1) in
           let cr := read input (3 * p + 2) in
           [ JS.toUint8Clamp
               (JS.add y (JS.mul (JS.lit 1402 1000) (JS.sub cr (JS.ofZ 0x80))));
             JS.toUint8Clamp
               (JS.sub
                  (JS.sub y (JS.mul (JS.lit 34414 100000) (JS.sub cb (JS.ofZ 0x80))))
                  (JS.mul (JS.lit 71414 100000) (JS.sub cr (JS.ofZ 0x80))));
             JS.toUint8Clamp
               (JS.add y (JS.mul (JS.lit 1772 1000) (JS.sub cb (JS.ofZ 0x80))));
             255 ])
           (seq 0 ((length input + 2) / 3)))
  | Planar y cb cr =>
      flat_map (fun i =>
        let yy := read y i in
        let cbb := read cb i in
        let crr := read cr i in
        [ JS.toUint8Clamp
            (JS.add yy (JS.mul (JS.lit 1402 1000) (JS.sub crr (JS.ofZ 0x80))));
          JS.toUint8Clamp
            (JS.sub
               (JS.sub yy (JS.mul (JS.lit 34414 100000) (JS.sub cbb (JS.ofZ 0x80))))
               (JS.mul (JS.lit 71414 100000) (JS.sub crr (JS.ofZ 0x80))));
          JS.toUint8Clamp
            (JS.add yy (JS.mul (JS.lit 1772 1000) (JS.sub cbb (JS.ofZ 0x80))));
          255 ])
        (seq 0 (length y))
  end.

End Converters.

(** The conversion formulas, each evaluated in binary64 arithmetic and
    stored with byte clamping.  [green_worded] has the coefficients of the
    specification, [green_jfif] the five-digit JFIF coefficients. *)
Definition red_of (Y Cr : JS.number) : Z :=
  JS.toUint8Clamp (JS.add Y (JS.mul (JS.lit 1402 1000) (JS.sub Cr (JS.ofZ 128)))).

Definition blue_of (Y Cb : JS.number) : Z :=
  JS.toUint8Clamp (JS.add Y (JS.mul (JS.lit 1772 1000) (JS.sub Cb (JS.ofZ 128)))).

Definition green_worded (Y Cb Cr : JS.number) : Z :=
  JS.toUint8Clamp
    (JS.sub (JS.sub Y (JS.mul (JS.lit 344136 1000000) (JS.sub Cb (JS.ofZ 128))))
            (JS.mul (JS.lit 714136 1000000) (JS.sub Cr (JS.ofZ 128)))).

Definition green_jfif (Y Cb Cr : JS.number) : Z :=
  JS.toUint8Clamp
    (JS.sub (JS.sub Y (JS.mul (JS.lit 34414 100000) (JS.sub Cb (JS.ofZ 128))))
            (JS.mul (JS.lit 71414 100000) (JS.sub Cr (JS.ofZ 128)))).

(** Pixel [i] of an RGBA buffer is [(r, g, b, a)]. *)
Definition pixelIs (out : list Z) (i : nat) (r g b a : Z) : Prop :=
  out !! (4 * i)%nat = Some r /\ out !! (4 * i + 1)%nat = Some g /\
  out !! (4 * i + 2)%nat = Some b /\ out !! (4 * i + 3)%nat = Some a.

(** The converter with a given green formula, in both input forms. *)
Definition ycbcr_converts_with (green : JS.number -> JS.number -> JS.number -> Z) : Prop :=
  (forall input i Y Cb Cr,
     input !! (3 * i)%nat = Some Y ->
     input !! (3 * i + 1)%nat = Some Cb ->
     input !! (3 * i + 2)%nat = Some Cr ->
     pixelIs (Converters.RGBAfromYCbCr (Converters.Interleaved input)) i
       (red_of Y Cr) (green Y Cb Cr) (blue_of Y Cb) 255) /\
  (forall y cb cr i Y Cb Cr,
     y !! i = Some Y -> cb !! i = Some Cb -> cr !! i = Some Cr ->
     pixelIs (Converters.RGBAfromYCbCr (Converters.Planar y cb cr)) i
       (red_of Y Cr) (green Y Cb Cr) (blue_of Y Cb) 255).

(** ** Mode classifier ([tiff.worker.js], [inferFromTIFFTags] and the mode
    selection of [rasterPayloadToTextureSet]) *)

(** Photometric interpretation constants. *)
Module PI.
Definition WhiteIsZero : Z := 0.
Definition BlackIsZero : Z := 1.
Definition RGB : Z := 2.
Definition Palette : Z := 3.
Definition TransparencyMask : Z := 4.
Definition CMYK : Z := 5.
Definition YCbCr : Z := 6.
Definition CIELab : Z := 8.
End PI.

(** [pi === c] for an optional tag: [undefined] equals no constant. *)
Definition tagIs (pi : option Z) (c : Z) : bool :=
  match pi with Some t => t =? c | None => false end.

(** [raster.samplesPerPixel || (raster.bands ? raster.bands.length : 1)];
    the bands of a revived raster are always an array. *)
Definition sppOf (raster : Raster.t) : Z :=
  match Raster.samplesPerPixel raster with
  | Some s => if s =? 0 then Z.of_nat (length (Raster.bands raster)) else s
  | None => Z.of_nat (length (Raster.bands raster))
  end.

Definition inferFromTIFFTags (raster : Raster.t) : Interpretation :=
  let spp := sppOf raster in
  let pi := Raster.photometricInterpretation raster in
  if tagIs pi PI.RGB || tagIs pi PI.YCbCr || tagIs pi PI.CMYK ||
     tagIs pi PI.CIELab || tagIs pi PI.Palette
  then image
  else if (tagIs pi PI.BlackIsZero || tagIs pi PI.WhiteIsZero) && (spp =? 1)
  then image
  else data.

(** [format.interpretation || "auto"] *)
Definition interpretationOf (format : option Format.t) : Interpretation :=
  match format with
  | Some f => match Format.interpretation f with Some i => i | None => auto end
  | None => auto
  end.

(** The [mode] of [rasterPayloadToTextureSet]:
    [(interpretation === "auto") ? inferred : interpretation]. *)
Definition modeOf (raster : Raster.t) (format : option Format.t) : Interpretation :=
  let interpretation := interpretationOf format in
  let inferred := inferFromTIFFTags raster in
  match interpretation with
  | auto => inferred
  | forced => forced
  end.

(** The colour-space tags that denote a displayable image by themselves. *)
Definition imageTags : list Z := [PI.RGB; PI.YCbCr; PI.CMYK; PI.CIELab; PI.Palette].
(** The grayscale tags. *)
Definition grayTags : list Z := [PI.BlackIsZero; PI.WhiteIsZero].

(** [{ interpretation: "image" }] *)
Definition formatImage : option Format.t :=
  Some {| Format.interpretation := Some image;
          Format.channels := None;
          Format.gpu := None |}.

(** ** Exceptions and asynchronous results *)

(** A thrown value: an [Error] object with its message, or a bare string. *)
Inductive exn :=
  | ErrorObject (message : string)
  | ThrownString (s : string).

(** The outcome of a call that may throw (or of an awaited promise that
    may reject): [inl e] is the exception, [inr x] the value. *)
Definition result (A : Type) : Type := exn + A.

Definition ret {A} (x : A) : result A := inr x.
Definition throw {A} (e : exn) : result A := inl e.
Definition bind {A B} (c : result A) (k : A -> result B) : result B :=
  match c with
  | inl e => inl e
  | inr x => k x
  end.

Declare Scope result_scope.
Delimit Scope result_scope with result.
Notation "'let*' x ':=' c 'in' k" := (bind c (fun x => k))
  (at level 10, x name, c at level 100, k at level 200) : result_scope.

(** [errorToPlain] *)
Definition errorToPlain (err : exn) : string :=
  match err with
  | ThrownString "" => "Unknown error"
  | ThrownString s => s
  | ErrorObject "" => "{}"
  | ErrorObject m => m
  end.

(** ** Raster decoder ([tiff.worker.js], [decodeRasterFromArrayBuffer]) *)

(** The decode options of the parser that the decoder sets a default for. *)
Module DecodeOptions.
Record t := { interleave : option bool }.
End DecodeOptions.

(** The hints of a request.  [imageIndex] is [Some] when
    [typeof hints.imageIndex === "number"]. *)
Module Hints.
Record t := {
  imageIndex : option Z;
  decode : option DecodeOptions.t;
  renderChannels : option (list Z);
  formatResolved : option Format.t;
  format : option Format.t;
}.
End Hints.

(** The external container parser (geotiff.js), at its boundary: an image
    of the container with the values its getters return, and the container
    with its image count and image lookup. *)
Module GeoImage.
Record t := {
  getWidth : nat;
  getHeight : nat;
  getSamplesPerPixel : option Z;
  getBitsPerSample : Z + list Z;
  photometricInterpretation : option Z;
  readRasters : bool -> result (Band.t + list Band.t);
}.
End GeoImage.

Module GeoTiff.
Record t := {
  getImageCount : result Z;
  getImage : Z -> result GeoImage.t;
}.
End GeoTiff.

(** [resolveFormatFromHints] *)
Definition resolveFormatFromHints (hints : Hints.t) : option Format.t :=
  match Hints.formatResolved hints with
  | Some f => Some f
  | None => Hints.format hints
  end.

(** The payload of a request: the container bytes or a raster, and hints. *)
Module Payload.
Record t := {
  buffer : list Z;
  raster : option Raster.t;
  hints : Hints.t;
}.
End Payload.

(** [Object.assign({ interleave: false }, hints.decode || {})] *)
Definition interleaveOf (hints : Hints.t) : bool :=
  match Hints.decode hints with
  | Some {| DecodeOptions.interleave := Some b |} => b
  | _ => false
  end.

(** [normalizeRasters]: a single interleaved array becomes a one-band list. *)
Definition normalizeRasters (rasters : Band.t + list Band.t) : list Band.t :=
  match rasters with
  | inr l => l
  | inl single => [single]
  end.

Section Decoder.

Local Open Scope result_scope.

(** [fromArrayBuffer] of geotiff.js, on the bytes of the container. *)
Variable fromArrayBuffer : list Z -> result GeoTiff.t.

Definition multiImageError (count : Z) : exn :=
  ErrorObject ("[RawTiffPlugin] TIFF has " +:+ pretty count +:+
               " images; provide rawTiff.hints.imageIndex to decode.").

Definition indexRangeError (imageIndex count : Z) : exn :=
  ErrorObject ("[RawTiffPlugin] imageIndex " +:+ pretty imageIndex +:+
               " out of range (0.." +:+ pretty (count - 1) +:+ ").").

(** The canonical raster payload; the colour map, the sample format and the
    tag dictionary are passed through unchanged and are left out. *)
Definition decodeRasterFromArrayBuffer (ab : list Z) (hints : Hints.t)
  : result Raster.t :=
  let* tiff := fromArrayBuffer ab in
  let* count := GeoTiff.getImageCount tiff in
  let imageIndex := Hints.imageIndex hints in
  let* imageIndex :=
    (if negb (count =? 1) then
       match imageIndex with
       | None => throw (multiImageError count)
       | Some i =>
           if (i <? 0) || (count <=? i) then throw (indexRangeError i count)
           else ret i
       end
     else ret 0) in
  let* img := GeoTiff.getImage tiff imageIndex in
  let width := GeoImage.getWidth img in
  let height := GeoImage.getHeight img in
  let samplesPerPixel := GeoImage.getSamplesPerPixel img in
  let bitsPerSample := GeoImage.getBitsPerSample img in
  let photometricInterpretation := GeoImage.photometricInterpretation img in
  let* rasters := GeoImage.readRasters img (interleaveOf hints) in
  let bands := normalizeRasters rasters in
  ret {| Raster.width := width;
         Raster.height := height;
         Raster.bands := bands;
         Raster.samplesPerPixel :=
           Some (Z.max (match samplesPerPixel with Some s => s | None => 0 end)
                       (Z.of_nat (length bands)));
         Raster.bitsPerSample :=
           Some (match bitsPerSample with inr l => l | inl b => [b] end);
         Raster.photometricInterpretation := photometricInterpretation |}.

(** The steps of [decodeRasterFromArrayBuffer] that follow the choice of
    the image index: image [imageIndex] of the container is fetched, read
    and described. *)
Definition decodeImage (tiff : GeoTiff.t) (imageIndex : Z) (hints : Hints.t)
  : result Raster.t :=
  let* img := GeoTiff.getImage tiff imageIndex in
  let width := GeoImage.getWidth img in
  let height := GeoImage.getHeight img in
  let samplesPerPixel := GeoImage.getSamplesPerPixel img in
  let bitsPerSample := GeoImage.getBitsPerSample img in
  let photometricInterpretation := GeoImage.photometricInterpretation img in
  let* rasters := GeoImage.readRasters img (interleaveOf hints) in
  let bands := normalizeRasters rasters in
  ret {| Raster.width := width;
         Raster.height := height;
         Raster.bands := bands;
         Raster.samplesPerPixel :=
           Some (Z.max (match samplesPerPixel with Some s => s | None => 0 end)
                       (Z.of_nat (length bands)));
         Raster.bitsPerSample :=
           Some (match bitsPerSample with inr l => l | inl b => [b] end);
         Raster.photometricInterpretation := photometricInterpretation |}.

(** The image-mode branch of [rasterPayloadToTextureSet]
    ([rasterToRGBA8_ImageMode] then [packCanonicalRGBA]) and the bitmap
    renderer ([decodeAndRenderImageBitmapFromArrayBuffer] after its decode
    step), with the warnings they post. *)
Variable imageModeTextureSet :
  Raster.t -> Hints.t -> list Warn.t * result TextureSet.t.
Variable BitmapOutput : Type.
Variable renderImageBitmap :
  Raster.t -> Hints.t -> list Warn.t * result BitmapOutput.

(** The warnings posted on the way, and the texture set returned or the
    exception thrown. *)
Definition rasterPayloadToTextureSet (rasterPayload : Raster.t) (hints : Hints.t)
  : list Warn.t * result TextureSet.t :=
  let format := resolveFormatFromHints hints in
  match modeOf rasterPayload format with
  | image => imageModeTextureSet rasterPayload hints
  | _ =>
      let '(texSet, warns) := packBandsAsData rasterPayload format in
      (warns, ret texSet)
  end.

(** ** Worker message handler ([tiff.worker.js], [workerRef.onmessage]) *)

Inductive WorkResult :=
  | RasterResult (rasterPayload : Raster.t)
  | BitmapResult (bitmap : BitmapOutput)
  | PackedResult (rasterPayload : Raster.t) (texSet : TextureSet.t)
  | TextureSetResult (texSet : TextureSet.t).

(** A message posted by the worker. *)
Inductive Posted :=
  | PostOk (id : Z) (result : WorkResult)
  | PostError (id : Z) (error : string)
  | PostWarn (w : Warn.t).

(** The body of the [try] block: the warnings posted on the way, and the
    result to reply with or the exception caught. *)
Definition runOp (op : string) (payload : Payload.t)
  : list Warn.t * result WorkResult :=
  let ab := Payload.buffer payload in
  let hints := Payload.hints payload in
  if String.eqb op "decodeRaster" then
    ([], let* r := decodeRasterFromArrayBuffer ab hints in ret (RasterResult r))
  else if String.eqb op "decodeAndRenderImageBitmap" then
    match decodeRasterFromArrayBuffer ab hints with
    | inl e => ([], inl e)
    | inr rasterPayload =>
        let '(warns, rendered) := renderImageBitmap rasterPayload hints in
        (warns, let* bmp := rendered in ret (BitmapResult bmp))
    end
  else if String.eqb op "decodeAndPackGpuTextureSet" then
    match decodeRasterFromArrayBuffer ab hints with
    | inl e => ([], inl e)
    | inr rasterPayload =>
        let '(warns, packed) := rasterPayloadToTextureSet rasterPayload hints in
        (warns, let* texSet := packed in ret (PackedResult rasterPayload texSet))
    end
  else if String.eqb op "rasterToGpuTextureSet" then
    match Payload.raster payload with
    | None => ([], throw (ErrorObject "Cannot read properties of undefined (reading 'bands')"))
    | Some raster =>
        let '(warns, packed) := rasterPayloadToTextureSet raster hints in
        (warns, let* texSet := packed in ret (TextureSetResult texSet))
    end
  else ([], throw (ErrorObject ("[RawTiffPlugin] Unknown worker op: " +:+ op))).

(** [workerRef.onmessage]: every message the worker posts for one request. *)
Definition onmessage (id : Z) (op : string) (payload : Payload.t) : list Posted :=
  let '(warns, outcome) := runOp op payload in
  map PostWarn warns ++
  [ match outcome with
    | inr result => PostOk id result
    | inl e => PostError id (errorToPlain e)
    end ].

(** The three operations that start by decoding the container. *)
Definition decodeOps : list string :=
  ["decodeRaster"; "decodeAndRenderImageBitmap"; "decodeAndPackGpuTextureSet"].

End Decoder.

(** The decode failures as worded: a decode operation replies with an error
    (and nothing else) when the container holds more than one image and no
    index was supplied, and whenever a supplied index is below 0 or at least
    the image count. *)
Definition decode_rejects_every_bad_index : Prop :=
  forall (fromArrayBuffer : list Z -> result GeoTiff.t)
         (imageModeTextureSet : Raster.t -> Hints.t -> list Warn.t * result TextureSet.t)
         (BitmapOutput : Type)
         (renderImageBitmap : Raster.t -> Hints.t -> list Warn.t * result BitmapOutput)
         (id : Z) (op : string) (payload : Payload.t) (tiff : GeoTiff.t) (count : Z),
    op ∈ decodeOps ->
    fromArrayBuffer (Payload.buffer payload) = inr tiff ->
    GeoTiff.getImageCount tiff = inr count ->
    (1 < count /\ Hints.imageIndex (Payload.hints payload) = None) \/
    (exists i, Hints.imageIndex (Payload.hints payload) = Some i /\
               (i < 0 \/ count <= i)) ->
    exists error,
      error <> "" /\
      onmessage fromArrayBuffer imageModeTextureSet BitmapOutput renderImageBitmap
        id op payload = [PostError BitmapOutput id error].

(** A container with a single 1x1 one-band image. *)
Definition singleImage : GeoImage.t :=
  {| GeoImage.getWidth := 1;
     GeoImage.getHeight := 1;
     GeoImage.getSamplesPerPixel := Some 1;
     GeoImage.getBitsPerSample := inl 8;
     GeoImage.photometricInterpretation := Some PI.BlackIsZero;
     GeoImage.readRasters := fun _ => ret (inr [bandOf Uint8Array [128]]) |}.

Definition singleImageTiff : GeoTiff.t :=
  {| GeoTiff.getImageCount := ret 1;
     GeoTiff.getImage := fun i =>
       if i =? 0 then ret singleImage
       else throw (ErrorObject "No image at index") |}.

(** A container with three such images. *)
Definition threeImageTiff : GeoTiff.t :=
  {| GeoTiff.getImageCount := ret 3;
     GeoTiff.getImage := fun i =>
       if (0 <=? i) && (i <? 3) then ret singleImage
       else throw (ErrorObject "No image at index") |}.

Definition hintsWithIndex (i : option Z) : Hints.t :=
  {| Hints.imageIndex := i;
     Hints.decode := None;
     Hints.renderChannels := None;
     Hints.formatResolved := None;
     Hints.format := None |}.

Definition payloadWithIndex (i : option Z) : Payload.t :=
  {| Payload.buffer := [];
     Payload.raster := None;
     Payload.hints := hintsWithIndex i |}.

(** Stand-ins for the two renderers, unused by the decode step. *)
Definition noImageMode (r : Raster.t) (h : Hints.t)
  : list Warn.t * result TextureSet.t :=
  ([], throw (ErrorObject "image mode")).
Definition noBitmap (r : Raster.t) (h : Hints.t) : list Warn.t * result unit :=
  ([], throw (ErrorObject "bitmap")).

(** ** Warn-once logger ([consoleOnce.js], [logOnce]) *)

(** The console methods a caller names in [mode]. *)
Inductive ConsoleMode := warn | log | info | error | debug.

(** A line printed on the console.  [key] is not printed: it records which
    dedup key the line was printed for. *)
Module Line.
Record t := { key : string; mode : ConsoleMode; message : string }.
End Line.

(** The module state: the own properties of [__rt_consoleEchoOnce], and
    what the console has shown so far. *)
Module Log.
Record t := { echoOnce : gmap string bool; console : list Line.t }.
End Log.

Definition emptyLog : Log.t := {| Log.echoOnce := ∅; Log.console := [] |}.

(** The properties a plain object inherits from [Object.prototype]: every
    one of them is truthy when read through [obj[key]]. *)
Definition objectPrototypeKeys : list string :=
  [ "constructor"; "hasOwnProperty"; "isPrototypeOf"; "propertyIsEnumerable";
    "toLocaleString"; "toString"; "valueOf"; "__proto__";
    "__defineGetter__"; "__defineSetter__"; "__lookupGetter__";
    "__lookupSetter__" ].

(** [__rt_consoleEchoOnce[key]], as a condition. *)
Definition echoed (st : Log.t) (key : string) : bool :=
  match Log.echoOnce st !! key with
  | Some b => b
  | None => bool_decide (key ∈ objectPrototypeKeys)
  end.

Definition logOnce (key message : string) (mode : ConsoleMode) (st : Log.t) : Log.t :=
  if echoed st key then st
  else {| Log.echoOnce := <[key := true]> (Log.echoOnce st);
          Log.console := Log.console st ++
            [{| Line.key := key; Line.mode := mode; Line.message := message |}] |}.

(** [x || fallback] on an optional string: absent and empty are falsy. *)
Definition strOr (x : option string) (fallback : string) : string :=
  match x with
  | Some "" | None => fallback
  | Some s => s
  end.

(** The warn branch of the pool's [w.onmessage]. *)
Definition onWorkerWarn (code message : option string) (st : Log.t) : Log.t :=
  logOnce (strOr code "RawTiffWorker_warn")
          (strOr message "[RawTiffWorker] warning") warn st.

(** The channel-count check of [rasterToRGBA8]: more than 4 channels for an
    RGBA output are dropped with one warning. *)
Definition warnExtraChannels (channels : list Z) (st : Log.t) : Log.t :=
  if (4 <? length channels)%nat then
    logOnce "renderChannels>4_to_RGBA"
      ("[tiff] Requested " +:+ pretty (length channels) +:+
       " channels for RGBA output; only 4 can be represented. Extra channels will be dropped.")
      warn st
  else st.

(** The calls that reach [logOnce]. *)
Inductive LogEvent :=
  | WorkerWarned (code message : option string)
  | Rendered (channels : list Z)
  | PackedWithoutWorker
  | Logged (key message : string) (mode : ConsoleMode).

Definition logStep (st : Log.t) (ev : LogEvent) : Log.t :=
  match ev with
  | WorkerWarned code message => onWorkerWarn code message st
  | Rendered channels => warnExtraChannels channels st
  | PackedWithoutWorker =>
      logOnce "gpuTextureSet_no_worker"
        "[RawTiffPlugin] No worker pool available; gpuTextureSet packing will fall back to worker-less path (slower)."
        warn st
  | Logged key message mode => logOnce key message mode st
  end.

Definition logRun (events : list LogEvent) (st : Log.t) : Log.t :=
  fold_left logStep events st.

(** How many console lines were printed for [key]. *)
Definition surfaced (key : string) (st : Log.t) : nat :=
  length (List.filter (fun l => String.eqb (Line.key l) key) (Log.console st)).

(** The console never shows two lines for one key, and every key it shows
    is marked in the dedup object. *)
Definition logInv (st : Log.t) : Prop :=
  NoDup (map Line.key (Log.console st)) /\
  forall l, l ∈ Log.console st -> Log.echoOnce st !! Line.key l = Some true.


(** ** Worker pool (the RawTIFF plugin module, [RawTiffWorkerPool]) *)

(** The state of the promise of a deferred. *)
Inductive PromiseState (R : Type) :=
  | Pending
  | Fulfilled (value : R)
  | Rejected (reason : exn).
Arguments Pending {R}.
Arguments Fulfilled {R} value.
Arguments Rejected {R} reason.

(** One pool entry: the worker (named by its position at creation), its
    count of outstanding requests, and the id -> deferred correlation
    table.  A deferred is named by a handle into the promise store. *)
Module Entry.
Record t := { worker : nat; pending : Z; callbacks : gmap Z Z }.
End Entry.

Module Pool.
Record t := { size : Z; workers : list Entry.t; _nextId : Z }.
End Pool.

(** A request message, as posted to a worker. *)
Module Request.
Record t := { id : Z; op : string; payload : Payload.t }.
End Request.

(** [__rt_errorToString] on the [error] field of a reply (a string). *)
Definition rtErrorToString (err : string) : string :=
  match err with
  | "" => "Unknown error"
  | s => s
  end.

(** [new RawTiffWorkerPool({ size, createWorker })]:
    [Math.max(1, size | 0)] fresh entries. *)
Definition newPool (size : Z) : Pool.t :=
  let size := Z.max 1 (JS.toInt32 size) in
  {| Pool.size := size;
     Pool.workers :=
       map (fun i => {| Entry.worker := i; Entry.pending := 0; Entry.callbacks := ∅ |})
           (seq 0 (Z.to_nat size));
     Pool._nextId := 1 |}.

(** [for (const w of this.workers) if (w.pending < best.pending) best = w;]
    with the position of [best] in the list. *)
Fixpoint pickBest (best : nat * Entry.t) (i : nat) (ws : list Entry.t)
  : nat * Entry.t :=
  match ws with
  | [] => best
  | w :: rest =>
      pickBest (if Entry.pending w <? Entry.pending (snd best) then (i, w) else best)
               (S i) rest
  end.

(** [let best = this.workers[0]; for ...]: [None] when there is no worker
    and [best] is [undefined]. *)
Definition chooseWorker (ws : list Entry.t) : option (nat * Entry.t) :=
  match ws with
  | [] => None
  | w0 :: _ => Some (pickBest (0%nat, w0) 0 ws)
  end.

(** [transfer && transfer.length]: the transfer list is passed on only
    when it is a non-empty array. *)
Definition transferArg (transfer : option (list nat)) : option (list nat) :=
  match transfer with
  | Some (t :: ts) => Some (t :: ts)
  | _ => None
  end.

Section PoolOps.

(** The payload type of a fulfilled request. *)
Variable BitmapOutput : Type.

(** The controlling side: the pool, the promises of the deferreds made so
    far, and the warn-once state. *)
Record Main := {
  pool : Pool.t;
  promises : gmap Z (PromiseState (WorkResult BitmapOutput));
  logState : Log.t;
}.

(** [worker.postMessage(msg, transfer)]: [Some e] when it throws [e]. *)
Variable postMessage : nat -> Request.t -> option (list nat) -> option exn.

(** [d.resolve] / [d.reject]: a promise settles once. *)
Definition settle (d : Z) (s : PromiseState (WorkResult BitmapOutput))
  (ps : gmap Z (PromiseState (WorkResult BitmapOutput)))
  : gmap Z (PromiseState (WorkResult BitmapOutput)) :=
  match ps !! d with
  | Some Pending => <[d := s]> ps
  | _ => ps
  end.

(** [request(op, payload, transfer)]: the new state, and the handle of the
    returned promise, or the exception thrown when there is no worker. *)
Definition request (op : string) (payload : Payload.t) (transfer : option (list nat))
    (st : Main) : Main * result Z :=
  let p := pool st in
  let id := Pool._nextId p in
  (* const d = __rt_makeDeferred(): the deferred of request [id] *)
  let d := id in
  let promises1 := <[d := Pending]> (promises st) in
  match chooseWorker (Pool.workers p) with
  | None =>
      ({| pool := {| Pool.size := Pool.size p; Pool.workers := Pool.workers p;
                     Pool._nextId := id + 1 |};
          promises := promises1; logState := logState st |},
       throw (ErrorObject "Cannot read properties of undefined (reading 'pending')"))
  | Some (bi, best) =>
      (* best.pending++; best.callbacks.set(id, d); *)
      let best1 := {| Entry.worker := Entry.worker best;
                      Entry.pending := Entry.pending best + 1;
                      Entry.callbacks := <[id := d]> (Entry.callbacks best) |} in
      let workers1 := <[bi := best1]> (Pool.workers p) in
      let msg := {| Request.id := id; Request.op := op; Request.payload := payload |} in
      match postMessage (Entry.worker best) msg (transferArg transfer) with
      | None =>
          ({| pool := {| Pool.size := Pool.size p; Pool.workers := workers1;
                         Pool._nextId := id + 1 |};
              promises := promises1; logState := logState st |},
           ret d)
      | Some e =>
          (* best.callbacks.delete(id);
             best.pending = Math.max(0, best.pending - 1); d.reject(e); *)
          let best2 := {| Entry.worker := Entry.worker best1;
                          Entry.pending := Z.max 0 (Entry.pending best1 - 1);
                          Entry.callbacks := delete id (Entry.callbacks best1) |} in
          ({| pool := {| Pool.size := Pool.size p;
                         Pool.workers := <[bi := best2]> workers1;
                         Pool._nextId := id + 1 |};
              promises := settle d (Rejected e) promises1;
              logState := logState st |},
           ret d)
      end
  end.

(** [w.onmessage] of the entry at position [wi], on a message posted by
    its worker. *)
Definition poolOnMessage (wi : nat) (msg : Posted BitmapOutput) (st : Main) : Main :=
  match msg with
  | PostWarn _ w =>
      {| pool := pool st; promises := promises st;
         logState := onWorkerWarn (Some (Warn.code w)) (Some (Warn.message w))
                       (logState st) |}
  | PostOk _ id _ | PostError _ id _ =>
      let p := pool st in
      match Pool.workers p !! wi with
      | None => st
      | Some entry =>
          match Entry.callbacks entry !! id with
          | None => st
          | Some cb =>
              let entry' := {| Entry.worker := Entry.worker entry;
                               Entry.pending := Z.max 0 (Entry.pending entry - 1);
                               Entry.callbacks := delete id (Entry.callbacks entry) |} in
              {| pool := {| Pool.size := Pool.size p;
                            Pool.workers := <[wi := entry']> (Pool.workers p);
                            Pool._nextId := Pool._nextId p |};
                 promises :=
                   settle cb
                     match msg with
                     | PostOk _ _ result => Fulfilled result
                     | PostError _ _ err => Rejected (ErrorObject (rtErrorToString err))
                     | PostWarn _ _ => Pending
                     end (promises st);
                 logState := logState st |}
          end
      end
  end.

(** [w.onerror] of the entry at position [wi]: every outstanding request
    of that worker is rejected and its bookkeeping is reset. *)
Definition poolOnError (wi : nat) (e : exn) (st : Main) : Main :=
  let p := pool st in
  match Pool.workers p !! wi with
  | None => st
  | Some entry =>
      let reason := match e with
                    | ErrorObject _ => e
                    | ThrownString s => ErrorObject s
                    end in
      {| pool := {| Pool.size := Pool.size p;
                    Pool.workers :=
                      <[wi := {| Entry.worker := Entry.worker entry;
                                 Entry.pending := 0;
                                 Entry.callbacks := ∅ |}]> (Pool.workers p);
                    Pool._nextId := Pool._nextId p |};
         promises :=
           map_fold (fun _ cb ps => settle cb (Rejected reason) ps)
             (promises st) (Entry.callbacks entry);
         logState := logState st |}
  end.

(** [terminate()]: the workers are stopped and the worker list is emptied. *)
Definition terminate (st : Main) : Main :=
  {| pool := {| Pool.size := Pool.size (pool st);
                Pool.workers := [];
                Pool._nextId := Pool._nextId (pool st) |};
     promises := promises st;
     logState := logState st |}.

(** What happens on the controlling side, one event at a time. *)
Inductive MainEvent :=
  | DoRequest (op : string) (payload : Payload.t) (transfer : option (list nat))
  | WorkerMessage (wi : nat) (msg : Posted BitmapOutput)
  | WorkerError (wi : nat) (e : exn)
  | DoTerminate
  | DoLog (ev : LogEvent).

Definition mainStep (st : Main) (ev : MainEvent) : Main :=
  match ev with
  | DoRequest op payload transfer => fst (request op payload transfer st)
  | WorkerMessage wi msg => poolOnMessage wi msg st
  | WorkerError wi e => poolOnError wi e st
  | DoTerminate => terminate st
  | DoLog ev =>
      {| pool := pool st; promises := promises st;
         logState := logStep (logState st) ev |}
  end.

Definition mainRun (events : list MainEvent) (st : Main) : Main :=
  fold_left mainStep events st.

(** The state right after the pool is created. *)
Definition initMain (size : Z) : Main :=
  {| pool := newPool size; promises := ∅; logState := emptyLog |}.

(** The bookkeeping invariant: no pending count is negative, and every
    correlation entry belongs to an id that was already handed out. *)
Definition poolInv (p : Pool.t) : Prop :=
  forall i w, Pool.workers p !! i = Some w ->
    0 <= Entry.pending w /\
    forall id d, Entry.callbacks w !! id = Some d -> id < Pool._nextId p.

End PoolOps.

Definition cloneError : exn := ErrorObject "DataCloneError".

(** A [postMessage] that accepts the request with id 1 and throws on every
    other one. *)
Definition postOnlyFirst (w : nat) (msg : Request.t) (transfer : option (list nat))
  : option exn :=
  if Request.id msg =? 1 then None else Some cloneError.

(** ** Format resolver (the RawTIFF plugin module, [deepMerge]) *)

(** Configuration values.  An object has its own enumerable properties, in
    the order in which [Object.keys] lists them, and a prototype; an array
    is the list of its elements. *)
#[warnings="-register-all"]
Inductive value :=
  | Undefined
  | Null
  | Bool (b : bool)
  | Num (n : JS.number)
  | Str (s : string)
  | Arr (elems : list value)
  | Obj (props : list (string * value)) (proto : prototype)
(** The prototype of an object: [Object.prototype] (what an object literal
    and [JSON.parse] give), [null], or another object or array. *)
with prototype :=
  | ObjectPrototype
  | NullPrototype
  | ObjectProto (props : list (string * value)) (proto : prototype)
  | ArrayProto (elems : list value).

(** An object under construction ([out]). *)
Record object := { own : list (string * value); proto : prototype }.

Definition objValue (o : object) : value := Obj (own o) (proto o).

(** The own property [k] of an object. *)
Fixpoint lookupOwn (k : string) (props : list (string * value)) : option value :=
  match props with
  | [] => None
  | (k', v) :: rest => if decide (k' = k) then Some v else lookupOwn k rest
  end.

(** The array index that a property name denotes, if any: the canonical
    decimal form of an integer below 2^32 - 1. *)
Definition arrayIndex (k : string) : option N :=
  match NilEmpty.uint_of_string k with
  | Some d =>
      let n := N.of_uint d in
      if (n <? 4294967295)%N && bool_decide (pretty n = k) then Some n else None
  | None => None
  end.

(** A new own property takes its place in the order of [Object.keys]:
    array indices first, ascending, then the other names in the order of
    their creation. *)
Fixpoint insertIndex (n : N) (k : string) (v : value) (props : list (string * value))
  : list (string * value) :=
  match props with
  | [] => [(k, v)]
  | (k', v') :: rest =>
      match arrayIndex k' with
      | Some n' =>
          if (n' <? n)%N then (k', v') :: insertIndex n k v rest
          else (k, v) :: props
      | None => (k, v) :: props
      end
  end.

Definition insertNew (k : string) (v : value) (props : list (string * value))
  : list (string * value) :=
  match arrayIndex k with
  | Some n => insertIndex n k v props
  | None => props ++ [(k, v)]
  end.

(** An existing own property keeps its place. *)
Fixpoint replaceOwn (k : string) (v : value) (props : list (string * value))
  : list (string * value) :=
  match props with
  | [] => []
  | (k', v') :: rest =>
      if decide (k' = k) then (k, v) :: rest else (k', v') :: replaceOwn k v rest
  end.

(** The own properties of an array that a lookup by name can find: its
    elements and [length]. *)
Definition arrayOwn (elems : list value) (k : string) : option value :=
  if decide (k = "length") then Some (Num (JS.ofZ (Z.of_nat (length elems))))
  else match arrayIndex k with
       | Some n => elems !! N.to_nat n
       | None => None
       end.

(** What a property name finds on the prototype chain: a data property of
    an object of the chain, the [__proto__] accessor of [Object.prototype],
    or no data (nothing, or a built-in method: the value read is
    [undefined] or a function). *)
Inductive Inherited :=
  | Data (v : value)
  | Accessor
  | NoData.

Fixpoint findInherited (p : prototype) (k : string) : Inherited :=
  match p with
  | ObjectPrototype => if decide (k = "__proto__") then Accessor else NoData
  | NullPrototype => NoData
  | ObjectProto props p' =>
      match lookupOwn k props with
      | Some v => Data v
      | None => findInherited p' k
      end
  | ArrayProto elems =>
      match arrayOwn elems k with
      | Some v => Data v
      | None => if decide (k = "__proto__") then Accessor else NoData
      end
  end.

(** The own enumerable properties of [out[k]] when [out[k]] is a truthy
    object that is not an array, which is what the merge condition asks of
    it.  Read through the accessor, [k] gives the prototype of [out];
    [Object.prototype] itself has no enumerable property. *)
Definition objectAt (out : object) (k : string) : option (list (string * value)) :=
  let ofValue v := match v with Obj props _ => Some props | _ => None end in
  match lookupOwn k (own out) with
  | Some v => ofValue v
  | None =>
      match findInherited (proto out) k with
      | Data v => ofValue v
      | Accessor =>
          match proto out with
          | ObjectPrototype => Some []
          | ObjectProto props _ => Some props
          | _ => None
          end
      | NoData => None
      end
  end.

(** [out[k] = v]: an own property is overwritten; the [__proto__] accessor
    replaces the prototype when [v] is an object or [null] and does
    nothing otherwise; in every other case (all inherited data properties
    of these objects are writable) a new own property is created. *)
Definition setProp (out : object) (k : string) (v : value) : object :=
  match lookupOwn k (own out) with
  | Some _ => {| own := replaceOwn k v (own out); proto := proto out |}
  | None =>
      match findInherited (proto out) k with
      | Accessor =>
          match v with
          | Obj props p => {| own := own out; proto := ObjectProto props p |}
          | Arr elems => {| own := own out; proto := ArrayProto elems |}
          | Null => {| own := own out; proto := NullPrototype |}
          | _ => out
          end
      | _ => {| own := insertNew k v (own out); proto := proto out |}
      end
  end.

(** [Object.assign({}, a)] *)
Definition assignFresh (a : list (string * value)) : object :=
  fold_left (fun out kv => setProp out kv.1 kv.2) a
            {| own := []; proto := ObjectPrototype |}.

(** [deepMerge(a, b)] for an object [a], given by its own properties; at
    every call site the first argument is a format object (the defaults,
    or [out[k]] under the guard that it is an object and not an array).
    [out] starts as [Object.assign({}, a)]; a falsy or non-object [b]
    leaves it as it is; otherwise every own key of [b] is merged in, in
    the order of [Object.keys(b)].  The keys of an array are its
    indices. *)
Fixpoint deepMerge (a : list (string * value)) (b : value) : object :=
  let out := assignFresh a in
  match b with
  | Obj bprops _ =>
      (fix loop (props : list (string * value)) (out : object) : object :=
         match props with
         | [] => out
         | (k, bv) :: rest =>
             loop rest
               match bv, objectAt out k with
               | Obj _ _, Some o => setProp out k (objValue (deepMerge o bv))
               | _, _ => setProp out k bv
               end
         end) bprops out
  | Arr elems =>
      (fix loop (i : nat) (elems : list value) (out : object) : object :=
         match elems with
         | [] => out
         | bv :: rest =>
             loop (S i) rest
               match bv, objectAt out (pretty i) with
               | Obj _ _, Some o => setProp out (pretty i) (objValue (deepMerge o bv))
               | _, _ => setProp out (pretty i) bv
               end
         end) 0%nat elems out
  | _ => out
  end.

(** The own properties of the second argument that the loop visits, in
    the order of the visit. *)
Definition ownEntries (b : value) : list (string * value) :=
  match b with
  | Obj props _ => props
  | Arr elems => imap (fun i v => (pretty i, v)) elems
  | _ => []
  end.

(** One step of the loop: the assignment for the key [k] of [b]. *)
Definition mergeStep (out : object) (kv : string * value) : object :=
  match kv.2, objectAt out kv.1 with
  | Obj _ _, Some o => setProp out kv.1 (objValue (deepMerge o kv.2))
  | _, _ => setProp out kv.1 kv.2
  end.

(** The property written for one key of [b]: a nested merge when both
    sides are objects that are not arrays, else the value of [b]. *)
Definition mergedProperty (av : option value) (bv : value) : value :=
  match bv, av with
  | Obj _ _, Some (Obj o _) => objValue (deepMerge o bv)
  | _, _ => bv
  end.

(** The number of values nested in a value. *)
Fixpoint valueSize (v : value) : nat :=
  match v with
  | Obj props _ =>
      S ((fix sum (l : list (string * value)) : nat :=
            match l with
            | [] => 0
            | (_, v') :: rest => valueSize v' + sum rest
            end) props)
  | Arr elems =>
      S ((fix sum (l : list value) : nat :=
            match l with
            | [] => 0
            | v' :: rest => valueSize v' + sum rest
            end) elems)
  | _ => 1
  end%nat.

(** Objects as literals and [JSON.parse] make them, with the one
    restriction that no object has an own property named [__proto__]:
    every object has the prototype [Object.prototype] and distinct keys. *)
Fixpoint plain (v : value) : bool :=
  match v with
  | Obj props p =>
      match p with ObjectPrototype => true | _ => false end
      && bool_decide (NoDup props.*1)
      && bool_decide ("__proto__" ∉ props.*1)
      && (fix all (l : list (string * value)) : bool :=
            match l with
            | [] => true
            | (_, v') :: rest => plain v' && all rest
            end) props
  | Arr elems =>
      (fix all (l : list value) : bool :=
         match l with
         | [] => true
         | v' :: rest => plain v' && all rest
         end) elems
  | _ => true
  end.

Definition plainProps (props : list (string * value)) : bool :=
  plain (Obj props ObjectPrototype).

(** The structure of a value: its own properties by name, whatever their
    order, property by property.  Two values are structurally identical
    when they have the same structure. *)
#[warnings="-register-all"]
Inductive shape :=
  | SUndefined
  | SNull
  | SBool (b : bool)
  | SNum (n : JS.number)
  | SStr (s : string)
  | SArr (elems : list shape)
  | SObj (props : gmap string shape).

Fixpoint structure (v : value) : shape :=
  match v with
  | Undefined => SUndefined
  | Null => SNull
  | Bool b => SBool b
  | Num n => SNum n
  | Str s => SStr s
  | Arr elems => SArr (map structure elems)
  | Obj props _ =>
      SObj ((fix entries (l : list (string * value)) : gmap string shape :=
               match l with
               | [] => ∅
               | (k, v') :: rest => <[k := structure v']> (entries rest)
               end) props)
  end.

(** The structure of the own properties of an object. *)
Definition structureProps (props : list (string * value)) : gmap string shape :=
  match structure (Obj props ObjectPrototype) with
  | SObj m => m
  | _ => ∅
  end.

(** The merge as worded, for every pair of configuration objects: under
    every key of the later layer the result holds the merged property (the
    nested merge of two objects, else the later value), and merging the
    same layer a second time gives a structurally identical result. *)
Definition deepMerge_merges_every_key : Prop :=
  forall (a bprops : list (string * value)) (k : string) (bv : value),
    NoDup a.*1 -> NoDup bprops.*1 ->
    lookupOwn k bprops = Some bv ->
    let r := deepMerge a (Obj bprops ObjectPrototype) in
    lookupOwn k (own r) = Some (mergedProperty (lookupOwn k a) bv) /\
    structure (objValue (deepMerge (own r) (Obj bprops ObjectPrototype))) =
      structure (objValue r).

(** An object literal. *)
Definition literal (props : list (string * value)) : value := Obj props ObjectPrototype.

(** [defaultFormat], the default format options. *)
Definition defaultFormat : list (string * value) :=
  [ ("interpretation", Str "auto");
    ("channels", Null);
    ("gpu", literal [ ("preferRGBA8", Bool true);
                      ("forceRGBA16F", Bool false);
                      ("packMode", Str "packsOf4") ]);
    ("image", literal [ ("rgbaChannels", Null) ]);
    ("hints", literal [ ("layout", literal [ ("pyramid", Str "auto");
                                             ("planeIndex", Num (JS.ofZ 0));
                                             ("prefer", Str "pyramid") ]) ]) ].

(** [{ channels: [2, 0], gpu: { forceRGBA16F: true } }] *)
Definition formatOverride : value :=
  literal [ ("channels", Arr [Num (JS.ofZ 2); Num (JS.ofZ 0)]);
            ("gpu", literal [ ("forceRGBA16F", Bool true) ]) ].

(** [JSON.parse('{"__proto__": 5}')]: an object with an own property named
    [__proto__]. *)
Definition protoLayer : value := literal [ ("__proto__", Num (JS.ofZ 5)) ].

(** * Further properties: definitions *)

(** ** Worker pool: bookkeeping *)

(** The load count of every worker is the number of its correlation
    entries. *)
Definition poolCounts (p : Pool.t) : Prop :=
  forall i w, Pool.workers p !! i = Some w ->
    Entry.pending w = Z.of_nat (size (Entry.callbacks w)).

(** Every deferred made so far belongs to an id already handed out. *)
Definition promisesBelow {R : Type} (ps : gmap Z (PromiseState R)) (nextId : Z) : Prop :=
  forall d s, ps !! d = Some s -> d < nextId.

Definition isRequest {B : Type} (ev : MainEvent B) : bool :=
  match ev with
  | DoRequest _ _ _ _ => true
  | _ => false
  end.

(** A promise that is fulfilled or rejected. *)
Definition settled {R : Type} (s : PromiseState R) : bool :=
  match s with
  | Pending => false
  | _ => true
  end.

(** The reason [w.onerror] rejects with:
    [e instanceof Error ? e : new Error(String(e))]. *)
Definition errorReason (e : exn) : exn :=
  match e with
  | ErrorObject _ => e
  | ThrownString s => ErrorObject s
  end.

(** A [postMessage] that never throws. *)
Definition postAlways (w : nat) (msg : Request.t) (transfer : option (list nat))
  : option exn := None.

(** Two workers, the first with one outstanding request. *)
Definition busyFirst : list Entry.t :=
  [ {| Entry.worker := 0; Entry.pending := 1; Entry.callbacks := {[ 1 := 1 ]} |};
    {| Entry.worker := 1; Entry.pending := 0; Entry.callbacks := ∅ |};
    {| Entry.worker := 2; Entry.pending := 0; Entry.callbacks := ∅ |} ].

(** A state with two requests waiting on worker 0 and one on worker 1. *)
Definition threeWaiting : Main unit :=
  mainRun unit postAlways
    [DoRequest unit "decodeRaster" (payloadWithIndex None) None;
     DoRequest unit "decodeRaster" (payloadWithIndex None) None;
     DoRequest unit "decodeRaster" (payloadWithIndex None) None]
    (initMain unit 2).

(** ** Worker protocol *)

(** The four operations the worker knows. *)
Definition workerOps : list string :=
  ["decodeRaster"; "decodeAndRenderImageBitmap"; "decodeAndPackGpuTextureSet";
   "rasterToGpuTextureSet"].

(** The payload of a [rasterToGpuTextureSet] request for a raster that an
    earlier [decodeRaster] request returned, with the same hints. *)
Definition withRaster (payload : Payload.t) (r : Raster.t) : Payload.t :=
  {| Payload.buffer := Payload.buffer payload;
     Payload.raster := Some r;
     Payload.hints := Payload.hints payload |}.

(** A request for the single-image container, to be packed as data. *)
Definition dataPayload : Payload.t :=
  {| Payload.buffer := [];
     Payload.raster := None;
     Payload.hints :=
       {| Hints.imageIndex := None;
          Hints.decode := None;
          Hints.renderChannels := None;
          Hints.formatResolved := formatForce16;
          Hints.format := None |} |}.

(** The raster payload decoded from [singleImageTiff]. *)
Definition decodedSingle : Raster.t :=
  {| Raster.width := 1; Raster.height := 1;
     Raster.bands := [bandOf Uint8Array [128]];
     Raster.samplesPerPixel := Some 1;
     Raster.bitsPerSample := Some [8];
     Raster.photometricInterpretation := Some PI.BlackIsZero |}.

(** ** Warn-once log: what the console shows *)

(** A sequence of [logOnce(key, message, mode)] calls, each given as the
    line it would print. *)
Definition logCalls (calls : list Line.t) (st : Log.t) : Log.t :=
  fold_left (fun st l => logOnce (Line.key l) (Line.message l) (Line.mode l) st)
            calls st.

(** The first line of each key that is not in [seen], in order. *)
Fixpoint firstPerKey (seen : list string) (calls : list Line.t) : list Line.t :=
  match calls with
  | [] => []
  | l :: rest =>
      if bool_decide (Line.key l ∈ seen) then firstPerKey seen rest
      else l :: firstPerKey (Line.key l :: seen) rest
  end.

(** ** GPU packer: ranges and sample inputs *)

(** The number of values an element of the pack's typed array can take:
    [Uint8Array] for RGBA8, [Uint16Array] for RGBA16F. *)
Definition elementRange (f : PackFormat) : Z :=
  match f with
  | RGBA8 => 256
  | RGBA16F => 65536
  end.

(** [{ channels: [2, 0, 5, 1, 4] }] *)
Definition formatReorder : option Format.t :=
  Some {| Format.interpretation := None;
          Format.channels := Some [Some 2; Some 0; Some 5; Some 1; Some 4];
          Format.gpu := None |}.

(** One float band holding a value beyond the half-float range. *)
Definition rasterFloat : Raster.t :=
  {| Raster.width := 1; Raster.height := 1;
     Raster.bands := [bandOf Float32Array [70000]];
     Raster.samplesPerPixel := Some 1;
     Raster.bitsPerSample := Some [32];
     Raster.photometricInterpretation := None |}.

(** One 16-bit band. *)
Definition raster16 : Raster.t :=
  {| Raster.width := 1; Raster.height := 1;
     Raster.bands := [bandOf Uint16Array [65535]];
     Raster.samplesPerPixel := Some 1;
     Raster.bitsPerSample := Some [16];
     Raster.photometricInterpretation := None |}.

(** ** Half-float codec: what a pattern denotes *)

(** The fields of a binary16 pattern. *)
Definition f16_sign (h : Z) : bool := 2 ^ 15 <=? h.
Definition f16_exp (h : Z) : Z := (h / 2 ^ 10) mod 2 ^ 5.
Definition f16_mant (h : Z) : Z := h mod 2 ^ 10.

(** The value a binary16 pattern denotes (IEEE 754), as a binary32 value:
    [(-1)^s * 2^(e-15) * (1 + m/1024)] for an exponent field [e] in 1..30;
    zero, subnormal ([m * 2^-24]), infinity and NaN for the other fields. *)
Definition f16ToF32 (h : Z) : spec_float :=
  let s := f16_sign h in
  let e := f16_exp h in
  let m := f16_mant h in
  if e =? 31 then (if m =? 0 then S754_infinity s else S754_nan)
  else if e =? 0 then
    binary_normalize JS.prec32 JS.emax32 (if s then - m else m) (-24) s
  else S754_finite s (Z.to_pos ((2 ^ 10 + m) * 2 ^ 13)) (e - 38).

(** The patterns the codec can give back: all but the subnormals and the
    NaNs other than the quiet NaN [0x7E00]. *)
Definition f16_kept (h : Z) : bool :=
  if f16_exp h =? 31 then (f16_mant h =? 0) || (h =? 0x7E00)
  else if f16_exp h =? 0 then f16_mant h =? 0
  else true.

(** Structural equality of two floating-point values. *)
Definition same_float (a b : spec_float) : bool :=
  match a, b with
  | S754_zero s, S754_zero s' => Bool.eqb s s'
  | S754_infinity s, S754_infinity s' => Bool.eqb s s'
  | S754_nan, S754_nan => true
  | S754_finite s m e, S754_finite s' m' e' =>
      Bool.eqb s s' && Pos.eqb m m' && Z.eqb e e'
  | _, _ => false
  end.

(** ** Image-mode packer ([tiff.worker.js], [packCanonicalRGBA]) *)

(** [rgba8[i]] read as a Number: past the end it is [undefined], NaN. *)
Definition byteNumber (rgba8 : list Z) (i : nat) : JS.number :=
  match rgba8 !! i with
  | Some b => JS.ofZ b
  | None => JS.NaN
  end.

(** [rgba8] is the content of the [Uint8ClampedArray] the renderer made.
    The RGBA8 branch wraps the same bytes in a [Uint8Array] view. *)
Definition packCanonicalRGBA (rgba8 : list Z) (width height : nat)
    (format : option Format.t) : TextureSet.t :=
  if preferRGBA8 format && negb (forceRGBA16F format) then
    {| TextureSet.width := width;
       TextureSet.height := height;
       TextureSet.mode := image;
       TextureSet.channelCount := 4;
       TextureSet.packs :=
         [ {| Pack.format := RGBA8;
              Pack.data := rgba8;
              Pack.channels := [0; 1; 2; 3];
              Pack.normalized := false;
              Pack.scale := [JS.ofZ 1; JS.ofZ 1; JS.ofZ 1; JS.ofZ 1];
              Pack.offset := [JS.ofZ 0; JS.ofZ 0; JS.ofZ 0; JS.ofZ 0] |} ] |}
  else
    let px := (width * height)%nat in
    {| TextureSet.width := width;
       TextureSet.height := height;
       TextureSet.mode := image;
       TextureSet.channelCount := 4;
       TextureSet.packs :=
         [ {| Pack.format := RGBA16F;
              Pack.data :=
                map (fun i => JS.toUint16 (f32ToF16Bits (byteNumber rgba8 i)))
                    (seq 0 (px * 4));
              Pack.channels := [0; 1; 2; 3];
              Pack.normalized := false;
              Pack.scale := [JS.ofZ 1; JS.ofZ 1; JS.ofZ 1; JS.ofZ 1];
              Pack.offset := [JS.ofZ 0; JS.ofZ 0; JS.ofZ 0; JS.ofZ 0] |} ] |}.

(** ** Packing without a worker (the RawTIFF plugin module,
    [__rt_tiffRasterToGpuTextureSet] when there is no pool) *)

(** [raster.bands[k] ? raster.bands[k][i] : dflt], stored into a
    [Uint8Array]. *)
Definition fallbackSlot (raster : Raster.t) (k : nat) (dflt : Z) (i : nat) : Z :=
  match Raster.bands raster !! k with
  | Some band =>
      JS.toUint8 (match Band.samples band !! i with
                  | Some v => v
                  | None => JS.NaN
                  end)
  | None => JS.toUint8 (JS.ofZ dflt)
  end.

(** The warning is logged once, then the first four bands are packed into
    one RGBA8 texture. *)
Definition tiffRasterToGpuTextureSet_noPool (raster : Raster.t) (st : Log.t)
  : TextureSet.t * Log.t :=
  let st := logStep st PackedWithoutWorker in
  let px := (Raster.width raster * Raster.height raster)%nat in
  ({| TextureSet.width := Raster.width raster;
      TextureSet.height := Raster.height raster;
      TextureSet.mode := data;
      TextureSet.channelCount := length (Raster.bands raster);
      TextureSet.packs :=
        [ {| Pack.format := RGBA8;
             Pack.data :=
               flat_map (fun i =>
                 [ fallbackSlot raster 0 0 i; fallbackSlot raster 1 0 i;
                   fallbackSlot raster 2 0 i; fallbackSlot raster 3 255 i ])
                 (seq 0 px);
             Pack.channels := [0; 1; 2; 3];
             Pack.normalized := false;
             Pack.scale := [JS.ofZ 1; JS.ofZ 1; JS.ofZ 1; JS.ofZ 1];
             Pack.offset := [JS.ofZ 0; JS.ofZ 0; JS.ofZ 0; JS.ofZ 0] |} ] |},
   st).

(** Four 8-bit bands, 1x2 pixels. *)
Definition raster4 : Raster.t :=
  {| Raster.width := 1; Raster.height := 2;
     Raster.bands := [bandOf Uint8Array [1; 2]; bandOf Uint8Array [3; 4];
                      bandOf Uint8Array [5; 6]; bandOf Uint8Array [7; 8]];
     Raster.samplesPerPixel := Some 4;
     Raster.bitsPerSample := Some [8];
     Raster.photometricInterpretation := None |}.

(** ** Colour-space converters ([Converters.js]): RGB and grey *)

(** The two call forms of [RGBAfromRGB]: one interleaved buffer, or planar
    bands with an optional alpha band ([None] for [null] or a missing
    argument). *)
Inductive RGBArgs :=
  | InterleavedRGB (input : list JS.number)
  | PlanarRGB (r g b : list JS.number) (a : option (list JS.number)).

Definition RGBAfromRGB (args : RGBArgs) : list Z :=
  match args with
  | InterleavedRGB input =>
      take (length input * 4 / 3)
        (flat_map (fun p =>
           [ JS.toUint8Clamp (Converters.read input (3 * p));
             JS.toUint8Clamp (Converters.read input (3 * p + 1));
             JS.toUint8Clamp (Converters.read input (3 * p + 2));
             255 ])
           (seq 0 ((length input + 2) / 3)))
  | PlanarRGB r g b a =>
      flat_map (fun i =>
        [ JS.toUint8Clamp (Converters.read r i);
          JS.toUint8Clamp (Converters.read g i);
          JS.toUint8Clamp (Converters.read b i);
          match a with
          | Some alpha => JS.toUint8Clamp (Converters.read alpha i)
          | None => 255
          end ])
        (seq 0 (length r))
  end.

(** [r, g, b, r, g, b, ...] from three planes of one length. *)
Fixpoint interleave3 (r g b : list JS.number) : list JS.number :=
  match r, g, b with
  | x :: r', y :: g', z :: b' => x :: y :: z :: interleave3 r' g' b'
  | _, _, _ => []
  end.

(** [value = (input[i] / max) * 256] *)
Definition blackValue (max v : JS.number) : Z :=
  JS.toUint8Clamp (JS.mul (JS.div v max) (JS.ofZ 256)).

(** [value = 256 - (input[i] / max) * 256] *)
Definition whiteValue (max v : JS.number) : Z :=
  JS.toUint8Clamp (JS.sub (JS.ofZ 256) (JS.mul (JS.div v max) (JS.ofZ 256))).

Definition RGBAfromBlackIsZero (input : list JS.number) (max : JS.number) : list Z :=
  flat_map (fun i =>
    let value := blackValue max (Converters.read input i) in
    [value; value; value; 255])
    (seq 0 (length input)).

Definition RGBAfromWhiteIsZero (input : list JS.number) (max : JS.number) : list Z :=
  flat_map (fun i =>
    let value := whiteValue max (Converters.read input i) in
    [value; value; value; 255])
    (seq 0 (length input)).

(** ** A request served by its worker *)

(** The messages a worker posts are delivered, in order, to the
    [onmessage] handler of its pool entry, at position [wi]. *)
Definition deliver {B : Type} (wi : nat) (posted : list (Posted B)) (st : Main B)
  : Main B :=
  fold_left (fun st msg => poolOnMessage B wi msg st) posted st.

(** ** TIFF structure check ([tiff-validate.js], [validateTIFFStructure]) *)

Module Validate.

Section Reader.

Local Open Scope result_scope.

(** The bytes of the buffer, as the [Uint8Array] view [u] holds them. *)
Variable u : list Z.

(** [u[o]] as the operand of a bit operation: past the end it is
    [undefined], which converts to 0. *)
Definition byteAt (o : Z) : Z :=
  match (if 0 <=? o then u !! Z.to_nat o else None) with
  | Some b => b
  | None => 0
  end.

(** [x >>> 0]: ToUint32. *)
Definition toUint32 (x : Z) : Z := x mod 2 ^ 32.

Definition readU16 (le : bool) (o : Z) : Z :=
  if le then JS.bor (byteAt o) (JS.shl (byteAt (o + 1)) 8)
  else JS.bor (JS.shl (byteAt o) 8) (byteAt (o + 1)).

Definition readU32 (le : bool) (o : Z) : Z :=
  if le then
    toUint32 (JS.bor (JS.bor (JS.bor (byteAt o) (JS.shl (byteAt (o + 1)) 8))
                             (JS.shl (byteAt (o + 2)) 16))
                     (JS.shl (byteAt (o + 3)) 24))
  else
    toUint32 (JS.bor (JS.bor (JS.bor (JS.shl (byteAt o) 24) (JS.shl (byteAt (o + 1)) 16))
                             (JS.shl (byteAt (o + 2)) 8))
                     (byteAt (o + 3))).

(** [for (let i = 0; i < n; i++) { ... }] from entry [i], with [left]
    entries still to scan. *)
Fixpoint scanEntries (le : bool) (entriesStart : Z) (left : nat) (i : Z) : result unit :=
  match left with
  | O => ret tt
  | S left' =>
      let p := entriesStart + i * 12 in
      let type := readU16 le (p + 2) in
      if (type <? 1) || (12 <? type) then
        throw (ErrorObject ("Invalid TIFF field type: " +:+ pretty type))
      else scanEntries le entriesStart left' (i + 1)
  end.

Definition validateTIFFStructure : result unit :=
  if (length u <? 16)%nat then throw (ErrorObject "Too small to be TIFF")
  else
    let isII := (byteAt 0 =? 0x49) && (byteAt 1 =? 0x49) in
    let isMM := (byteAt 0 =? 0x4D) && (byteAt 1 =? 0x4D) in
    if negb isII && negb isMM then
      throw (ErrorObject "Missing TIFF byte order mark (II/MM)")
    else
      let le := isII in
      let magic := readU16 le 2 in
      if negb (magic =? 42) then
        throw (ErrorObject ("Bad TIFF magic: " +:+ pretty magic))
      else
        let ifd0 := readU32 le 4 in
        if Z.of_nat (length u) <=? ifd0 then
          throw (ErrorObject "IFD0 offset out of bounds")
        else if negb (ifd0 mod 2 =? 0) then
          throw (ErrorObject "IFD0 offset must be 2-byte aligned")
        else
          let n := readU16 le ifd0 in
          if 128 <? n then
            throw (ErrorObject ("Suspiciously large IFD entry count: " +:+ pretty n))
          else
            let entriesStart := ifd0 + 2 in
            let entriesBytes := n * 12 in
            let nextIfdPos := entriesStart + entriesBytes in
            if Z.of_nat (length u) <? nextIfdPos + 4 then
              throw (ErrorObject "IFD entries run out of bounds")
            else scanEntries le entriesStart (Z.to_nat n) 0.

(** The numbers the header fields denote, in the file's byte order. *)
Definition num16 (le : bool) (o : Z) : Z :=
  if le then byteAt o + 2 ^ 8 * byteAt (o + 1)
  else 2 ^ 8 * byteAt o + byteAt (o + 1).

Definition num32 (le : bool) (o : Z) : Z :=
  if le then
    byteAt o + 2 ^ 8 * byteAt (o + 1) + 2 ^ 16 * byteAt (o + 2) + 2 ^ 24 * byteAt (o + 3)
  else
    2 ^ 24 * byteAt o + 2 ^ 16 * byteAt (o + 1) + 2 ^ 8 * byteAt (o + 2) + byteAt (o + 3).

(** A buffer that starts with a well-formed TIFF header and first image
    file directory: byte order mark, magic number 42, an even IFD offset
    inside the buffer, at most 128 entries that fit in the buffer together
    with the next-IFD pointer, and a field type in 1..12 in every entry. *)
Definition wellFormed : Prop :=
  (16 <= length u)%nat /\
  exists le : bool,
    byteAt 0 = (if le then 0x49 else 0x4D) /\
    byteAt 1 = (if le then 0x49 else 0x4D) /\
    num16 le 2 = 42 /\
    let ifd0 := num32 le 4 in
    ifd0 < Z.of_nat (length u) /\
    ifd0 mod 2 = 0 /\
    let n := num16 le ifd0 in
    n <= 128 /\
    ifd0 + 2 + 12 * n + 4 <= Z.of_nat (length u) /\
    forall i, 0 <= i < n -> 1 <= num16 le (ifd0 + 2 + 12 * i + 2) <= 12.

End Reader.

(** Every element of a [Uint8Array] is a byte. *)
Definition isBytes (u : list Z) : bool :=
  forallb (fun b => (0 <=? b) && (b <? 256)) u.

(** A little-endian header with one directory entry of type SHORT. *)
Definition sample : list Z :=
  [0x49; 0x49; 42; 0; 8; 0; 0; 0;
   1; 0;
   0; 1; 3; 0; 1; 0; 0; 0; 16; 0; 0; 0;
   0; 0; 0; 0].

End Validate.

(** ** Colour-space converters ([Converters.js]): CMYK *)

(** The two call forms of [RGBAfromCMYK]. *)
Inductive CMYKArgs :=
  | InterleavedCMYK (input : list JS.number)
  | PlanarCMYK (c m y k : list JS.number).

(** [255 * ((255 - c) / 256) * ((255 - k) / 256)], stored with byte
    clamping. *)
Definition cmykValue (c k : JS.number) : Z :=
  JS.toUint8Clamp
    (JS.mul (JS.mul (JS.ofZ 255) (JS.div (JS.sub (JS.ofZ 255) c) (JS.ofZ 256)))
            (JS.div (JS.sub (JS.ofZ 255) k) (JS.ofZ 256))).

Definition RGBAfromCMYK (args : CMYKArgs) : list Z :=
  match args with
  | InterleavedCMYK input =>
      (* new Uint8ClampedArray(input.length): writes past the end are
         dropped. *)
      take (length input)
        (flat_map (fun p =>
           let c := Converters.read input (4 * p) in
           let m := Converters.read input (4 * p + 1) in
           let y := Converters.read input (4 * p + 2) in
           let k := Converters.read input (4 * p + 3) in
           [cmykValue c k; cmykValue m k; cmykValue y k; 255])
           (seq 0 ((length input + 3) / 4)))
  | PlanarCMYK c m y k =>
      flat_map (fun i =>
        let cc := Converters.read c i in
        let mm := Converters.read m i in
        let yy := Converters.read y i in
        let kk := Converters.read k i in
        [cmykValue cc kk; cmykValue mm kk; cmykValue yy kk; 255])
        (seq 0 (length c))
  end.

(** [c, m, y, k, c, m, y, k, ...] from four planes of one length. *)
Fixpoint interleave4 (c m y k : list JS.number) : list JS.number :=
  match c, m, y, k with
  | x :: c', x' :: m', x'' :: y', x''' :: k' =>
      x :: x' :: x'' :: x''' :: interleave4 c' m' y' k'
  | _, _, _, _ => []
  end.

(** ** Colour-space converters ([Converters.js]): palette *)

(** [a[x]] for a Number [x]: an element only when [x] is a non-negative
    integer below the length, else [undefined], NaN in arithmetic. *)
Definition readAt (a : list JS.number) (x : JS.number) : JS.number :=
  match x with
  | S754_zero _ => Converters.read a 0
  | S754_finite false _ _ =>
      if SFeqb (JS.ofZ (JS.truncZ x)) x
      then Converters.read a (Z.to_nat (JS.truncZ x))
      else JS.NaN
  | _ => JS.NaN
  end.

(** [(colorMap[index] / 65536) * 256], stored with byte clamping. *)
Definition paletteValue (colorMap : list JS.number) (index : JS.number) : Z :=
  JS.toUint8Clamp (JS.mul (JS.div (readAt colorMap index) (JS.ofZ 65536)) (JS.ofZ 256)).

Definition RGBAfromPalette (input colorMap : list JS.number) : list Z :=
  let len := JS.ofZ (Z.of_nat (length colorMap)) in
  let greenOffset := JS.div len (JS.ofZ 3) in
  let blueOffset := JS.mul (JS.div len (JS.ofZ 3)) (JS.ofZ 2) in
  flat_map (fun i =>
    let mapIndex := Converters.read input i in
    [ paletteValue colorMap mapIndex;
      paletteValue colorMap (JS.add mapIndex greenOffset);
      paletteValue colorMap (JS.add mapIndex blueOffset);
      255 ])
    (seq 0 (length input)).

(** ** Image-mode renderer ([tiff.worker.js], [rasterToRGBA8_ImageMode]) *)

(** The TypeError raised by reading a property of [undefined]. *)
Definition undefinedRead (prop : string) : exn :=
  ErrorObject ("Cannot read properties of undefined (reading '" +:+ prop +:+ "')").

(** [tmp[x] || dflt] on a byte buffer: a missing element and 0 are falsy. *)
Definition byteOr (tmp : list Z) (x : nat) (dflt : Z) : Z :=
  match tmp !! x with
  | Some 0 | None => dflt
  | Some v => v
  end.

Section ImageMode.

Local Open Scope result_scope.

(** [Converters.RGBAfromCIELab], which uses [Math.pow]: taken as given, in
    its two call forms. *)
Variable RGBAfromCIELab : Converters.YCbCrArgs -> list Z.

(** [raster.colorMap], and [format.image.rgbaChannels] when it is an
    array: the two inputs that the raster and format records leave out. *)
Variable colorMap : option (list JS.number).
Variable rgbaChannels : option (list (option Z)).

Variable raster : Raster.t.
Variable hints : Hints.t.

(** Channel override precedence:
    [format.image.rgbaChannels > hints.renderChannels > default]. *)
Definition requestedChannels : option (list (option Z)) :=
  match rgbaChannels with
  | Some l => Some l
  | None =>
      match Hints.renderChannels hints with
      | Some l => Some (map Some l)
      | None => None
      end
  end.

Definition extraChannelsWarning (n : nat) : Warn.t :=
  {| Warn.code := "renderChannels>4_to_RGBA_worker";
     Warn.message :=
       "[tiff-worker] Requested " +:+ pretty n +:+
       " channels for RGBA output; only 4 can be represented. Extra channels will be dropped." |}.

(** [raster.bands[bi]], as the samples of the band; [None] is [undefined]. *)
Definition bandSamples (bi : option Z) : option (list JS.number) :=
  match bi with
  | Some z => option_map Band.samples (bandAt raster z)
  | None => None
  end.

(** [raster.bitsPerSample && raster.bitsPerSample[bi] != null
      ? raster.bitsPerSample[bi] : 8] *)
Definition bitsAt (bi : option Z) : Z :=
  match Raster.bitsPerSample raster, bi with
  | Some bps, Some z =>
      match (if 0 <=? z then bps !! Z.to_nat z else None) with
      | Some b => b
      | None => 8
      end
  | _, _ => 8
  end.

(** [Math.pow(2, bits) - 1] *)
Definition maxOfBits (bits : Z) : JS.number := JS.sub (JS.pow2 bits) (JS.ofZ 1).

(** A grey conversion of one band; the converter reads [input.length]
    first. *)
Definition grey (white : bool) (band : option (list JS.number)) (max : JS.number)
  : result (list Z) :=
  match band with
  | None => throw (undefinedRead "length")
  | Some input =>
      ret (if white then RGBAfromWhiteIsZero input max
           else RGBAfromBlackIsZero input max)
  end.

(** The interleaved byte buffer [tmp] built from the channel mapping. *)
Definition tmpBytes (channels : list (option Z)) : list Z :=
  flat_map (fun i =>
    map (fun bi =>
      JS.toUint8Clamp
        match bi with
        | Some z => if inBands raster z then sampleAt raster z i else JS.ofZ 0
        | None => JS.ofZ 0
        end) channels)
    (seq 0 (pixelCount raster)).

(** The last resort of the channel mapping: "force into RGBA". *)
Definition forcedRGBA (tmp : list Z) (len : nat) : list Z :=
  flat_map (fun i =>
    let base := (i * len)%nat in
    [ byteOr tmp base 0; byteOr tmp (base + 1) 0; byteOr tmp (base + 2) 0;
      if (4 <=? len)%nat then byteOr tmp (base + 3) 255 else 255 ])
    (seq 0 (pixelCount raster)).

(** A planar converter called with bands of which all but the first may
    be [undefined]: the length of the first band is read before the loop,
    the other bands are read in the loop. *)
Definition planar {A : Type} (first : option (list JS.number))
    (others : option A) (convert : list JS.number -> A -> list Z) : result (list Z) :=
  match first with
  | None => throw (undefinedRead "length")
  | Some b0 =>
      match others with
      | Some bs => ret (convert b0 bs)
      | None => if (length b0 =? 0)%nat then ret [] else throw (undefinedRead "0")
      end
  end.

(** [raster.bands[k]] for a literal index [k]. *)
Definition bandN (k : Z) : option (list JS.number) := bandSamples (Some k).

Definition rasterToRGBA8_ImageMode : list Warn.t * result (list Z) :=
  let spp := sppOf raster in
  let photometric := Raster.photometricInterpretation raster in
  let requested := requestedChannels in
  let warns :=
    match requested with
    | Some l => if (4 <? length l)%nat then [extraChannelsWarning (length l)] else []
    | None => []
    end in
  (* channels.splice(4) *)
  let channels := option_map (take 4) requested in
  let isYCbCr := tagIs photometric PI.YCbCr in
  let isCMYK := tagIs photometric PI.CMYK in
  let isCIELab := tagIs photometric PI.CIELab in
  let greyMax := maxOfBits (bitsAt (Some 0)) in
  (warns,
   match (if tagIs photometric PI.Palette then colorMap else None) with
   | Some cm =>
       match bandN 0 with
       | None => throw (undefinedRead "length")
       | Some indices => ret (RGBAfromPalette indices cm)
       end
   | None =>
       if (tagIs photometric PI.WhiteIsZero || tagIs photometric PI.BlackIsZero)
          && (1 <=? spp)
       then grey (tagIs photometric PI.WhiteIsZero) (bandN 0) greyMax
       else
         match channels with
         | Some [c0] => grey false (bandSamples c0) (maxOfBits (bitsAt c0))
         | Some (c0 :: c1 :: cs) =>
             let chs := c0 :: c1 :: cs in
             let len := length chs in
             let tmp := tmpBytes chs in
             if (len =? 4)%nat && negb isYCbCr && negb isCMYK && negb isCIELab
             then ret tmp
             else if isYCbCr && (3 <=? len)%nat
             then ret (Converters.RGBAfromYCbCr (Converters.Interleaved (map JS.ofZ tmp)))
             else if isCMYK && (4 <=? len)%nat
             then ret (RGBAfromCMYK (InterleavedCMYK (map JS.ofZ tmp)))
             else if isCIELab && (3 <=? len)%nat
             then ret (RGBAfromCIELab (Converters.Interleaved (map JS.ofZ tmp)))
             else if (len =? 3)%nat
             then ret (RGBAfromRGB (InterleavedRGB (map JS.ofZ tmp)))
             else ret (forcedRGBA tmp len)
         | _ =>
             if tagIs photometric PI.RGB && (3 <=? spp) then
               planar (bandN 0)
                 (match bandN 1, bandN 2 with
                  | Some g, Some b => Some (g, b)
                  | _, _ => None
                  end)
                 (fun r '(g, b) =>
                    RGBAfromRGB (PlanarRGB r g b (if 4 <=? spp then bandN 3 else None)))
             else if isYCbCr && (3 <=? spp) then
               planar (bandN 0)
                 (match bandN 1, bandN 2 with
                  | Some cb, Some cr => Some (cb, cr)
                  | _, _ => None
                  end)
                 (fun y '(cb, cr) =>
                    Converters.RGBAfromYCbCr (Converters.Planar y cb cr))
             else if isCMYK && (4 <=? spp) then
               planar (bandN 0)
                 (match bandN 1, bandN 2, bandN 3 with
                  | Some m, Some y, Some k => Some (m, y, k)
                  | _, _, _ => None
                  end)
                 (fun c '(m, y, k) => RGBAfromCMYK (PlanarCMYK c m y k))
             else if isCIELab && (3 <=? spp) then
               planar (bandN 0)
                 (match bandN 1, bandN 2 with
                  | Some a, Some b => Some (a, b)
                  | _, _ => None
                  end)
                 (fun l '(a, b) => RGBAfromCIELab (Converters.Planar l a b))
             else grey false (bandN 0) greyMax
         end
   end).

(** The image branch of [rasterPayloadToTextureSet]: render, then
    [packCanonicalRGBA]; the warnings of the renderer are posted also when
    it throws. *)
Definition imageBranch : list Warn.t * result TextureSet.t :=
  let '(warns, rendered) := rasterToRGBA8_ImageMode in
  (warns,
   let* rgba := rendered in
   ret (packCanonicalRGBA rgba (Raster.width raster) (Raster.height raster)
          (resolveFormatFromHints hints))).

End ImageMode.


(** A stand-in for the CIELab converter. *)
Definition noCIELab (args : Converters.YCbCrArgs) : list Z := [].

(** A photometric tag that selects no converter of its own: not Palette,
    grey, YCbCr, CMYK or CIELab (RGB, another value, or no tag). *)
Definition plainTag (pi : option Z) : bool :=
  negb (tagIs pi PI.Palette) && negb (tagIs pi PI.WhiteIsZero) &&
  negb (tagIs pi PI.BlackIsZero) && negb (tagIs pi PI.YCbCr) &&
  negb (tagIs pi PI.CMYK) && negb (tagIs pi PI.CIELab).

(** [hints.renderChannels = [2, 1, 0, 3, 4, 5]] on the six-band raster. *)
Definition hintsSixChannels : Hints.t :=
  {| Hints.imageIndex := None;
     Hints.decode := None;
     Hints.renderChannels := Some [2; 1; 0; 3; 4; 5];
     Hints.formatResolved := None;
     Hints.format := None |}.

(** A grey image that declares one sample per pixel and holds no band. *)
Definition rasterNoBands : Raster.t :=
  {| Raster.width := 1; Raster.height := 1;
     Raster.bands := [];
     Raster.samplesPerPixel := Some 1;
     Raster.bitsPerSample := Some [8];
     Raster.photometricInterpretation := Some PI.BlackIsZero |}.
(** * Properties *)

Example f16_one : f32ToF16Bits (JS.ofZ 1) = 0x3C00.
Proof. vm_compute. reflexivity. Qed.
Example f16_65504 : f32ToF16Bits (JS.ofZ 65504) = 0x7BFF.
Proof. vm_compute. reflexivity. Qed.
Example f16_65505 : f32ToF16Bits (JS.ofZ 65505) = 0x7BFF.
Proof. vm_compute. reflexivity. Qed.
Example f16_65520 : f32ToF16Bits (JS.ofZ 65520) = 0x7C00.
Proof. vm_compute. reflexivity. Qed.
Example f16_m2 : f32ToF16Bits (JS.ofZ (-2)) = 0xC000.
Proof. vm_compute. reflexivity. Qed.
Example f16_4095 : f32ToF16Bits (JS.ofZ 4095) = 0x6C00.
Proof. vm_compute. reflexivity. Qed.
Example f16_nan : f32ToF16Bits JS.NaN = 0x7E00.
Proof. vm_compute. reflexivity. Qed.
Example lit_half : JS.lit 5 10 = S754_finite false 4503599627370496 (-53).
Proof. vm_compute. reflexivity. Qed.

(** ** Arithmetic of the bit operators *)

(** Replace the closed powers of two of a goal by their numerals, so that
    [lia] sees linear arithmetic. *)
Ltac zpow :=
  repeat match goal with
  | |- context [2 ^ Zpos ?p] =>
      let v := eval vm_compute in (2 ^ Zpos p) in
      change (2 ^ Zpos p) with v
  | H : context [2 ^ Zpos ?p] |- _ =>
      let v := eval vm_compute in (2 ^ Zpos p) in
      change (2 ^ Zpos p) with v in H
  end.

Section BitLemmas.

Lemma toInt32_small a : - 2 ^ 31 <= a < 2 ^ 31 -> JS.toInt32 a = a.
Proof.
  intros Ha. unfold JS.toInt32.
  rewrite Z.mod_small; lia.
Qed.

Lemma toInt32_uint32 x :
  0 <= x < 2 ^ 32 ->
  JS.toInt32 x = if x <? 2 ^ 31 then x else x - 2 ^ 32.
Proof.
  intros Hx. unfold JS.toInt32.
  destruct (Z.ltb_spec x (2 ^ 31)); Z.div_mod_to_equations; lia.
Qed.

Lemma band_mask a k :
  0 <= k < 31 -> JS.band a (2 ^ k - 1) = JS.toInt32 a mod 2 ^ k.
Proof.
  intros Hk. unfold JS.band.
  assert (Hp : 0 < 2 ^ k <= 2 ^ 30).
  { split; [apply Z.pow_pos_nonneg; lia | apply Z.pow_le_mono_r; lia]. }
  rewrite (toInt32_small (2 ^ k - 1)) by lia.
  replace (2 ^ k - 1) with (Z.ones k) by (rewrite Z.ones_equiv; lia).
  apply Z.land_ones. lia.
Qed.

Lemma land_bit a k :
  0 <= k -> 0 <= a < 2 ^ (k + 1) ->
  Z.land a (2 ^ k) = if a <? 2 ^ k then 0 else 2 ^ k.
Proof.
  intros Hk Ha.
  assert (Hp : 0 < 2 ^ k) by (apply Z.pow_pos_nonneg; lia).
  assert (Hbit : Z.testbit a k = negb (a <? 2 ^ k)).
  { rewrite Z.testbit_eqb by lia.
    rewrite Z.pow_add_r, Z.pow_1_r in Ha by lia.
    destruct (Z.ltb_spec a (2 ^ k)); cbn [negb].
    - rewrite Z.div_small by lia. reflexivity.
    - assert (Hq : a / 2 ^ k = 1) by (Z.div_mod_to_equations; nia).
      rewrite Hq. reflexivity. }
  apply Z.bits_inj'. intros n Hn.
  rewrite Z.land_spec, Z.pow2_bits_eqb by lia.
  destruct (Z.eqb_spec k n) as [->|Hne].
  - rewrite andb_true_r, Hbit.
    destruct (a <? 2 ^ n); cbn [negb].
    + symmetry. apply Z.bits_0.
    + symmetry. rewrite Z.pow2_bits_eqb by lia. apply Z.eqb_refl.
  - rewrite andb_false_r.
    destruct (a <? 2 ^ k); [symmetry; apply Z.bits_0|].
    rewrite Z.pow2_bits_eqb by lia. symmetry. apply Z.eqb_neq. exact Hne.
Qed.

(** The three fields of a binary32 pattern, as the codec extracts them. *)
Lemma fields_of_bits (s : bool) (E M : Z) :
  0 <= E < 256 -> 0 <= M < 2 ^ 23 ->
  let x := (if s then 2 ^ 31 else 0) + (E * 2 ^ 23 + M) in
  JS.band (JS.sar x 31) 0x1 = (if s then 1 else 0) /\
  JS.band (JS.sar x 23) 0xFF = E /\
  JS.band x 0x7FFFFF = M.
Proof.
  intros HE HM x.
  assert (Hx : 0 <= x < 2 ^ 32) by (subst x; destruct s; zpow; lia).
  change 0x1 with (2 ^ 1 - 1). change 0xFF with (2 ^ 8 - 1).
  change 0x7FFFFF with (2 ^ 23 - 1).
  rewrite !band_mask by lia. unfold JS.sar.
  rewrite (toInt32_uint32 x Hx), !Z.shiftr_div_pow2 by lia.
  assert (Hr : forall n, 0 <= n <= 31 ->
     - 2 ^ 31 <= (if x <? 2 ^ 31 then x else x - 2 ^ 32) / 2 ^ n < 2 ^ 31).
  { intros n Hn.
    assert (0 < 2 ^ n) by (apply Z.pow_pos_nonneg; lia).
    destruct (Z.ltb_spec x (2 ^ 31)); zpow; split.
    - transitivity 0; [lia | apply Z.div_pos; lia].
    - apply Z.div_lt_upper_bound; nia.
    - apply Z.div_le_lower_bound; nia.
    - apply Z.div_lt_upper_bound; nia. }
  rewrite !toInt32_small by (apply Hr; lia).
  subst x. destruct s.
  - replace (_ <? _) with false by (symmetry; apply Z.ltb_ge; zpow; lia).
    zpow. repeat split; Z.div_mod_to_equations; lia.
  - replace (_ <? _) with true by (symmetry; apply Z.ltb_lt; zpow; lia).
    zpow. repeat split; Z.div_mod_to_equations; lia.
Qed.

End BitLemmas.

(** ** Canonical binary32 values *)

Section Float32.

Lemma digits2_pos_bounds (m : positive) :
  2 ^ (Z.pos (digits2_pos m) - 1) <= Z.pos m < 2 ^ Z.pos (digits2_pos m).
Proof.
  induction m as [m IH|m IH|]; cbn [digits2_pos].
  - rewrite Pos2Z.inj_succ.
    replace (Z.succ (Z.pos (digits2_pos m)) - 1) with (Z.succ (Z.pos (digits2_pos m) - 1)) by lia.
    rewrite !Z.pow_succ_r by lia. lia.
  - rewrite Pos2Z.inj_succ.
    replace (Z.succ (Z.pos (digits2_pos m)) - 1) with (Z.succ (Z.pos (digits2_pos m) - 1)) by lia.
    rewrite !Z.pow_succ_r by lia. lia.
  - cbn. lia.
Qed.

(** A finite canonical binary32 value is normal (24 significant bits,
    biased exponent 1..254) or subnormal (exponent -149). *)
Lemma float32_shape (m : positive) (e : Z) :
  bounded JS.prec32 JS.emax32 m e = true ->
  (2 ^ 23 <= Z.pos m < 2 ^ 24 /\ -149 <= e <= 104) \/
  (Z.pos m < 2 ^ 23 /\ e = -149).
Proof.
  unfold bounded, canonical_mantissa, fexp, emin, JS.prec32, JS.emax32.
  intros H. apply andb_prop in H as [Hc He].
  apply Z.eqb_eq in Hc. apply Z.leb_le in He.
  pose proof (digits2_pos_bounds m) as Hd.
  set (d := Z.pos (digits2_pos m)) in *.
  destruct (Z.eq_dec d 24) as [Hd24|Hd24].
  - left. rewrite Hd24 in Hd. change (24 - 1) with 23 in Hd. lia.
  - right.
    assert (Hd' : d < 24) by lia.
    assert (He' : e = -149) by lia.
    split; [|exact He'].
    apply Z.lt_le_trans with (2 ^ d); [lia|].
    apply Z.pow_le_mono_r; lia.
Qed.

(** Storing a binary32 value into a [Float32Array] leaves it unchanged. *)
Lemma fround_float32 (v : spec_float) :
  is_float32 v = true -> JS.fround v = v.
Proof.
  destruct v as [s|s| |s m e]; try reflexivity.
  unfold is_float32, valid_binary, bounded, canonical_mantissa.
  intros H. apply andb_prop in H as [Hc He]. apply Z.eqb_eq in Hc.
  unfold JS.fround, binary_round, shl_align.
  rewrite Hc, Z.sub_diag.
  unfold binary_round_aux, shr_fexp. cbn [Zdigits2 shr_record_of_loc].
  rewrite Hc, Z.sub_diag. cbn [shr shr_m loc_of_shr_record round_nearest_even].
  cbn [Zdigits2 shr_record_of_loc]. rewrite Hc, Z.sub_diag.
  cbn [shr shr_m]. rewrite He. reflexivity.
Qed.

End Float32.

(** ** Saturation and flushing: proofs *)

Section Codec.

Lemma SFcompare_finite_pos (m1 m2 : positive) (e1 e2 : Z) :
  SFcompare (S754_finite false m1 e1) (S754_finite false m2 e2) =
  Some match e1 ?= e2 with
       | Lt => Lt
       | Gt => Gt
       | Eq => Z.pos m1 ?= Z.pos m2
       end.
Proof. reflexivity. Qed.

Lemma SFleb_finite_pos m1 e1 m2 e2 :
  SFleb (S754_finite false m1 e1) (S754_finite false m2 e2) = true ->
  e1 < e2 \/ (e1 = e2 /\ Z.pos m1 <= Z.pos m2).
Proof.
  unfold SFleb. rewrite SFcompare_finite_pos.
  destruct (Z.compare_spec e1 e2); [|left; lia|discriminate].
  destruct (Z.compare_spec (Z.pos m1) (Z.pos m2)); try discriminate;
    intros _; right; lia.
Qed.

Lemma SFltb_finite_pos m1 e1 m2 e2 :
  SFltb (S754_finite false m1 e1) (S754_finite false m2 e2) = true ->
  e1 < e2 \/ (e1 = e2 /\ Z.pos m1 < Z.pos m2).
Proof.
  unfold SFltb. rewrite SFcompare_finite_pos.
  destruct (Z.compare_spec e1 e2); [|left; lia|discriminate].
  destruct (Z.compare_spec (Z.pos m1) (Z.pos m2)); try discriminate;
    intros _; right; lia.
Qed.

(** The bit pattern of a finite non-zero binary32 value, by fields. *)
Lemma float32_bits_fields (s : bool) (m : positive) (e : Z) :
  bounded JS.prec32 JS.emax32 m e = true ->
  exists E M,
    JS.float32_bits (S754_finite s m e) =
      (if s then 2 ^ 31 else 0) + (E * 2 ^ 23 + M) /\
    0 <= E < 255 /\ 0 <= M < 2 ^ 23 /\
    ((E = e + 150 /\ 1 <= E /\ Z.pos m = 2 ^ 23 + M) \/
     (E = 0 /\ e = -149 /\ Z.pos m = M)).
Proof.
  intros Hb. destruct (float32_shape m e Hb) as [[Hm He]|[Hm He]].
  - exists (e + 150), (Z.pos m - 2 ^ 23). cbn [JS.float32_bits].
    replace (Z.pos m <? 2 ^ 23) with false by (symmetry; apply Z.ltb_ge; lia).
    zpow. repeat split; lia.
  - exists 0, (Z.pos m). cbn [JS.float32_bits].
    replace (Z.pos m <? 2 ^ 23) with true by (symmetry; apply Z.ltb_lt; lia).
    zpow. repeat split; lia.
Qed.

(** The codec on a finite non-zero binary32 input, with the three fields
    read off its pattern. *)
Ltac codec_fields s m e Hb :=
  destruct (float32_bits_fields s m e Hb) as (E & M & Hbits & HE & HM & Hshape);
  unfold f32ToF16Bits; cbv zeta;
  rewrite fround_float32 by exact Hb;
  rewrite Hbits;
  destruct (fields_of_bits s E M ltac:(lia) HM) as (-> & -> & ->).

Lemma codec_infinity (s : bool) (m : positive) (e : Z) :
  bounded JS.prec32 JS.emax32 m e = true ->
  -8 < e \/ (e = -8 /\ 16773120 <= Z.pos m) ->
  f32ToF16Bits (S754_finite s m e) = f16_infinity s.
Proof.
  intros Hb Hmag. codec_fields s m e Hb.
  destruct Hshape as [(-> & HE1 & Hm)|(-> & He & Hm)]; [|lia].
  destruct (Z.eqb_spec (e + 150) 0xFF); [lia|].
  destruct (Z.eqb_spec (e + 150) 0); [lia|].
  destruct (Z.leb_spec 0x1F (e + 150 - 127 + 15)).
  { destruct s; reflexivity. }
  destruct (Z.leb_spec (e + 150 - 127 + 15) 0); [lia|].
  assert (He : e = -8) by lia. subst e.
  unfold JS.band at 1.
  rewrite !toInt32_small by (zpow; lia).
  change 0x00800000 with (2 ^ 23).
  rewrite land_bit by (zpow; lia).
  replace (M + 0x00001000 <? 2 ^ 23) with false
    by (symmetry; apply Z.ltb_ge; zpow; lia).
  destruct s; reflexivity.
Qed.

Lemma codec_max_finite (s : bool) (m : positive) :
  bounded JS.prec32 JS.emax32 m (-8) = true ->
  16769024 < Z.pos m < 16773120 ->
  f32ToF16Bits (S754_finite s m (-8)) = f16_max_pattern s.
Proof.
  intros Hb Hmag. codec_fields s m (-8) Hb.
  destruct Hshape as [(-> & HE1 & Hm)|(-> & He & Hm)]; [|lia].
  cbn [Z.add Z.opp Z.eqb Z.leb Z.compare Z.sub Z.pos_sub Pos.compare
       Pos.compare_cont negb Z.succ_double Z.pred_double Z.double Pos.pred_double].
  unfold JS.band at 1.
  rewrite !toInt32_small by (zpow; lia).
  change 0x00800000 with (2 ^ 23).
  rewrite land_bit by (zpow; lia).
  replace (M + 0x00001000 <? 2 ^ 23) with true
    by (symmetry; apply Z.ltb_lt; zpow; lia).
  cbn [Z.eqb negb].
  assert (Hsar : JS.sar (M + 0x00001000) 13 = 0x3FF).
  { unfold JS.sar. rewrite toInt32_small by (zpow; lia).
    rewrite Z.shiftr_div_pow2 by lia. zpow.
    Z.div_mod_to_equations. lia. }
  rewrite Hsar. destruct s; reflexivity.
Qed.

Lemma codec_flush (s : bool) (m : positive) (e : Z) :
  bounded JS.prec32 JS.emax32 m e = true ->
  e < -37 ->
  f32ToF16Bits (S754_finite s m e) = f16_zero s.
Proof.
  intros Hb Hmag. codec_fields s m e Hb.
  destruct Hshape as [(-> & HE1 & Hm)|(-> & He & Hm)].
  - destruct (Z.eqb_spec (e + 150) 0xFF); [lia|].
    destruct (Z.eqb_spec (e + 150) 0); [lia|].
    destruct (Z.leb_spec 0x1F (e + 150 - 127 + 15)); [lia|].
    destruct (Z.leb_spec (e + 150 - 127 + 15) 0); [|lia].
    destruct s; reflexivity.
  - destruct s; reflexivity.
Qed.

Lemma lor_below (a b n : Z) :
  0 <= n -> 0 <= a < 2 ^ n -> 0 <= b < 2 ^ n -> 0 <= Z.lor a b < 2 ^ n.
Proof.
  intros Hn Ha Hb.
  assert (Hnn : 0 <= Z.lor a b) by (apply Z.lor_nonneg; lia).
  split; [exact Hnn|].
  destruct (Z.eq_dec (Z.lor a b) 0) as [->|Hne].
  - apply Z.pow_pos_nonneg; lia.
  - apply Z.log2_lt_pow2; [lia|].
    rewrite Z.log2_lor by lia.
    apply Z.max_lub_lt.
    + destruct (Z.eq_dec a 0) as [->|Ha0].
      * cbn. destruct (Z.eq_dec n 0) as [->|]; [|lia].
        exfalso. cbn in Hb. assert (b = 0) by lia. subst b. apply Hne. reflexivity.
      * apply Z.log2_lt_pow2; lia.
    + destruct (Z.eq_dec b 0) as [->|Hb0].
      * cbn. destruct (Z.eq_dec n 0) as [->|]; [|lia].
        exfalso. cbn in Ha. assert (a = 0) by lia. subst a. apply Hne. reflexivity.
      * apply Z.log2_lt_pow2; lia.
Qed.

Lemma bor_below (a b : Z) :
  0 <= a < 2 ^ 16 -> 0 <= b < 2 ^ 16 -> 0 <= JS.bor a b < 2 ^ 16.
Proof.
  intros Ha Hb. unfold JS.bor.
  rewrite !toInt32_small by (zpow; lia).
  apply lor_below; lia.
Qed.

Lemma band_mask_range (a k : Z) :
  0 <= k < 31 -> 0 <= JS.band a (2 ^ k - 1) < 2 ^ k.
Proof.
  intros Hk. rewrite band_mask by exact Hk.
  apply Z.mod_pos_bound. apply Z.pow_pos_nonneg; lia.
Qed.

(** Every result of the codec is a 16-bit pattern, so storing it into a
    [Uint16Array] keeps it. *)
Lemma f32ToF16Bits_range (val : JS.number) : 0 <= f32ToF16Bits val < 2 ^ 16.
Proof.
  set (P := fun r : Z => 0 <= r < 2 ^ 16).
  change (P (f32ToF16Bits val)).
  assert (Hbor : forall a b, P a -> P b -> P (JS.bor a b)) by (apply bor_below).
  unfold f32ToF16Bits. cbv zeta.
  set (x := JS.float32_bits (JS.fround val)).
  pose proof (band_mask_range (JS.sar x 31) 1 ltac:(lia)) as Hsign.
  pose proof (band_mask_range (JS.sar x 23) 8 ltac:(lia)) as Hexp.
  pose proof (band_mask_range x 23 ltac:(lia)) as Hmant.
  change (2 ^ 1 - 1) with 0x1 in Hsign.
  change (2 ^ 8 - 1) with 0xFF in Hexp.
  change (2 ^ 23 - 1) with 0x7FFFFF in Hmant.
  set (sign := JS.band (JS.sar x 31) 0x1) in *.
  set (exp := JS.band (JS.sar x 23) 0xFF) in *.
  set (mant := JS.band x 0x7FFFFF) in *.
  clearbody sign exp mant. clear x.
  assert (Hshl : P (JS.shl sign 15)).
  { assert (Hs : sign = 0 \/ sign = 1) by (zpow; lia).
    destruct Hs as [-> | ->]; vm_compute; split; congruence. }
  assert (Hexpshl : forall e, 0 < e < 0x1F -> P (JS.shl e 10)).
  { intros e He. unfold P, JS.shl.
    rewrite (toInt32_small e) by (zpow; lia).
    rewrite Z.shiftl_mul_pow2 by lia.
    rewrite toInt32_small by (zpow; lia). zpow. lia. }
  assert (Hconst : forall c, 0 <= c < 2 ^ 16 -> P c) by (intros c Hc; exact Hc).
  destruct (exp =? 0xFF).
  { destruct (negb (mant =? 0)); apply Hbor; try exact Hshl;
      apply Hconst; zpow; lia. }
  destruct (exp =? 0); [exact Hshl|].
  destruct (Z.leb_spec 0x1F (exp - 127 + 15)).
  { apply Hbor; [exact Hshl|apply Hconst; zpow; lia]. }
  destruct (Z.leb_spec (exp - 127 + 15) 0); [exact Hshl|].
  unfold JS.band. rewrite !toInt32_small by (zpow; lia).
  change 0x00800000 with (2 ^ 23).
  rewrite land_bit by (zpow; lia).
  destruct (Z.ltb_spec (mant + 0x00001000) (2 ^ 23)) as [Hlow|Hhigh]; cbn [Z.eqb negb].
  - apply Hbor.
    + apply Hbor; [exact Hshl|]. apply Hexpshl. lia.
    + apply Hconst. unfold JS.sar. rewrite toInt32_small by (zpow; lia).
      rewrite Z.shiftr_div_pow2 by lia. zpow.
      Z.div_mod_to_equations. lia.
  - destruct (Z.leb_spec 0x1F (exp - 127 + 15 + 1)).
    + apply Hbor; [exact Hshl|apply Hconst; zpow; lia].
    + apply Hbor.
      * apply Hbor; [exact Hshl|]. apply Hexpshl. lia.
      * apply Hconst. vm_compute. split; congruence.
Qed.

Lemma toUint16_f32ToF16Bits (val : JS.number) :
  JS.toUint16 (f32ToF16Bits val) = f32ToF16Bits val.
Proof. apply Z.mod_small, f32ToF16Bits_range. Qed.

End Codec.

Example f16_min_normal_value : f16_min_normal = S754_finite false 8388608 (-37).
Proof. reflexivity. Qed.
Example f16_bounds_value :
  f16_max_finite = S754_finite false 16769024 (-8) /\
  f16_overflow_bound = S754_finite false 16773120 (-8).
Proof. split; reflexivity. Qed.

(** C3, as worded, fails: 65505 is a finite binary32 value of magnitude
    above 65504, and the codec rounds it to the largest finite binary16
    value (pattern 0x7BFF), not to Infinity. *)
Lemma f32ToF16Bits_65505_is_finite : ~ saturates_beyond_f16_max.
Proof.
  intros H.
  destruct (H (float32_ofZ 65505) eq_refl eq_refl) as [Hsat _].
  specialize (Hsat eq_refl). vm_compute in Hsat. discriminate Hsat.
Qed.

(** C3, amended: for every finite binary32 input, a magnitude of at least
    65520 encodes as signed Infinity, a magnitude strictly between 65504
    and 65520 encodes as the largest finite binary16 value with the input's
    sign, and a magnitude below the smallest binary16 normal 2^-14 encodes
    as signed zero. *)
Theorem f32ToF16Bits_saturate_flush (val : spec_float) :
  is_float32 val = true ->
  is_finite val = true ->
  (SFleb f16_overflow_bound (SFabs val) = true ->
     f32ToF16Bits val = f16_infinity (sign_of val)) /\
  (SFltb f16_max_finite (SFabs val) = true ->
   SFltb (SFabs val) f16_overflow_bound = true ->
     f32ToF16Bits val = f16_max_pattern (sign_of val)) /\
  (SFltb (SFabs val) f16_min_normal = true ->
     f32ToF16Bits val = f16_zero (sign_of val)).
Proof.
  intros Hv Hfin.
  destruct val as [s|s| |s m e]; try discriminate Hfin.
  - repeat split; try discriminate. intros _. destruct s; reflexivity.
  - unfold is_float32, valid_binary in Hv. cbn [SFabs sign_of].
    change f16_overflow_bound with (S754_finite false 16773120 (-8)).
    change f16_max_finite with (S754_finite false 16769024 (-8)).
    change f16_min_normal with (S754_finite false 8388608 (-37)).
    repeat split.
    + intros H. apply SFleb_finite_pos in H.
      apply codec_infinity; [exact Hv | lia].
    + intros H1 H2. apply SFltb_finite_pos in H1, H2.
      destruct (float32_shape m e Hv) as [[Hm He]|[Hm He]]; [|lia].
      assert (e = -8) by lia. subst e.
      apply codec_max_finite; [exact Hv | lia].
    + intros H. apply SFltb_finite_pos in H.
      destruct (float32_shape m e Hv) as [[Hm He]|[Hm He]].
      * apply codec_flush; [exact Hv | zpow; lia].
      * apply codec_flush; [exact Hv | lia].
Qed.

Lemma f32ToF16Bits_saturate_flush_witness :
  let val := float32_ofZ 70000 in
  is_float32 val = true /\ is_finite val = true /\
  SFleb f16_overflow_bound (SFabs val) = true /\
  f32ToF16Bits val = f16_infinity (sign_of val).
Proof.
  intros val.
  split; [reflexivity|]. split; [reflexivity|]. split; [reflexivity|].
  exact (proj1 (f32ToF16Bits_saturate_flush val eq_refl eq_refl) eq_refl).
Defined.

(** ** The pack loop *)

Section PackLoop.

Context (raster : Raster.t) (format : option Format.t).

Lemma packLoop_lookup fuel channels u8 :
  forall p pi pk,
    (length channels - p <= fuel)%nat ->
    fst (packLoop raster fuel channels u8 p) !! pi = Some pk ->
    pk = packAt raster channels u8 (p + 4 * pi) /\
    (p + 4 * pi < length channels)%nat.
Proof.
  induction fuel as [|fuel IH]; intros p pi pk Hfuel; cbn [packLoop].
  - cbn. discriminate.
  - destruct (Nat.ltb_spec p (length channels)) as [Hp|Hp]; [|cbn; discriminate].
    destruct (packLoop raster fuel channels u8 (p + 4)) as [packs warns] eqn:Hrec.
    assert (Hlook : forall pk',
      (if u8 then packRGBA8 raster (packCh channels p)
       else fst (packRGBA16F raster (packCh channels p))) :: packs = pk' ->
      pk' !! pi = Some pk ->
      pk = packAt raster channels u8 (p + 4 * pi) /\
      (p + 4 * pi < length channels)%nat).
    { intros pk' <-. destruct pi as [|pi]; cbn [lookup list_lookup].
      - intros [= <-]. rewrite Nat.mul_0_r, Nat.add_0_r. split; [reflexivity|lia].
      - intros Hpi.
        specialize (IH (p + 4)%nat pi pk ltac:(lia)).
        rewrite Hrec in IH. specialize (IH Hpi).
        replace (p + 4 * S pi)%nat with (p + 4 + 4 * pi)%nat by lia. exact IH. }
    destruct u8.
    + apply Hlook. reflexivity.
    + destruct (packRGBA16F raster (packCh channels p)) as [pk0 clamped].
      apply Hlook. reflexivity.
Qed.

Lemma packLoop_length fuel channels u8 :
  forall p,
    (length channels - p <= fuel)%nat ->
    length (fst (packLoop raster fuel channels u8 p)) =
      ((length channels - p + 3) / 4)%nat.
Proof.
  induction fuel as [|fuel IH]; intros p Hfuel; cbn [packLoop].
  - replace (length channels - p)%nat with 0%nat by lia. reflexivity.
  - destruct (Nat.ltb_spec p (length channels)) as [Hp|Hp].
    + specialize (IH (p + 4)%nat ltac:(lia)).
      destruct (packLoop raster fuel channels u8 (p + 4)) as [packs warns].
      cbn [fst] in IH.
      assert (Hlen : S (length packs) = ((length channels - p + 3) / 4)%nat).
      { rewrite IH.
        destruct (le_lt_dec 4 (length channels - p)) as [Hbig|Hsmall].
        - replace (length channels - p + 3)%nat
            with (length channels - (p + 4) + 3 + 1 * 4)%nat by lia.
          rewrite Nat.div_add by lia. lia.
        - replace (length channels - (p + 4))%nat with 0%nat by lia.
          assert (Hd : (length channels - p = 1 \/ length channels - p = 2 \/
                        length channels - p = 3)%nat) by lia.
          destruct Hd as [->|[->| ->]]; reflexivity. }
      destruct u8; [exact Hlen|].
      destruct (packRGBA16F raster (packCh channels p)). exact Hlen.
    + replace (length channels - p)%nat with 0%nat by lia. reflexivity.
Qed.

(** Every pack of a set is stored the way the one global decision says. *)
Lemma packLoop_format fuel channels u8 :
  forall p pk,
    pk ∈ fst (packLoop raster fuel channels u8 p) ->
    Pack.format pk = if u8 then RGBA8 else RGBA16F.
Proof.
  induction fuel as [|fuel IH]; intros p pk; cbn [packLoop].
  - cbn. intros H. inversion H.
  - destruct (p <? length channels)%nat; [|cbn; intros H; inversion H].
    specialize (IH (p + 4)%nat pk).
    destruct (packLoop raster fuel channels u8 (p + 4)) as [packs warns].
    cbn [fst] in IH.
    destruct u8.
    + cbn [fst]. intros [->|Hin]%elem_of_cons; [reflexivity|auto].
    + destruct (packRGBA16F raster (packCh channels p)) as [pk0 clamped] eqn:E.
      cbn [fst]. intros [->|Hin]%elem_of_cons; [|auto].
      unfold packRGBA16F in E. injection E as <- _. reflexivity.
Qed.

(** Cell [4*i+k] of a buffer filled pixel by pixel, four slots each. *)
Lemma lookup_cells_from {A} (f : nat -> list A) (k : nat) :
  (forall j, length (f j) = 4%nat) ->
  (k < 4)%nat ->
  forall n s i, (i < n)%nat ->
    flat_map f (seq s n) !! (4 * i + k)%nat = f (s + i)%nat !! k.
Proof.
  intros Hlen Hk. induction n as [|n IH]; intros s i Hi; [lia|].
  cbn [seq flat_map]. destruct i as [|i].
  - rewrite Nat.mul_0_r, Nat.add_0_l, Nat.add_0_r.
    apply lookup_app_l. rewrite Hlen. exact Hk.
  - rewrite lookup_app_r by (rewrite Hlen; lia).
    rewrite Hlen.
    replace (4 * S i + k - 4)%nat with (4 * i + k)%nat by lia.
    rewrite IH by lia. f_equal. f_equal. lia.
Qed.

Lemma lookup_cells {A} (f : nat -> list A) (n i k : nat) :
  (forall j, length (f j) = 4%nat) ->
  (i < n)%nat -> (k < 4)%nat ->
  flat_map f (seq 0 n) !! (4 * i + k)%nat = f i !! k.
Proof.
  intros Hlen Hi Hk. apply (lookup_cells_from f k Hlen Hk n 0%nat i Hi).
Qed.

End PackLoop.

(** ** Layout of the packs in the natural band order *)

Lemma packCh_lookup channels p k :
  (k < 4)%nat -> packCh channels p !! k = Some (channelOr channels (p + k)).
Proof.
  intros Hk. unfold packCh.
  destruct k as [|[|[|[|k]]]]; [| | | |lia]; cbn;
    rewrite ?Nat.add_0_r; reflexivity.
Qed.

Section NaturalOrder.

Context (raster : Raster.t) (format : option Format.t).

Lemma activeChannels_natural :
  hasExplicitChannels format = false ->
  activeChannels raster format =
  map (fun i => Some (Z.of_nat i)) (seq 0 (length (Raster.bands raster))).
Proof.
  unfold hasExplicitChannels, activeChannels, bandCount.
  destruct format as [[i [[|c cs]|] g]|]; try reflexivity. discriminate.
Qed.

Lemma channelOr_natural (n i : nat) :
  channelOr (map (fun i => Some (Z.of_nat i)) (seq 0 n)) i =
  if (i <? n)%nat then Z.of_nat i else -1.
Proof.
  unfold channelOr. rewrite list_lookup_fmap.
  destruct (Nat.ltb_spec i n) as [Hi|Hi].
  - rewrite lookup_seq_lt by exact Hi. reflexivity.
  - rewrite lookup_seq_ge by exact Hi. reflexivity.
Qed.

Lemma packAt_channels channels (u8 : bool) p :
  Pack.channels (packAt raster channels u8 p) = packCh channels p.
Proof. destruct u8; reflexivity. Qed.

(** The backing data of a padding slot is zero, in both storage formats. *)
Lemma padding_data_zero channels (u8 : bool) p k i :
  (k < 4)%nat -> (i < pixelCount raster)%nat ->
  channelOr channels (p + k) = -1 ->
  Pack.data (packAt raster channels u8 p) !! (4 * i + k)%nat = Some 0.
Proof.
  intros Hk Hi Hpad. unfold packAt.
  destruct u8; cbn [packRGBA8 packRGBA16F fst Pack.data].
  - rewrite lookup_cells; [|intros; rewrite length_map; reflexivity|exact Hi|exact Hk].
    rewrite list_lookup_fmap, packCh_lookup, Hpad by exact Hk. reflexivity.
  - rewrite list_lookup_fmap.
    rewrite lookup_cells; [| |exact Hi|exact Hk].
    + rewrite list_lookup_fmap.
      assert (Hz : zip (packCh channels p) (map (scaleFor raster) (packCh channels p))
                   !! k = Some (-1, scaleFor raster (-1))).
      { apply lookup_zip_with_Some.
        exists (-1)%Z. exists (scaleFor raster (-1)).
        split; [reflexivity|]. rewrite list_lookup_fmap.
        rewrite packCh_lookup, Hpad by exact Hk. split; reflexivity. }
      rewrite Hz. reflexivity.
    + intros j. rewrite length_map, length_zip, length_map. reflexivity.
Qed.

End NaturalOrder.

(** C4: with the natural band order, [n] bands give [ceil(n/4)] packs;
    every slot of every pack but the last is a band index; in the last pack
    the slots that carry a channel are the first [n mod 4] (all 4 when
    [n mod 4 = 0]), and every slot beyond them holds -1 over zero-filled
    data. *)
Theorem packBandsAsData_natural_layout (raster : Raster.t) (format : option Format.t) :
  hasExplicitChannels format = false ->
  let n := length (Raster.bands raster) in
  let ts := fst (packBandsAsData raster format) in
  let packs := TextureSet.packs ts in
  TextureSet.channelCount ts = n /\
  length packs = ((n + 3) / 4)%nat /\
  (forall pi pk, packs !! pi = Some pk -> (S pi < length packs)%nat ->
     forall k, (k < 4)%nat ->
       exists c, Pack.channels pk !! k = Some c /\ 0 <= c < Z.of_nat n) /\
  (forall pk, last packs = Some pk ->
     length (Pack.channels pk) = 4%nat /\
     (forall k, (k < usedSlots n)%nat ->
        exists c, Pack.channels pk !! k = Some c /\ 0 <= c < Z.of_nat n) /\
     (forall k, (usedSlots n <= k < 4)%nat ->
        Pack.channels pk !! k = Some (-1) /\
        forall i, (i < pixelCount raster)%nat ->
          Pack.data pk !! (4 * i + k)%nat = Some 0)).
Proof.
  intros Hnat n ts packs.
  pose proof (activeChannels_natural raster format Hnat) as Hch. fold n in Hch.
  set (nat_ch := map (fun i => Some (Z.of_nat i)) (seq 0 n)) in *.
  assert (Hlen_ch : length nat_ch = n)
    by (unfold nat_ch; rewrite length_map, length_seq; reflexivity).
  set (u8 := useRGBA8 raster format nat_ch).
  assert (Hpacks : packs = fst (packLoop raster n nat_ch u8 0)).
  { unfold packs, ts, packBandsAsData. rewrite Hch, Hlen_ch. fold u8.
    destruct (packLoop raster n nat_ch u8 0). reflexivity. }
  assert (Hcount : TextureSet.channelCount ts = n).
  { unfold ts, packBandsAsData. rewrite Hch, Hlen_ch. fold u8.
    destruct (packLoop raster n nat_ch u8 0). cbn [fst TextureSet.channelCount].
    unfold countChannels, nat_ch.
    rewrite forallb_filter_id.
    - rewrite length_map, length_seq. reflexivity.
    - apply forallb_forall.
      intros x Hx. apply in_map_iff in Hx as (i & <- & _). apply Z.leb_le. lia. }
  assert (Hlen : length packs = ((n + 3) / 4)%nat).
  { rewrite Hpacks, packLoop_length by lia. rewrite Hlen_ch, Nat.sub_0_r. reflexivity. }
  assert (Hat : forall pi pk, packs !! pi = Some pk ->
            (4 * pi < n)%nat /\
            Pack.channels pk = packCh nat_ch (4 * pi) /\
            forall k i, (k < 4)%nat -> (i < pixelCount raster)%nat ->
              channelOr nat_ch (4 * pi + k) = -1 ->
              Pack.data pk !! (4 * i + k)%nat = Some 0).
  { intros pi pk Hpk. rewrite Hpacks in Hpk.
    apply packLoop_lookup in Hpk as [-> Hlt]; [|lia].
    rewrite Hlen_ch in Hlt. cbn [Nat.add] in *.
    split; [exact Hlt|]. split; [apply packAt_channels|].
    intros k i Hk Hi Hpad. apply padding_data_zero; assumption. }
  assert (Hcho : forall i, channelOr nat_ch i =
                           if (i <? n)%nat then Z.of_nat i else -1)
    by (intros i; apply channelOr_natural).
  assert (Hdiv : (n = 4 * (n / 4) + n mod 4 /\ n mod 4 < 4)%nat).
  { split; [apply Nat.div_mod_eq | apply Nat.mod_upper_bound; lia]. }
  assert (Hceil : ((n + 3) / 4 = n / 4 + if (n mod 4 =? 0)%nat then 0 else 1)%nat).
  { destruct Hdiv as [Hn Hr]. rewrite Hn at 1.
    replace (4 * (n / 4) + n mod 4 + 3)%nat with (n mod 4 + 3 + (n / 4) * 4)%nat by lia.
    rewrite Nat.div_add by lia.
    generalize (n / 4)%nat as q. intros q.
    destruct (n mod 4)%nat as [|[|[|[|r]]]]; [cbn; lia..|lia]. }
  repeat split.
  - exact Hcount.
  - exact Hlen.
  - intros pi pk Hpk Hnotlast k Hk.
    destruct (Hat pi pk Hpk) as (Hpi & Hchs & _).
    exists (Z.of_nat (4 * pi + k)).
    assert (Hin : (4 * pi + k < n)%nat).
    { rewrite Hlen, Hceil in Hnotlast. destruct (n mod 4 =? 0)%nat; lia. }
    rewrite Hchs, packCh_lookup by exact Hk.
    rewrite Hcho.
    replace (_ <? _)%nat with true by (symmetry; apply Nat.ltb_lt; exact Hin).
    split; [reflexivity|lia].
  - rewrite last_lookup in H. destruct (Hat _ _ H) as (_ & -> & _). reflexivity.
  - intros k Hk. rewrite last_lookup in H.
    destruct (Hat _ _ H) as (Hpi & Hchs & _).
    set (pi := pred (length packs)) in *.
    assert (Hk4 : (k < 4)%nat).
    { unfold usedSlots in Hk. destruct (n mod 4 =? 0)%nat; lia. }
    assert (Hin : (4 * pi + k < n)%nat).
    { unfold pi. rewrite Hlen, Hceil. unfold usedSlots in Hk.
      destruct (Nat.eqb_spec (n mod 4) 0); lia. }
    exists (Z.of_nat (4 * pi + k)).
    rewrite Hchs, packCh_lookup by exact Hk4.
    rewrite Hcho.
    replace (_ <? _)%nat with true by (symmetry; apply Nat.ltb_lt; exact Hin).
    split; [reflexivity|lia].
  - rewrite last_lookup in H. destruct (Hat _ _ H) as (Hpi & Hchs & _).
    set (pi := pred (length packs)) in *.
    rewrite Hchs, packCh_lookup by lia.
    rewrite Hcho.
    assert (Hout : (n <= 4 * pi + k)%nat).
    { unfold pi. rewrite Hlen, Hceil. unfold usedSlots in H0.
      destruct (Nat.eqb_spec (n mod 4) 0); lia. }
    replace (_ <? _)%nat with false by (symmetry; apply Nat.ltb_ge; exact Hout).
    reflexivity.
  - intros i Hi. rewrite last_lookup in H.
    destruct (Hat _ _ H) as (Hpi & Hchs & Hdata).
    set (pi := pred (length packs)) in *.
    apply Hdata; [lia|exact Hi|].
    rewrite Hcho.
    assert (Hout : (n <= 4 * pi + k)%nat).
    { unfold pi. rewrite Hlen, Hceil. unfold usedSlots in H0.
      destruct (Nat.eqb_spec (n mod 4) 0); lia. }
    replace (_ <? _)%nat with false by (symmetry; apply Nat.ltb_ge; exact Hout).
    reflexivity.
Qed.

Lemma packBandsAsData_natural_layout_witness :
  hasExplicitChannels None = false /\
  length (TextureSet.packs (fst (packBandsAsData raster6 None))) = 2%nat.
Proof.
  split; [reflexivity|].
  exact (proj1 (proj2 (packBandsAsData_natural_layout raster6 None eq_refl))).
Defined.

(** Scenario C: six untagged 8-bit bands give two packs, the second with
    channel sources [4, 5, -1, -1]. *)
Example scenario_C :
  map Pack.channels (TextureSet.packs (fst (packBandsAsData raster6 None)))
  = [[0; 1; 2; 3]; [4; 5; -1; -1]].
Proof. reflexivity. Qed.

(** ** The storage decision *)

Section Storage.

Context (raster : Raster.t) (format : option Format.t).

Lemma packs_of_packBandsAsData :
  TextureSet.packs (fst (packBandsAsData raster format)) =
  fst (packLoop raster (length (activeChannels raster format))
         (activeChannels raster format)
         (useRGBA8 raster format (activeChannels raster format)) 0).
Proof.
  unfold packBandsAsData.
  destruct (packLoop raster _ _ _ 0). reflexivity.
Qed.

Lemma pack_format_global pk :
  pk ∈ TextureSet.packs (fst (packBandsAsData raster format)) ->
  Pack.format pk =
    if useRGBA8 raster format (activeChannels raster format)
    then RGBA8 else RGBA16F.
Proof.
  rewrite packs_of_packBandsAsData. apply packLoop_format.
Qed.

Lemma allU8_spec channels :
  allU8 raster channels = true <->
  forall c, c ∈ channels ->
    exists bi b, c = Some bi /\ bandAt raster bi = Some b /\ isU8 b = true.
Proof.
  unfold allU8. rewrite forallb_forall. split.
  - intros H c Hc. apply list_elem_of_In in Hc. specialize (H c Hc).
    destruct c as [bi|]; [|discriminate].
    destruct (bandAt raster bi) as [b|] eqn:E; [|discriminate].
    exists bi, b. repeat split; assumption.
  - intros H c Hc. apply list_elem_of_In in Hc.
    destruct (H c Hc) as (bi & b & -> & -> & Hb). exact Hb.
Qed.

End Storage.

(** C1, as worded, fails: no input yields a texture set holding both a
    Byte4 and a HalfFloat4 pack, because the storage format is decided once
    for the whole channel list. *)
Lemma storage_not_decided_per_pack : ~ storage_decided_per_pack.
Proof.
  intros [_ (raster & format & (p & Hp & Hp8) & (q & Hq & Hq16))].
  apply pack_format_global in Hp, Hq.
  destruct (useRGBA8 raster format (activeChannels raster format)); congruence.
Qed.

(** The mixed-precision input: both packs are HalfFloat4, also the one
    whose four channels are all 8-bit. *)
Example rasterMixed_packs :
  map (fun pk => (Pack.format pk, Pack.channels pk))
      (TextureSet.packs (fst (packBandsAsData rasterMixed None)))
  = [(RGBA16F, [0; 1; 2; 3]); (RGBA16F, [4; -1; -1; -1])].
Proof. reflexivity. Qed.

(** C1, amended: Byte4 storage is chosen exactly when 8-bit storage is
    preferred, half-float is not forced and every channel of the whole
    active channel list is backed by an 8-bit band; the decision is made
    once per texture set, so all its packs share one storage format. *)
Theorem packBandsAsData_storage_is_global (raster : Raster.t) (format : option Format.t) :
  forall pk, pk ∈ TextureSet.packs (fst (packBandsAsData raster format)) ->
    (Pack.format pk = RGBA8 <->
       preferRGBA8 format = true /\ forceRGBA16F format = false /\
       forall c, c ∈ activeChannels raster format ->
         exists bi b, c = Some bi /\ bandAt raster bi = Some b /\ isU8 b = true) /\
    (forall pk', pk' ∈ TextureSet.packs (fst (packBandsAsData raster format)) ->
       Pack.format pk' = Pack.format pk).
Proof.
  intros pk Hpk. pose proof (pack_format_global raster format pk Hpk) as Hf.
  split.
  - rewrite <- allU8_spec, Hf. unfold useRGBA8.
    destruct (preferRGBA8 format), (forceRGBA16F format),
      (allU8 raster (activeChannels raster format)); cbn; intuition congruence.
  - intros pk' Hpk'. rewrite Hf. apply pack_format_global. exact Hpk'.
Qed.

Lemma packBandsAsData_storage_is_global_witness :
  exists pk, pk ∈ TextureSet.packs (fst (packBandsAsData rasterMixed None)) /\
    Pack.channels pk = [0; 1; 2; 3] /\
    forall pk', pk' ∈ TextureSet.packs (fst (packBandsAsData rasterMixed None)) ->
      Pack.format pk' = RGBA16F.
Proof.
  eexists. split; [left|]. split; [reflexivity|].
  intros pk' Hpk'.
  exact (proj2 (packBandsAsData_storage_is_global rasterMixed None _
                  (list_elem_of_here _ _)) pk' Hpk').
Defined.

(** ** Normalization of integer bands in half-float packs *)

Section Normalization.

Context (raster : Raster.t) (format : option Format.t).

Lemma bandAt_inBands bi band :
  bandAt raster bi = Some band -> inBands raster bi = true.
Proof.
  unfold bandAt, inBands, bandCount.
  destruct (Z.leb_spec 0 bi) as [Hbi|Hbi]; [|discriminate].
  intros Hb. apply lookup_lt_Some in Hb. cbn [andb].
  apply Z.ltb_lt. lia.
Qed.

(** With half-float forced, the pack at position [pi] is the RGBA16F pack
    of its four channel slots. *)
Lemma forced_pack_lookup pi pk :
  forceRGBA16F format = true ->
  TextureSet.packs (fst (packBandsAsData raster format)) !! pi = Some pk ->
  pk = fst (packRGBA16F raster (packCh (activeChannels raster format) (4 * pi))).
Proof.
  intros Hforce. rewrite packs_of_packBandsAsData. intros Hpk.
  apply packLoop_lookup in Hpk as [-> _]; [|lia].
  unfold useRGBA8. rewrite Hforce, andb_false_r. reflexivity.
Qed.

Lemma packRGBA16F_scale ch k bi :
  ch !! k = Some bi ->
  Pack.scale (fst (packRGBA16F raster ch)) !! k = Some (scaleFor raster bi).
Proof.
  intros Hk. cbn [packRGBA16F fst Pack.scale].
  rewrite list_lookup_fmap, Hk. reflexivity.
Qed.

Lemma packRGBA16F_data ch k bi i :
  length ch = 4%nat -> (k < 4)%nat -> (i < pixelCount raster)%nat ->
  ch !! k = Some bi ->
  Pack.data (fst (packRGBA16F raster ch)) !! (4 * i + k)%nat =
    Some (f32ToF16Bits (fst (halfValue raster bi (scaleFor raster bi) i))).
Proof.
  intros Hlen Hk Hi Hch. cbn [packRGBA16F fst Pack.data].
  rewrite list_lookup_fmap.
  rewrite lookup_cells; [| |exact Hi|exact Hk].
  - rewrite list_lookup_fmap.
    assert (Hz : zip ch (map (scaleFor raster) ch) !! k = Some (bi, scaleFor raster bi)).
    { apply lookup_zip_with_Some. exists bi. exists (scaleFor raster bi).
      split; [reflexivity|]. rewrite list_lookup_fmap, Hch. split; reflexivity. }
    rewrite Hz.
    rewrite <- (toUint16_f32ToF16Bits (fst (halfValue raster bi (scaleFor raster bi) i))).
    reflexivity.
  - intros j. rewrite length_map, length_zip, length_map, Hlen. reflexivity.
Qed.

(** A 12-bit integer band is below the normalization threshold: its scale
    stays 1. *)
Lemma scaleFor_12bit bi band :
  bandAt raster bi = Some band ->
  isFloat band = false ->
  bitsOf raster bi = Some 12 ->
  scaleFor raster bi = JS.ofZ 1.
Proof.
  intros Hband Hint Hbits. unfold scaleFor.
  rewrite (bandAt_inBands bi band Hband), Hband, Hint, Hbits. reflexivity.
Qed.

Lemma halfValue_unscaled bi band i :
  bandAt raster bi = Some band ->
  fst (halfValue raster bi (JS.ofZ 1) i) = clampHalf (sampleAt raster bi i).
Proof.
  intros Hband. unfold halfValue, clampHalf.
  rewrite (bandAt_inBands bi band Hband).
  change (JS.strict_ne (JS.ofZ 1) (JS.ofZ 1)) with false. cbv iota.
  destruct (JS.gt _ _); [reflexivity|].
  destruct (JS.lt _ _); reflexivity.
Qed.

End Normalization.

(** C2, as worded, fails: the 12-bit band of [raster12] keeps scale 1, and
    its sample 4095 is stored as the half-float 4096.0 (pattern 0x6C00),
    which is not in [0,1]. *)
Lemma scale_of_12bit_band_is_not_4095 : ~ normalizes_12bit_band.
Proof.
  intros H.
  destruct (H raster12 formatForce16 0%nat
              (fst (packRGBA16F raster12 [0; -1; -1; -1]))
              0%nat 0 (bandOf Uint16Array [4095])
              eq_refl eq_refl eq_refl eq_refl eq_refl eq_refl) as [Hscale _].
  vm_compute in Hscale. discriminate Hscale.
Qed.

Example raster12_stored :
  map (fun pk => (Pack.scale pk, Pack.data pk))
      (TextureSet.packs (fst (packBandsAsData raster12 formatForce16)))
  = [([JS.ofZ 1; JS.ofZ 1; JS.ofZ 1; JS.ofZ 1], [0x6C00; 0; 0; 0])].
Proof. vm_compute. reflexivity. Qed.

(** C2, amended: for an integer band packed in data mode with half-float
    forced, the pack is HalfFloat4, the channel's offset entry is 0 and its
    scale entry is the declared maximum when that maximum exceeds 65504 and
    1 otherwise.  With 12 declared bits per sample the maximum is 4095, so
    the scale entry is 1 and every stored sample is the half-float encoding
    of the raw sample value (clamped to +-65504), not of a [0,1]
    fraction. *)
Theorem packBandsAsData_12bit_unscaled
    (raster : Raster.t) (format : option Format.t)
    (pi : nat) (pk : Pack.t) (k : nat) (bi : Z) (band : Band.t) :
  forceRGBA16F format = true ->
  TextureSet.packs (fst (packBandsAsData raster format)) !! pi = Some pk ->
  Pack.channels pk !! k = Some bi ->
  bandAt raster bi = Some band ->
  isFloat band = false ->
  Pack.format pk = RGBA16F /\
  Pack.offset pk !! k = Some (JS.ofZ 0) /\
  Pack.scale pk !! k =
    Some (if JS.gt (maxOf (bitsOf raster bi)) (JS.ofZ 65504)
          then maxOf (bitsOf raster bi)
          else JS.ofZ 1) /\
  (bitsOf raster bi = Some 12 ->
   maxOf (bitsOf raster bi) = JS.ofZ 4095 /\
   Pack.scale pk !! k = Some (JS.ofZ 1) /\
   forall i, (i < pixelCount raster)%nat ->
     Pack.data pk !! (4 * i + k)%nat =
       Some (f32ToF16Bits (clampHalf (sampleAt raster bi i)))).
Proof.
  intros Hforce Hpk Hch Hband Hint.
  apply forced_pack_lookup in Hpk; [|exact Hforce]. subst pk.
  cbn [packRGBA16F fst Pack.channels] in Hch.
  assert (Hk : (k < 4)%nat) by (apply lookup_lt_Some in Hch; exact Hch).
  split; [reflexivity|].
  split.
  { cbn [packRGBA16F fst Pack.offset].
    destruct k as [|[|[|[|k]]]]; [reflexivity..|lia]. }
  split.
  { rewrite (packRGBA16F_scale raster _ k bi Hch). unfold scaleFor.
    rewrite (bandAt_inBands raster bi band Hband), Hband, Hint. reflexivity. }
  intros Hbits.
  pose proof (scaleFor_12bit raster bi band Hband Hint Hbits) as Hscale.
  split; [rewrite Hbits; reflexivity|].
  split.
  - rewrite (packRGBA16F_scale raster _ k bi Hch), Hscale. reflexivity.
  - intros i Hi.
    rewrite (packRGBA16F_data raster
               (packCh (activeChannels raster format) (4 * pi)) k bi i
               eq_refl Hk Hi Hch), Hscale.
    rewrite (halfValue_unscaled raster bi band i Hband). reflexivity.
Qed.

Lemma packBandsAsData_12bit_unscaled_witness :
  Pack.scale (fst (packRGBA16F raster12 [0; -1; -1; -1])) !! 0%nat = Some (JS.ofZ 1) /\
  Pack.data (fst (packRGBA16F raster12 [0; -1; -1; -1])) !! 0%nat = Some 0x6C00 /\
  Pack.scale (fst (packRGBA16F raster12 [0; -1; -1; -1])) !! 0%nat =
    Some (if JS.gt (maxOf (bitsOf raster12 0)) (JS.ofZ 65504)
          then maxOf (bitsOf raster12 0)
          else JS.ofZ 1).
Proof.
  pose proof (packBandsAsData_12bit_unscaled raster12 formatForce16 0%nat
                (fst (packRGBA16F raster12 [0; -1; -1; -1]))
                0%nat 0 (bandOf Uint16Array [4095])
                eq_refl eq_refl eq_refl eq_refl eq_refl)
    as (_ & _ & Hthreshold & H12).
  destruct (H12 eq_refl) as (_ & Hscale & Hdata).
  split; [exact Hscale|].
  split; [exact (Hdata 0%nat (Nat.lt_0_succ 0))|exact Hthreshold].
Defined.

(** ** YCbCr conversion *)

Section YCbCr.

Lemma toUint8Clamp_range (v : JS.number) : 0 <= JS.toUint8Clamp v <= 255.
Proof.
  destruct v as [s|s| |s m e]; cbn [JS.toUint8Clamp]; try lia.
  - destruct s; lia.
  - destruct s; [lia|].
    destruct (Z.leb_spec 0 e) as [He|He].
    + assert (0 < 2 ^ e) by (apply Z.pow_pos_nonneg; lia).
      apply Z.min_case_strong; nia.
    + assert (Hd : 0 < 2 ^ (- e)) by (apply Z.pow_pos_nonneg; lia).
      pose proof (Z.div_pos (Z.pos m) (2 ^ (- e)) ltac:(lia) Hd) as Hf.
      destruct (Z.leb_spec 255 (Z.pos m / 2 ^ (- e))); [lia|].
      destruct (_ ?= _); [destruct (Z.even _)| |]; lia.
Qed.

Lemma pixelIs_cells (f : nat -> list Z) (n i : nat) (r g b a : Z) :
  (forall j, length (f j) = 4%nat) ->
  (i < n)%nat ->
  f i = [r; g; b; a] ->
  pixelIs (flat_map f (seq 0 n)) i r g b a.
Proof.
  intros Hlen Hi Hf. unfold pixelIs.
  rewrite <- (Nat.add_0_r (4 * i)) at 1.
  rewrite !lookup_cells by (try exact Hlen; lia).
  rewrite Hf. repeat split.
Qed.

Lemma read_Some (a : list JS.number) i v :
  a !! i = Some v -> Converters.read a i = v.
Proof. unfold Converters.read. intros ->. reflexivity. Qed.

End YCbCr.

(** C5, as worded, fails: at (Y, Cb, Cr) = (128, 12, 186) the code's green
    is 127 (its value 126.50012 rounds up), where the worded coefficients
    0.344136 and 0.714136 give 126 (126.499888 rounds down). *)
Lemma ycbcr_green_coefficients_differ : ~ ycbcr_converts_with green_worded.
Proof.
  intros [_ H].
  destruct (H [JS.ofZ 128] [JS.ofZ 12] [JS.ofZ 186] 0%nat
              (JS.ofZ 128) (JS.ofZ 12) (JS.ofZ 186) eq_refl eq_refl eq_refl)
    as (_ & Hg & _).
  vm_compute in Hg. discriminate Hg.
Qed.

Example ycbcr_green_at_128_12_186 :
  Converters.RGBAfromYCbCr
    (Converters.Planar [JS.ofZ 128] [JS.ofZ 12] [JS.ofZ 186]) = [209; 127; 0; 255] /\
  green_worded (JS.ofZ 128) (JS.ofZ 12) (JS.ofZ 186) = 126.
Proof. split; vm_compute; reflexivity. Qed.

(** Byte clamping, not wrap-around: 255 + 1.402 * 127 = 433.054 is stored
    as 255, and 0 + 1.772 * (-128) as 0. *)
Example ycbcr_clamps :
  Converters.RGBAfromYCbCr
    (Converters.Interleaved [JS.ofZ 255; JS.ofZ 0; JS.ofZ 255]) = [255; 208; 28; 255] /\
  Converters.RGBAfromYCbCr
    (Converters.Interleaved [JS.ofZ 0; JS.ofZ 0; JS.ofZ 128]) = [0; 44; 0; 255].
Proof. split; vm_compute; reflexivity. Qed.

(** C5, amended: for every pixel, in both the interleaved and the planar
    input form, the converter stores R = Y + 1.402*(Cr-128),
    G = Y - 0.34414*(Cb-128) - 0.71414*(Cr-128), B = Y + 1.772*(Cb-128),
    each computed in binary64 arithmetic and byte-clamped into [0,255], and
    alpha 255. *)
Theorem RGBAfromYCbCr_formula :
  ycbcr_converts_with green_jfif /\
  (forall Y Cb Cr,
     0 <= red_of Y Cr <= 255 /\ 0 <= green_jfif Y Cb Cr <= 255 /\
     0 <= blue_of Y Cb <= 255).
Proof.
  split; [split|].
  - intros input i Y Cb Cr HY HCb HCr.
    pose proof (lookup_lt_Some _ _ _ HCr) as Hlen.
    cbn [Converters.RGBAfromYCbCr].
    assert (Hn : (i < (length input + 2) / 3)%nat).
    { apply Nat.div_le_lower_bound; lia. }
    assert (HL : (4 * i + 3 < length input * 4 / 3)%nat).
    { apply Nat.div_le_lower_bound; lia. }
    unfold pixelIs. rewrite !lookup_take_lt by lia.
    apply pixelIs_cells; [reflexivity|exact Hn|].
    rewrite (read_Some _ _ _ HY), (read_Some _ _ _ HCb), (read_Some _ _ _ HCr).
    reflexivity.
  - intros y cb cr i Y Cb Cr HY HCb HCr.
    cbn [Converters.RGBAfromYCbCr].
    apply pixelIs_cells; [reflexivity|exact (lookup_lt_Some _ _ _ HY)|].
    rewrite (read_Some _ _ _ HY), (read_Some _ _ _ HCb), (read_Some _ _ _ HCr).
    reflexivity.
  - intros Y Cb Cr. unfold red_of, green_jfif, blue_of.
    repeat split; apply toUint8Clamp_range.
Qed.

Lemma RGBAfromYCbCr_formula_witness :
  pixelIs (Converters.RGBAfromYCbCr
             (Converters.Planar [JS.ofZ 128] [JS.ofZ 12] [JS.ofZ 186]))
          0 209 127 0 255.
Proof.
  exact (proj2 (proj1 RGBAfromYCbCr_formula)
           [JS.ofZ 128] [JS.ofZ 12] [JS.ofZ 186] 0%nat
           (JS.ofZ 128) (JS.ofZ 12) (JS.ofZ 186) eq_refl eq_refl eq_refl).
Defined.

(** ** Mode classification *)

(** Scenario E: four untagged bands with [interpretation: "image"] forced
    classify as image; left to auto they classify as data. *)
Example scenario_E :
  let r := {| Raster.width := 1; Raster.height := 1;
              Raster.bands := [bandOf Uint8Array [1]; bandOf Uint8Array [2];
                               bandOf Uint8Array [3]; bandOf Uint8Array [4]];
              Raster.samplesPerPixel := Some 4;
              Raster.bitsPerSample := Some [8];
              Raster.photometricInterpretation := None |} in
  modeOf r (Some {| Format.interpretation := Some image;
                    Format.channels := None; Format.gpu := None |}) = image /\
  modeOf r None = data.
Proof. split; reflexivity. Qed.

(** C6: the classifier is a total function into {image, data}.  A forced
    interpretation is used verbatim.  Under auto, the tags RGB, YCbCr, CMYK,
    CIE-Lab and Palette classify as image, a single-band black-is-zero or
    white-is-zero raster classifies as image, and every other input (an
    absent tag, an unrecognized tag, a multi-band grayscale tag) classifies
    as data. *)
Theorem modeOf_classification (raster : Raster.t) (format : option Format.t) :
  let pi := Raster.photometricInterpretation raster in
  (modeOf raster format = image \/ modeOf raster format = data) /\
  (interpretationOf format = image -> modeOf raster format = image) /\
  (interpretationOf format = data -> modeOf raster format = data) /\
  (interpretationOf format = auto ->
     (forall t, pi = Some t -> t ∈ imageTags -> modeOf raster format = image) /\
     (forall t, pi = Some t -> t ∈ grayTags -> sppOf raster = 1 ->
        modeOf raster format = image) /\
     (pi = None -> modeOf raster format = data) /\
     (forall t, pi = Some t -> t ∉ imageTags ->
        t ∉ grayTags \/ sppOf raster <> 1 ->
        modeOf raster format = data)).
Proof.
  intros pi. unfold modeOf, inferFromTIFFTags. fold pi.
  set (isImage := tagIs pi PI.RGB || tagIs pi PI.YCbCr || tagIs pi PI.CMYK ||
                  tagIs pi PI.CIELab || tagIs pi PI.Palette).
  set (isGray := tagIs pi PI.BlackIsZero || tagIs pi PI.WhiteIsZero).
  assert (Himg : forall t, pi = Some t -> (isImage = true <-> t ∈ imageTags)).
  { intros t Ht. unfold isImage. rewrite Ht. unfold tagIs, imageTags.
    rewrite !orb_true_iff, !Z.eqb_eq, !elem_of_cons, elem_of_nil. tauto. }
  assert (Hgray : forall t, pi = Some t -> (isGray = true <-> t ∈ grayTags)).
  { intros t Ht. unfold isGray. rewrite Ht. unfold tagIs, grayTags.
    rewrite !orb_true_iff, !Z.eqb_eq, !elem_of_cons, elem_of_nil. tauto. }
  split; [|split; [|split]].
  - destruct (interpretationOf format); auto.
    destruct isImage; auto. destruct (_ && _); auto.
  - intros ->. reflexivity.
  - intros ->. reflexivity.
  - intros ->. split; [|split; [|split]].
    + intros t Ht Hin. apply (Himg t Ht) in Hin. rewrite Hin. reflexivity.
    + intros t Ht Hin Hspp. apply (Hgray t Ht) in Hin.
      rewrite Hin, Hspp. destruct isImage; reflexivity.
    + intros Hnone. unfold isImage, isGray. rewrite Hnone. reflexivity.
    + intros t Ht Hnimg Hngray.
      pose proof (Himg t Ht) as [Hi _]. pose proof (Hgray t Ht) as [Hg _].
      destruct isImage; [exfalso; apply Hnimg, Hi; reflexivity|].
      destruct isGray; [|reflexivity].
      destruct Hngray as [Hn|Hn]; [exfalso; apply Hn, Hg; reflexivity|].
      apply Z.eqb_neq in Hn. rewrite Hn. reflexivity.
Qed.

Lemma modeOf_classification_witness :
  modeOf raster6 None = data /\ modeOf raster6 formatImage = image.
Proof.
  split.
  - exact (proj1 (proj2 (proj2 (proj2 (proj2 (proj2
             (modeOf_classification raster6 None))) eq_refl))) eq_refl).
  - exact (proj1 (proj2 (modeOf_classification raster6 formatImage)) eq_refl).
Defined.

(** ** Decode failures *)

Section DecodeErrors.

Context (fromArrayBuffer : list Z -> result GeoTiff.t)
        (imageModeTextureSet : Raster.t -> Hints.t -> list Warn.t * result TextureSet.t)
        (BitmapOutput : Type)
        (renderImageBitmap : Raster.t -> Hints.t -> list Warn.t * result BitmapOutput).

(** A decode operation whose decode step throws replies with that error
    and posts nothing else. *)
Lemma decode_error_reply id op payload e :
  op ∈ decodeOps ->
  decodeRasterFromArrayBuffer fromArrayBuffer
    (Payload.buffer payload) (Payload.hints payload) = inl e ->
  onmessage fromArrayBuffer imageModeTextureSet BitmapOutput renderImageBitmap
    id op payload = [PostError BitmapOutput id (errorToPlain e)].
Proof.
  intros Hop Hdec. unfold onmessage, runOp, decodeOps in *.
  rewrite !elem_of_cons, elem_of_nil in Hop.
  destruct Hop as [->|[->|[->|[]]]]; cbn [String.eqb Ascii.eqb Bool.eqb];
    rewrite Hdec; reflexivity.
Qed.

Lemma decode_multi_without_index ab hints tiff count :
  fromArrayBuffer ab = inr tiff ->
  GeoTiff.getImageCount tiff = inr count ->
  count <> 1 ->
  Hints.imageIndex hints = None ->
  decodeRasterFromArrayBuffer fromArrayBuffer ab hints = inl (multiImageError count).
Proof.
  intros Htiff Hcount Hne Hidx. unfold decodeRasterFromArrayBuffer.
  rewrite Htiff. cbn [bind]. rewrite Hcount. cbn [bind].
  apply Z.eqb_neq in Hne. rewrite Hne, Hidx. reflexivity.
Qed.

Lemma decode_multi_bad_index ab hints tiff count i :
  fromArrayBuffer ab = inr tiff ->
  GeoTiff.getImageCount tiff = inr count ->
  count <> 1 ->
  Hints.imageIndex hints = Some i ->
  i < 0 \/ count <= i ->
  decodeRasterFromArrayBuffer fromArrayBuffer ab hints = inl (indexRangeError i count).
Proof.
  intros Htiff Hcount Hne Hidx Hrange. unfold decodeRasterFromArrayBuffer.
  rewrite Htiff. cbn [bind]. rewrite Hcount. cbn [bind].
  apply Z.eqb_neq in Hne. rewrite Hne, Hidx. cbn [negb].
  replace ((i <? 0) || (count <=? i)) with true; [reflexivity|].
  symmetry. apply orb_true_iff.
  destruct Hrange; [left; apply Z.ltb_lt|right; apply Z.leb_le]; assumption.
Qed.

(** With exactly one image the supplied index is not looked at. *)
Lemma decode_single_ignores_index ab hints hints' tiff :
  fromArrayBuffer ab = inr tiff ->
  GeoTiff.getImageCount tiff = inr 1 ->
  Hints.decode hints' = Hints.decode hints ->
  decodeRasterFromArrayBuffer fromArrayBuffer ab hints =
  decodeRasterFromArrayBuffer fromArrayBuffer ab hints'.
Proof.
  intros Htiff Hcount Hdec. unfold decodeRasterFromArrayBuffer.
  rewrite Htiff. cbn [bind]. rewrite Hcount. cbn [bind Z.eqb Pos.eqb negb].
  unfold interleaveOf. rewrite Hdec. reflexivity.
Qed.

(** With exactly one image, image 0 is decoded. *)
Lemma decode_single_image_zero ab hints tiff :
  fromArrayBuffer ab = inr tiff ->
  GeoTiff.getImageCount tiff = inr 1 ->
  decodeRasterFromArrayBuffer fromArrayBuffer ab hints = decodeImage tiff 0 hints.
Proof.
  intros Htiff Hcount. unfold decodeRasterFromArrayBuffer, decodeImage.
  rewrite Htiff. cbn [bind]. rewrite Hcount. reflexivity.
Qed.

End DecodeErrors.

(** C7, as worded, fails: on a container with exactly one image the
    supplied index 5 (at least the image count) is ignored, image 0 is
    decoded and the reply carries ok:true. *)
Lemma single_image_ignores_bad_index : ~ decode_rejects_every_bad_index.
Proof.
  intros H.
  destruct (H (fun _ => ret singleImageTiff) noImageMode unit noBitmap
              7 "decodeRaster" (payloadWithIndex (Some 5)) singleImageTiff 1)
    as (error & _ & Hreply).
  - left.
  - reflexivity.
  - reflexivity.
  - right. exists 5. split; [reflexivity|lia].
  - vm_compute in Hreply. discriminate Hreply.
Qed.

(** C7, amended: when the container does not hold exactly one image, a
    decode operation replies with exactly one message, ok:false with a
    non-empty readable error, if no image index was supplied or if the
    supplied index is below 0 or at least the image count; a container that
    holds exactly one image ignores the supplied index and decodes image 0:
    the decoder returns what fetching and reading image 0 gives, and
    [decodeRaster] replies with that raster, or with the error of that
    image. *)
Theorem decode_rejects_missing_or_bad_index
    (fromArrayBuffer : list Z -> result GeoTiff.t)
    (imageModeTextureSet : Raster.t -> Hints.t -> list Warn.t * result TextureSet.t)
    (BitmapOutput : Type)
    (renderImageBitmap : Raster.t -> Hints.t -> list Warn.t * result BitmapOutput)
    (id : Z) (op : string) (payload : Payload.t) (tiff : GeoTiff.t) (count : Z) :
  op ∈ decodeOps ->
  fromArrayBuffer (Payload.buffer payload) = inr tiff ->
  GeoTiff.getImageCount tiff = inr count ->
  let reply := onmessage fromArrayBuffer imageModeTextureSet BitmapOutput
                 renderImageBitmap id op payload in
  let index := Hints.imageIndex (Payload.hints payload) in
  (count <> 1 -> index = None ->
     reply = [PostError BitmapOutput id
                ("[RawTiffPlugin] TIFF has " +:+ pretty count +:+
                 " images; provide rawTiff.hints.imageIndex to decode.")]) /\
  (count <> 1 -> forall i, index = Some i -> i < 0 \/ count <= i ->
     reply = [PostError BitmapOutput id
                ("[RawTiffPlugin] imageIndex " +:+ pretty i +:+
                 " out of range (0.." +:+ pretty (count - 1) +:+ ").")]) /\
  (count = 1 -> forall hints',
     Hints.decode hints' = Hints.decode (Payload.hints payload) ->
     decodeRasterFromArrayBuffer fromArrayBuffer (Payload.buffer payload)
       (Payload.hints payload) =
     decodeRasterFromArrayBuffer fromArrayBuffer (Payload.buffer payload) hints') /\
  (count = 1 ->
     decodeRasterFromArrayBuffer fromArrayBuffer (Payload.buffer payload)
       (Payload.hints payload) =
     decodeImage tiff 0 (Payload.hints payload)) /\
  (count = 1 -> op = "decodeRaster" ->
     reply = [match decodeImage tiff 0 (Payload.hints payload) with
              | inr r => PostOk BitmapOutput id (RasterResult BitmapOutput r)
              | inl e => PostError BitmapOutput id (errorToPlain e)
              end]).
Proof.
  intros Hop Htiff Hcount reply index. repeat split.
  - intros Hne Hidx. unfold reply.
    rewrite (decode_error_reply _ _ _ _ id op payload (multiImageError count) Hop).
    + reflexivity.
    + eapply decode_multi_without_index; eassumption.
  - intros Hne i Hidx Hrange. unfold reply.
    rewrite (decode_error_reply _ _ _ _ id op payload (indexRangeError i count) Hop).
    + reflexivity.
    + eapply decode_multi_bad_index; eassumption.
  - intros -> hints' Hdec.
    eapply decode_single_ignores_index; eassumption.
  - intros ->. eapply decode_single_image_zero; eassumption.
  - intros -> ->. unfold reply, onmessage, runOp.
    cbn [String.eqb Ascii.eqb Bool.eqb].
    rewrite (decode_single_image_zero fromArrayBuffer _ _ tiff Htiff Hcount).
    destruct (decodeImage tiff 0 (Payload.hints payload)); reflexivity.
Qed.

Lemma decode_rejects_missing_or_bad_index_witness :
  onmessage (fun _ => ret threeImageTiff) noImageMode unit noBitmap
    7 "decodeRaster" (payloadWithIndex None)
  = [PostError unit 7 "[RawTiffPlugin] TIFF has 3 images; provide rawTiff.hints.imageIndex to decode."] /\
  onmessage (fun _ => ret threeImageTiff) noImageMode unit noBitmap
    7 "decodeAndPackGpuTextureSet" (payloadWithIndex (Some 3))
  = [PostError unit 7 "[RawTiffPlugin] imageIndex 3 out of range (0..2)."] /\
  decodeRasterFromArrayBuffer (fun _ => ret singleImageTiff) [] (hintsWithIndex (Some 5))
  = decodeImage singleImageTiff 0 (hintsWithIndex (Some 5)).
Proof.
  split; [|split].
  - exact (proj1 (decode_rejects_missing_or_bad_index
             (fun _ => ret threeImageTiff) noImageMode unit noBitmap
             7 "decodeRaster" (payloadWithIndex None) threeImageTiff 3
             ltac:(left) eq_refl eq_refl) ltac:(lia) eq_refl).
  - exact (proj1 (proj2 (decode_rejects_missing_or_bad_index
             (fun _ => ret threeImageTiff) noImageMode unit noBitmap
             7 "decodeAndPackGpuTextureSet" (payloadWithIndex (Some 3)) threeImageTiff 3
             ltac:(right; right; left) eq_refl eq_refl)) ltac:(lia) 3 eq_refl
             ltac:(right; lia)).
  - exact (proj1 (proj2 (proj2 (proj2 (decode_rejects_missing_or_bad_index
             (fun _ => ret singleImageTiff) noImageMode unit noBitmap
             7 "decodeRaster" (payloadWithIndex (Some 5)) singleImageTiff 1
             ltac:(left) eq_refl eq_refl)))) eq_refl).
Defined.

(** ** Warnings surface once *)

Section LogOnce.

Lemma logInv_empty : logInv emptyLog.
Proof.
  split; [constructor|]. intros l Hl. inversion Hl.
Qed.

Lemma logOnce_inv key message mode st :
  logInv st -> logInv (logOnce key message mode st).
Proof.
  intros [Hnd Hmark]. unfold logOnce.
  destruct (echoed st key) eqn:Hseen; [split; assumption|].
  assert (Hfresh : key ∉ map Line.key (Log.console st)).
  { intros (l & Hkey & Hl)%list_elem_of_fmap.
    specialize (Hmark l Hl). unfold echoed in Hseen.
    rewrite Hkey, Hmark in Hseen. discriminate. }
  split; cbn [Log.console Log.echoOnce].
  - rewrite map_app. cbn [map Line.key]. apply NoDup_app. split; [exact Hnd|].
    split; [|apply NoDup_singleton].
    intros k Hk Hk'. apply list_elem_of_singleton in Hk'. subst k. contradiction.
  - intros l [Hl|Hl]%elem_of_app.
    + destruct (decide (key = Line.key l)) as [<-|Hne].
      * apply lookup_insert_eq.
      * rewrite lookup_insert_ne by exact Hne. apply Hmark, Hl.
    + apply list_elem_of_singleton in Hl. subst l. apply lookup_insert_eq.
Qed.

Lemma logStep_inv st ev : logInv st -> logInv (logStep st ev).
Proof.
  intros Hinv. destruct ev; cbn [logStep].
  - apply logOnce_inv, Hinv.
  - unfold warnExtraChannels. destruct (_ <? _)%nat; [apply logOnce_inv|]; exact Hinv.
  - apply logOnce_inv, Hinv.
  - apply logOnce_inv, Hinv.
Qed.

Lemma logRun_inv events : forall st, logInv st -> logInv (logRun events st).
Proof.
  induction events as [|ev events IH]; intros st Hinv; [exact Hinv|].
  cbn [logRun fold_left]. apply IH, logStep_inv, Hinv.
Qed.

Lemma surfaced_NoDup key (console : list Line.t) :
  NoDup (map Line.key console) ->
  (length (List.filter (fun l => String.eqb (Line.key l) key) console) <= 1)%nat.
Proof.
  induction console as [|l console IH]; cbn [map List.filter length]; [lia|].
  intros Hnd. apply NoDup_cons in Hnd as [Hnotin Hnd].
  destruct (String.eqb_spec (Line.key l) key) as [Heq|Hne]; [|apply IH, Hnd].
  cbn [length].
  assert (Hnone : List.filter (fun l0 => String.eqb (Line.key l0) key) console = []).
  { destruct (List.filter _ console) as [|l' rest] eqn:Hf; [reflexivity|].
    exfalso. apply Hnotin.
    assert (Hin : In l' (List.filter (fun l0 => String.eqb (Line.key l0) key) console))
      by (rewrite Hf; left; reflexivity).
    apply filter_In in Hin as [Hin Hk]. apply String.eqb_eq in Hk.
    rewrite Heq, <- Hk. apply list_elem_of_fmap. exists l'.
    split; [reflexivity|]. apply list_elem_of_In, Hin. }
  rewrite Hnone. cbn. lia.
Qed.

End LogOnce.

(** Scenario D: two successive renders that both ask for six channels
    print exactly one warning; so do two renders of one raster, whose
    channel list the first render has cut down to four in place. *)
Example scenario_D :
  surfaced "renderChannels>4_to_RGBA"
    (logRun [Rendered [0; 1; 2; 3; 4; 5]; Rendered [0; 1; 2; 3; 4; 5]] emptyLog) = 1%nat /\
  surfaced "renderChannels>4_to_RGBA"
    (logRun [Rendered [0; 1; 2; 3; 4; 5]; Rendered [0; 1; 2; 3]] emptyLog) = 1%nat.
Proof. split; vm_compute; reflexivity. Qed.

(** Repeated worker warnings with one code print one line; a missing code
    falls back to the shared key. *)
Example worker_warnings_dedup :
  map Line.key (Log.console
    (logRun [WorkerWarned (Some "gpuPack_f16_clamp_worker") (Some "a");
             WorkerWarned (Some "gpuPack_f16_clamp_worker") (Some "b");
             WorkerWarned None None; WorkerWarned (Some "") (Some "c")] emptyLog))
  = ["gpuPack_f16_clamp_worker"; "RawTiffWorker_warn"].
Proof. vm_compute. reflexivity. Qed.

Section MainLog.

Context (BitmapOutput : Type)
        (postMessage : nat -> Request.t -> option (list nat) -> option exn).

(** Requests, replies, worker errors and teardown leave the warn-once state
    alone; warning messages and renders go through [logOnce]. *)
Lemma mainStep_logInv (st : Main BitmapOutput) ev :
  logInv (logState BitmapOutput st) ->
  logInv (logState BitmapOutput (mainStep BitmapOutput postMessage st ev)).
Proof.
  intros Hinv. destruct ev as [op payload transfer|wi msg|wi e| |ev]; cbn [mainStep].
  - unfold request. destruct (chooseWorker _) as [[bi best]|]; [|exact Hinv].
    destruct (postMessage _ _ _); exact Hinv.
  - destruct msg as [id r|id err|w]; cbn [poolOnMessage].
    + destruct (Pool.workers _ !! wi) as [entry|]; [|exact Hinv].
      destruct (Entry.callbacks entry !! id); exact Hinv.
    + destruct (Pool.workers _ !! wi) as [entry|]; [|exact Hinv].
      destruct (Entry.callbacks entry !! id); exact Hinv.
    + cbn [logState]. apply logOnce_inv, Hinv.
  - unfold poolOnError. destruct (Pool.workers _ !! wi); exact Hinv.
  - exact Hinv.
  - cbn [logState]. apply logStep_inv, Hinv.
Qed.

Lemma mainRun_logInv events :
  forall st : Main BitmapOutput,
    logInv (logState BitmapOutput st) ->
    logInv (logState BitmapOutput (mainRun BitmapOutput postMessage events st)).
Proof.
  induction events as [|ev events IH]; intros st Hinv; [exact Hinv|].
  cbn [mainRun fold_left]. apply IH, mainStep_logInv, Hinv.
Qed.

End MainLog.

(** C8: across any sequence of events on the controlling side (requests,
    worker replies, repeated worker warning messages, renders asking for
    more than four channels, any other call of [logOnce]), at most one
    console line is printed for any dedup key. *)
Theorem warning_surfaces_at_most_once
    (BitmapOutput : Type)
    (postMessage : nat -> Request.t -> option (list nat) -> option exn)
    (size : Z) (events : list (MainEvent BitmapOutput)) (key : string) :
  (surfaced key
     (logState BitmapOutput
        (mainRun BitmapOutput postMessage events (initMain BitmapOutput size))) <= 1)%nat.
Proof.
  unfold surfaced. apply surfaced_NoDup.
  apply (mainRun_logInv BitmapOutput postMessage events). exact logInv_empty.
Qed.

(** Two worker warnings with one code and two renders with six channels,
    between two requests: one console line per key. *)
Example warnings_between_requests :
  map Line.key (Log.console (logState unit
    (mainRun unit postOnlyFirst
       [ DoRequest unit "decodeRaster" (payloadWithIndex None) None;
         WorkerMessage unit 0 (PostWarn unit clampWarning);
         DoLog unit (Rendered [0; 1; 2; 3; 4; 5]);
         WorkerMessage unit 0 (PostWarn unit clampWarning);
         DoLog unit (Rendered [0; 1; 2; 3; 4; 5]);
         DoRequest unit "decodeRaster" (payloadWithIndex None) None ]
       (initMain unit 2))))
  = ["gpuPack_f16_clamp_worker"; "renderChannels>4_to_RGBA"].
Proof. vm_compute. reflexivity. Qed.

(** ** Dispatch bookkeeping *)

Section Dispatch.

Context (BitmapOutput : Type)
        (postMessage : nat -> Request.t -> option (list nat) -> option exn).

Lemma pickBest_lookup (all : list Entry.t) :
  forall ws i best,
    all !! fst best = Some (snd best) ->
    (forall j w, ws !! j = Some w -> all !! (i + j)%nat = Some w) ->
    all !! fst (pickBest best i ws) = Some (snd (pickBest best i ws)).
Proof.
  induction ws as [|w ws IH]; intros i best Hbest Hws; cbn [pickBest]; [exact Hbest|].
  apply IH.
  - destruct (_ <? _); [|exact Hbest].
    cbn [fst snd]. rewrite <- (Nat.add_0_r i). apply Hws. reflexivity.
  - intros j w' Hj. replace (S i + j)%nat with (i + S j)%nat by lia.
    apply Hws. exact Hj.
Qed.

Lemma chooseWorker_lookup ws bi best :
  chooseWorker ws = Some (bi, best) -> ws !! bi = Some best.
Proof.
  unfold chooseWorker. destruct ws as [|w0 ws']; [discriminate|].
  intros H.
  assert (Hpick : pickBest (0%nat, w0) 0 (w0 :: ws') = (bi, best)) by congruence.
  pose proof (pickBest_lookup (w0 :: ws') (w0 :: ws') 0 (0%nat, w0)
                eq_refl (fun j w H => H)) as Hl.
  rewrite Hpick in Hl. exact Hl.
Qed.

(** The chosen worker has the fewest outstanding requests. *)
Lemma pickBest_least :
  forall ws i best w,
    (w = snd best \/ w ∈ ws) ->
    Entry.pending (snd (pickBest best i ws)) <= Entry.pending w.
Proof.
  induction ws as [|w' ws IH]; intros i best w Hw; cbn [pickBest].
  - destruct Hw as [->|Hw]; [lia|inversion Hw].
  - destruct (Z.ltb_spec (Entry.pending w') (Entry.pending (snd best))) as [Hlt|Hge].
    + destruct Hw as [->|[->|Hw]%elem_of_cons].
      * etransitivity; [apply (IH (S i) (i, w') w'); left; reflexivity|].
        cbn [snd]. lia.
      * apply IH. left. reflexivity.
      * apply IH. right. exact Hw.
    + destruct Hw as [->|[->|Hw]%elem_of_cons].
      * apply IH. left. reflexivity.
      * etransitivity; [apply (IH (S i) best (snd best)); left; reflexivity|]. lia.
      * apply IH. right. exact Hw.
Qed.

(** The bookkeeping invariant holds of a new pool and is kept by every
    request and every handled message. *)
Lemma poolInv_newPool size : poolInv (newPool size).
Proof.
  intros i w Hw. cbn [newPool Pool.workers Pool._nextId] in *.
  rewrite list_lookup_fmap in Hw.
  destruct (seq 0 _ !! i) as [j|]; [|discriminate].
  injection Hw as <-. cbn [Entry.pending Entry.callbacks]. split; [lia|].
  intros id d Hd. rewrite lookup_empty in Hd. discriminate.
Qed.

Lemma poolInv_request op payload transfer (st : Main BitmapOutput) :
  poolInv (pool BitmapOutput st) ->
  poolInv (pool BitmapOutput (fst (request BitmapOutput postMessage op payload transfer st))).
Proof.
  intros Hinv. unfold request.
  destruct (chooseWorker _) as [[bi best]|] eqn:Hchoose.
  - pose proof (chooseWorker_lookup _ _ _ Hchoose) as Hbest.
    destruct (Hinv bi best Hbest) as [Hpending Hids].
    assert (Hstep : forall ws' : list Entry.t,
      (forall i w, ws' !! i = Some w ->
         (i <> bi /\ Pool.workers (pool BitmapOutput st) !! i = Some w) \/
         (0 <= Entry.pending w /\
          forall id d, Entry.callbacks w !! id = Some d ->
            id <= Pool._nextId (pool BitmapOutput st))) ->
      poolInv {| Pool.size := Pool.size (pool BitmapOutput st);
                 Pool.workers := ws';
                 Pool._nextId := Pool._nextId (pool BitmapOutput st) + 1 |}).
    { intros ws' Hws i w Hw. cbn [Pool.workers Pool._nextId] in *.
      destruct (Hws i w Hw) as [[_ Hold]|[Hp Hc]].
      - destruct (Hinv i w Hold) as [Hp Hc]. split; [exact Hp|].
        intros id d Hd. specialize (Hc id d Hd). lia.
      - split; [exact Hp|]. intros id d Hd. specialize (Hc id d Hd). lia. }
    destruct (postMessage _ _ _); cbn [fst pool]; apply Hstep; intros i w Hw.
    + destruct (decide (i = bi)) as [->|Hne].
      * right. rewrite list_insert_insert_eq in Hw.
        rewrite list_lookup_insert_eq in Hw by (apply lookup_lt_Some in Hbest; exact Hbest).
        injection Hw as <-. cbn [Entry.pending Entry.callbacks]. split; [lia|].
        intros id d Hd. rewrite delete_insert_eq in Hd.
        apply lookup_delete_Some in Hd as [_ Hd]. specialize (Hids id d Hd). lia.
      * left. rewrite !list_lookup_insert_ne in Hw by congruence. auto.
    + destruct (decide (i = bi)) as [->|Hne].
      * right.
        rewrite list_lookup_insert_eq in Hw by (apply lookup_lt_Some in Hbest; exact Hbest).
        injection Hw as <-. cbn [Entry.pending Entry.callbacks]. split; [lia|].
        intros id d Hd. destruct (decide (id = Pool._nextId (pool BitmapOutput st))) as [->|Hid].
        -- lia.
        -- rewrite lookup_insert_ne in Hd by congruence. specialize (Hids id d Hd). lia.
      * left. rewrite list_lookup_insert_ne in Hw by congruence. auto.
  - cbn [fst pool]. intros i w Hw. cbn [Pool.workers Pool._nextId] in *.
    destruct (Hinv i w Hw) as [Hp Hc]. split; [exact Hp|].
    intros id d Hd. specialize (Hc id d Hd). lia.
Qed.

Lemma poolInv_onmessage wi msg (st : Main BitmapOutput) :
  poolInv (pool BitmapOutput st) ->
  poolInv (pool BitmapOutput (poolOnMessage BitmapOutput wi msg st)).
Proof.
  intros Hinv.
  assert (Hreply : forall id,
    poolInv (pool BitmapOutput
      match Pool.workers (pool BitmapOutput st) !! wi with
      | None => st
      | Some entry =>
          match Entry.callbacks entry !! id with
          | None => st
          | Some cb =>
              {| pool := {| Pool.size := Pool.size (pool BitmapOutput st);
                            Pool.workers :=
                              <[wi := {| Entry.worker := Entry.worker entry;
                                         Entry.pending := Z.max 0 (Entry.pending entry - 1);
                                         Entry.callbacks := delete id (Entry.callbacks entry) |}]>
                                (Pool.workers (pool BitmapOutput st));
                            Pool._nextId := Pool._nextId (pool BitmapOutput st) |};
                 promises := promises BitmapOutput st;
                 logState := logState BitmapOutput st |}
          end
      end)).
  { intros id. destruct (Pool.workers _ !! wi) as [entry|] eqn:Hentry; [|exact Hinv].
    destruct (Entry.callbacks entry !! id) as [cb|]; [|exact Hinv].
    intros i w Hw. cbn [pool Pool.workers Pool._nextId] in *.
    destruct (decide (i = wi)) as [->|Hne].
    - rewrite list_lookup_insert_eq in Hw by (apply lookup_lt_Some in Hentry; exact Hentry).
      injection Hw as <-. cbn [Entry.pending Entry.callbacks]. split; [lia|].
      intros id' d Hd. apply lookup_delete_Some in Hd as [_ Hd].
      destruct (Hinv wi entry Hentry) as [_ Hc]. exact (Hc id' d Hd).
    - rewrite list_lookup_insert_ne in Hw by congruence. exact (Hinv i w Hw). }
  destruct msg as [id r|id err|w]; cbn [poolOnMessage].
  - specialize (Hreply id).
    destruct (Pool.workers _ !! wi) as [entry|]; [|exact Hinv].
    destruct (Entry.callbacks entry !! id); exact Hreply.
  - specialize (Hreply id).
    destruct (Pool.workers _ !! wi) as [entry|]; [|exact Hinv].
    destruct (Entry.callbacks entry !! id); exact Hreply.
  - exact Hinv.
Qed.

Lemma poolInv_onerror wi e (st : Main BitmapOutput) :
  poolInv (pool BitmapOutput st) ->
  poolInv (pool BitmapOutput (poolOnError BitmapOutput wi e st)).
Proof.
  intros Hinv. unfold poolOnError.
  destruct (Pool.workers _ !! wi) as [entry|] eqn:Hentry; [|exact Hinv].
  intros i w Hw. cbn [pool Pool.workers Pool._nextId] in *.
  destruct (decide (i = wi)) as [->|Hne].
  - rewrite list_lookup_insert_eq in Hw by (apply lookup_lt_Some in Hentry; exact Hentry).
    injection Hw as <-. cbn [Entry.pending Entry.callbacks]. split; [lia|].
    intros id d Hd. rewrite lookup_empty in Hd. discriminate.
  - rewrite list_lookup_insert_ne in Hw by congruence. exact (Hinv i w Hw).
Qed.

Lemma poolInv_mainStep (st : Main BitmapOutput) ev :
  poolInv (pool BitmapOutput st) ->
  poolInv (pool BitmapOutput (mainStep BitmapOutput postMessage st ev)).
Proof.
  intros Hinv. destruct ev as [op payload transfer|wi msg|wi e| |ev]; cbn [mainStep].
  - apply poolInv_request, Hinv.
  - apply poolInv_onmessage, Hinv.
  - apply poolInv_onerror, Hinv.
  - intros i w Hw. cbn in Hw. discriminate.
  - exact Hinv.
Qed.

(** Every state the controlling side can reach from a new pool satisfies
    the bookkeeping invariant. *)
Lemma poolInv_mainRun events :
  forall st : Main BitmapOutput,
    poolInv (pool BitmapOutput st) ->
    poolInv (pool BitmapOutput (mainRun BitmapOutput postMessage events st)).
Proof.
  induction events as [|ev events IH]; intros st Hinv; [exact Hinv|].
  cbn [mainRun fold_left]. apply IH, poolInv_mainStep, Hinv.
Qed.

(** A failed post undoes the bookkeeping, in any state that satisfies the
    invariant. *)
Lemma request_failure_undone
    (op : string) (payload : Payload.t) (transfer : option (list nat))
    (st : Main BitmapOutput) (bi : nat) (best : Entry.t) (e : exn) :
  poolInv (pool BitmapOutput st) ->
  chooseWorker (Pool.workers (pool BitmapOutput st)) = Some (bi, best) ->
  postMessage (Entry.worker best)
    {| Request.id := Pool._nextId (pool BitmapOutput st);
       Request.op := op; Request.payload := payload |}
    (transferArg transfer) = Some e ->
  let id := Pool._nextId (pool BitmapOutput st) in
  let st' := fst (request BitmapOutput postMessage op payload transfer st) in
  Pool.workers (pool BitmapOutput st') = Pool.workers (pool BitmapOutput st) /\
  snd (request BitmapOutput postMessage op payload transfer st) = ret id /\
  promises BitmapOutput st' !! id = Some (Rejected e) /\
  Pool._nextId (pool BitmapOutput st') = id + 1.
Proof.
  intros Hinv Hchoose Hpost id st'.
  pose proof (chooseWorker_lookup _ _ _ Hchoose) as Hbest.
  destruct (Hinv bi best Hbest) as [Hpending Hids].
  assert (Hfresh : Entry.callbacks best !! id = None).
  { destruct (Entry.callbacks best !! id) as [d|] eqn:Hd; [|reflexivity].
    specialize (Hids id d Hd). unfold id in Hids. lia. }
  unfold st', id in *. clear st' id. unfold request. rewrite Hchoose, Hpost.
  cbn [fst snd pool promises Pool.workers Pool._nextId Entry.pending
       Entry.callbacks Entry.worker].
  repeat split.
  - rewrite list_insert_insert_eq. apply list_insert_id.
    rewrite Hbest. f_equal. destruct best as [w p cbs].
    cbn [Entry.worker Entry.pending Entry.callbacks] in *.
    f_equal; [lia|]. symmetry. apply delete_insert_id. exact Hfresh.
  - unfold settle. rewrite lookup_insert_eq. apply lookup_insert_eq.
Qed.

End Dispatch.

(** C10: in every state the controlling side can reach from a new pool,
    when posting the request to the chosen worker throws, [request] leaves
    every pool entry as it was before the call (the correlation entry is
    removed again and the pending count is back to its value), and the
    returned promise is rejected with the thrown error; only the id counter
    has advanced. *)
Theorem request_post_failure_restores
    (BitmapOutput : Type)
    (postMessage : nat -> Request.t -> option (list nat) -> option exn)
    (size : Z) (events : list (MainEvent BitmapOutput))
    (op : string) (payload : Payload.t) (transfer : option (list nat))
    (bi : nat) (best : Entry.t) (e : exn) :
  let st := mainRun BitmapOutput postMessage events (initMain BitmapOutput size) in
  let id := Pool._nextId (pool BitmapOutput st) in
  chooseWorker (Pool.workers (pool BitmapOutput st)) = Some (bi, best) ->
  postMessage (Entry.worker best)
    {| Request.id := id; Request.op := op; Request.payload := payload |}
    (transferArg transfer) = Some e ->
  let st' := fst (request BitmapOutput postMessage op payload transfer st) in
  Pool.workers (pool BitmapOutput st') = Pool.workers (pool BitmapOutput st) /\
  snd (request BitmapOutput postMessage op payload transfer st) = ret id /\
  promises BitmapOutput st' !! id = Some (Rejected e) /\
  Pool._nextId (pool BitmapOutput st') = id + 1.
Proof.
  intros st id Hchoose Hpost.
  apply (request_failure_undone BitmapOutput postMessage op payload transfer
           st bi best e); [|exact Hchoose|exact Hpost].
  apply poolInv_mainRun, poolInv_newPool.
Qed.

(** After one accepted request worker 0 has one outstanding request; the
    next request goes to worker 1, its post throws, and both entries are
    as before while promise 2 is rejected. *)
Lemma request_post_failure_restores_witness :
  let st := mainRun unit postOnlyFirst
              [DoRequest unit "decodeRaster" (payloadWithIndex None) None]
              (initMain unit 2) in
  let st' := fst (request unit postOnlyFirst "decodeRaster"
                    (payloadWithIndex None) None st) in
  map Entry.pending (Pool.workers (pool unit st)) = [1; 0] /\
  Pool.workers (pool unit st') = Pool.workers (pool unit st) /\
  promises unit st' !! 2 = Some (Rejected cloneError).
Proof.
  intros st st'. split; [reflexivity|].
  pose proof (request_post_failure_restores unit postOnlyFirst 2
                [DoRequest unit "decodeRaster" (payloadWithIndex None) None]
                "decodeRaster" (payloadWithIndex None) None 1%nat
                {| Entry.worker := 1; Entry.pending := 0; Entry.callbacks := ∅ |}
                cloneError eq_refl eq_refl)
    as (Hworkers & _ & Hpromise & _).
  split; [exact Hworkers | exact Hpromise].
Defined.

(** ** Format resolver: merging configuration layers *)

Section DeepMerge.

Implicit Types (k : string) (v : value) (props : list (string * value)).

Lemma lookupOwn_None k props : lookupOwn k props = None <-> k ∉ props.*1.
Proof.
  induction props as [|[k' v'] rest IH]; cbn [lookupOwn fmap list_fmap fst].
  - split; [intros _; apply not_elem_of_nil|reflexivity].
  - rewrite not_elem_of_cons. destruct (decide (k' = k)) as [->|Hne].
    + split; [discriminate|intros [H _]; contradiction].
    + rewrite IH. split; [intros H; split; [congruence|exact H]|intros [_ H]; exact H].
Qed.

Lemma lookupOwn_Some_elem k v props : lookupOwn k props = Some v -> (k, v) ∈ props.
Proof.
  induction props as [|[k' v'] rest IH]; cbn [lookupOwn]; [discriminate|].
  destruct (decide (k' = k)) as [->|Hne].
  - intros [= ->]. apply elem_of_cons. left. reflexivity.
  - intros H. apply elem_of_cons. right. exact (IH H).
Qed.

Lemma lookupOwn_elem k v props :
  NoDup props.*1 -> (k, v) ∈ props -> lookupOwn k props = Some v.
Proof.
  induction props as [|[k' v'] rest IH]; cbn [lookupOwn fmap list_fmap fst];
    intros Hnd Hin.
  - inversion Hin.
  - apply NoDup_cons in Hnd as [Hk' Hnd]. apply elem_of_cons in Hin as [Heq|Hin].
    + injection Heq as -> ->. rewrite decide_True by reflexivity. reflexivity.
    + destruct (decide (k' = k)) as [->|Hne]; [|exact (IH Hnd Hin)].
      exfalso. apply Hk'. apply list_elem_of_fmap. exists (k, v). split; [reflexivity|exact Hin].
Qed.

Lemma lookupOwn_replaceOwn k k' v props :
  lookupOwn k' (replaceOwn k v props) =
    if decide (k' = k)
    then match lookupOwn k props with Some _ => Some v | None => None end
    else lookupOwn k' props.
Proof.
  induction props as [|[k1 v1] rest IH]; cbn [replaceOwn lookupOwn].
  - destruct (decide (k' = k)); reflexivity.
  - destruct (decide (k1 = k)) as [->|Hne]; cbn [lookupOwn].
    + destruct (decide (k = k')) as [->|Hne'].
      * rewrite decide_True by reflexivity. reflexivity.
      * rewrite decide_False by congruence. reflexivity.
    + rewrite IH. destruct (decide (k1 = k')) as [->|Hne'].
      * rewrite decide_False by congruence. reflexivity.
      * reflexivity.
Qed.

Lemma keys_replaceOwn k v props : (replaceOwn k v props).*1 = props.*1.
Proof.
  induction props as [|[k1 v1] rest IH]; cbn [replaceOwn fmap list_fmap fst];
    [reflexivity|].
  destruct (decide (k1 = k)) as [->|Hne]; cbn [fmap list_fmap fst].
  - reflexivity.
  - f_equal. exact IH.
Qed.

Lemma insertIndex_perm n k v props : insertIndex n k v props ≡ₚ (k, v) :: props.
Proof.
  induction props as [|[k1 v1] rest IH]; cbn [insertIndex]; [reflexivity|].
  destruct (arrayIndex k1) as [n'|]; [|reflexivity].
  destruct (n' <? n)%N; [|reflexivity].
  rewrite IH. apply Permutation_swap.
Qed.

Lemma insertNew_perm k v props : insertNew k v props ≡ₚ (k, v) :: props.
Proof.
  unfold insertNew. destruct (arrayIndex k) as [n|].
  - apply insertIndex_perm.
  - symmetry. apply Permutation_cons_append.
Qed.

Lemma lookupOwn_perm k props props' :
  NoDup props.*1 -> props ≡ₚ props' -> lookupOwn k props = lookupOwn k props'.
Proof.
  intros Hnd Hperm.
  assert (Hnd' : NoDup props'.*1) by (rewrite <- Hperm; exact Hnd).
  destruct (lookupOwn k props) as [v|] eqn:Hl.
  - symmetry. apply lookupOwn_elem; [exact Hnd'|].
    rewrite <- Hperm. apply lookupOwn_Some_elem. exact Hl.
  - symmetry. apply lookupOwn_None. rewrite <- Hperm. apply lookupOwn_None. exact Hl.
Qed.

Lemma lookupOwn_insertNew k k' v props :
  NoDup props.*1 -> k ∉ props.*1 ->
  lookupOwn k' (insertNew k v props) =
    if decide (k' = k) then Some v else lookupOwn k' props.
Proof.
  intros Hnd Hk.
  assert (Hnd' : NoDup (insertNew k v props).*1).
  { rewrite insertNew_perm. cbn. apply NoDup_cons. split; assumption. }
  rewrite (lookupOwn_perm k' _ _ Hnd' (insertNew_perm k v props)).
  cbn [lookupOwn]. destruct (decide (k = k')) as [->|Hne].
  - rewrite decide_True by reflexivity. reflexivity.
  - rewrite decide_False by congruence. reflexivity.
Qed.

Lemma findInherited_Accessor p k : findInherited p k = Accessor -> k = "__proto__".
Proof.
  induction p as [| |props p' IH|elems]; cbn [findInherited].
  - destruct (decide (k = "__proto__")); [intros _; assumption|discriminate].
  - discriminate.
  - destruct (lookupOwn k props); [discriminate|exact IH].
  - destruct (arrayOwn elems k); [discriminate|].
    destruct (decide (k = "__proto__")); [intros _; assumption|discriminate].
Qed.

(** An assignment to a name other than [__proto__] makes it an own
    property and touches nothing else. *)
Lemma setProp_own (out : object) k v k' :
  NoDup (own out).*1 -> k <> "__proto__" ->
  lookupOwn k' (own (setProp out k v)) =
    if decide (k' = k) then Some v else lookupOwn k' (own out).
Proof.
  intros Hnd Hk. unfold setProp.
  destruct (lookupOwn k (own out)) as [v0|] eqn:Hown.
  - cbn [own]. rewrite lookupOwn_replaceOwn, Hown. reflexivity.
  - destruct (findInherited (proto out) k) eqn:Hfind; cbn [own].
    + apply lookupOwn_insertNew; [exact Hnd|]. apply lookupOwn_None. exact Hown.
    + apply findInherited_Accessor in Hfind. contradiction.
    + apply lookupOwn_insertNew; [exact Hnd|]. apply lookupOwn_None. exact Hown.
Qed.

Lemma setProp_proto (out : object) k v :
  k <> "__proto__" -> proto (setProp out k v) = proto out.
Proof.
  intros Hk. unfold setProp.
  destruct (lookupOwn k (own out)); [reflexivity|].
  destruct (findInherited (proto out) k) eqn:Hfind; [reflexivity| |reflexivity].
  apply findInherited_Accessor in Hfind. contradiction.
Qed.

Lemma setProp_NoDup (out : object) k v :
  NoDup (own out).*1 -> NoDup (own (setProp out k v)).*1.
Proof.
  intros Hnd. unfold setProp.
  destruct (lookupOwn k (own out)) as [v0|] eqn:Hown.
  - cbn [own]. rewrite keys_replaceOwn. exact Hnd.
  - assert (Hnew : NoDup (insertNew k v (own out)).*1).
    { rewrite insertNew_perm. cbn. apply NoDup_cons.
      split; [apply lookupOwn_None; exact Hown|exact Hnd]. }
    destruct (findInherited (proto out) k); cbn [own]; [exact Hnew| |exact Hnew].
    destruct v; exact Hnd.
Qed.

(** Whatever the name, an assignment keeps every other own property. *)
Lemma setProp_other (out : object) k v k' :
  NoDup (own out).*1 -> k' <> k ->
  lookupOwn k' (own (setProp out k v)) = lookupOwn k' (own out).
Proof.
  intros Hnd Hne. unfold setProp.
  destruct (lookupOwn k (own out)) as [v0|] eqn:Hown.
  - cbn [own]. rewrite lookupOwn_replaceOwn, decide_False by exact Hne. reflexivity.
  - assert (Hnew : lookupOwn k' (insertNew k v (own out)) = lookupOwn k' (own out)).
    { rewrite lookupOwn_insertNew; [|exact Hnd|apply lookupOwn_None; exact Hown].
      rewrite decide_False by exact Hne. reflexivity. }
    destruct (findInherited (proto out) k); cbn [own]; [exact Hnew| |exact Hnew].
    destruct v; reflexivity.
Qed.

(** Under [Object.prototype], a name other than [__proto__] reads as an
    object exactly when it is an own property holding one. *)
Lemma objectAt_own (out : object) k :
  proto out = ObjectPrototype -> k <> "__proto__" ->
  objectAt out k =
    match lookupOwn k (own out) with
    | Some (Obj o _) => Some o
    | _ => None
    end.
Proof.
  intros Hp Hk. unfold objectAt. rewrite Hp. cbn [findInherited].
  rewrite decide_False by exact Hk.
  destruct (lookupOwn k (own out)) as [[]|]; reflexivity.
Qed.

Lemma mergeStep_own (out : object) k bv :
  proto out = ObjectPrototype -> k <> "__proto__" ->
  mergeStep out (k, bv) = setProp out k (mergedProperty (lookupOwn k (own out)) bv).
Proof.
  intros Hp Hk. unfold mergeStep, mergedProperty. cbn [fst snd].
  rewrite (objectAt_own out k Hp Hk).
  destruct bv; try reflexivity.
  destruct (lookupOwn k (own out)) as [[]|]; reflexivity.
Qed.

(** The loop of [deepMerge] is a left fold of [mergeStep] over the entries
    of [b]. *)
Lemma deepMerge_fold a (b : value) :
  deepMerge a b = fold_left mergeStep (ownEntries b) (assignFresh a).
Proof.
  destruct b as [| | | | |elems|bprops p]; try reflexivity.
  - cbn [deepMerge ownEntries].
    generalize (assignFresh a) as out.
    change (imap (fun i v => (pretty i, v)) elems)
      with (imap (fun i v => (pretty (0 + i)%nat, v)) elems).
    generalize 0%nat as i.
    induction elems as [|bv rest IH]; intros i out; [reflexivity|].
    cbn [imap fold_left]. rewrite IH. rewrite Nat.add_0_r.
    f_equal. apply imap_ext. intros j x _. cbn. f_equal. f_equal. lia.
  - cbn [deepMerge ownEntries].
    generalize (assignFresh a) as out.
    induction bprops as [|[k bv] rest IH]; intros out; [reflexivity|].
    cbn [fold_left]. rewrite IH. reflexivity.
Qed.

(** Keys and prototype of the fold, for entries none of which is named
    [__proto__]. *)
Lemma fold_mergeStep_own (entries : list (string * value)) :
  forall out : object,
    NoDup entries.*1 -> "__proto__" ∉ entries.*1 ->
    NoDup (own out).*1 -> proto out = ObjectPrototype ->
    let r := fold_left mergeStep entries out in
    NoDup (own r).*1 /\ proto r = ObjectPrototype /\
    forall k,
      lookupOwn k (own r) =
        match lookupOwn k entries with
        | Some bv => Some (mergedProperty (lookupOwn k (own out)) bv)
        | None => lookupOwn k (own out)
        end.
Proof.
  induction entries as [|[k1 bv1] rest IH]; intros out Hnd Hproto Hout Hp; cbn zeta.
  - cbn [fold_left lookupOwn]. auto.
  - cbn [fmap list_fmap fst] in Hnd, Hproto.
    apply NoDup_cons in Hnd as [Hk1 Hnd].
    apply not_elem_of_cons in Hproto as [Hne1 Hproto].
    cbn [fold_left]. rewrite (mergeStep_own out k1 bv1 Hp) by congruence.
    set (out1 := setProp out k1 (mergedProperty (lookupOwn k1 (own out)) bv1)).
    assert (Hout1 : NoDup (own out1).*1) by (apply setProp_NoDup; exact Hout).
    assert (Hp1 : proto out1 = ObjectPrototype).
    { unfold out1. rewrite setProp_proto by congruence. exact Hp. }
    destruct (IH out1 Hnd Hproto Hout1 Hp1) as (Hr & Hpr & Hlook).
    split; [exact Hr|]. split; [exact Hpr|].
    intros k. rewrite Hlook. cbn [lookupOwn].
    unfold out1. rewrite (setProp_own out k1 _ k Hout) by congruence.
    destruct (decide (k1 = k)) as [->|Hne].
    + rewrite decide_True by reflexivity.
      replace (lookupOwn k rest) with (@None value); [reflexivity|].
      symmetry. apply lookupOwn_None. exact Hk1.
    + rewrite decide_False by congruence. reflexivity.
Qed.

(** [Object.assign({}, a)] copies the own properties of an object none of
    which is named [__proto__]. *)
Lemma assignFresh_own a :
  NoDup a.*1 -> "__proto__" ∉ a.*1 ->
  NoDup (own (assignFresh a)).*1 /\ proto (assignFresh a) = ObjectPrototype /\
  forall k, lookupOwn k (own (assignFresh a)) = lookupOwn k a.
Proof.
  unfold assignFresh.
  assert (Hgen : forall out : object,
    NoDup a.*1 -> "__proto__" ∉ a.*1 ->
    NoDup (own out).*1 -> proto out = ObjectPrototype ->
    let r := fold_left (fun out kv => setProp out kv.1 kv.2) a out in
    NoDup (own r).*1 /\ proto r = ObjectPrototype /\
    forall k, lookupOwn k (own r) =
      match lookupOwn k a with Some v => Some v | None => lookupOwn k (own out) end).
  { induction a as [|[k1 v1] rest IH]; intros out Hnd Hproto Hout Hp; cbn zeta.
    - cbn [fold_left lookupOwn]. auto.
    - cbn [fmap list_fmap fst] in Hnd, Hproto.
      apply NoDup_cons in Hnd as [Hk1 Hnd].
      apply not_elem_of_cons in Hproto as [Hne1 Hproto].
      cbn [fold_left fst snd].
      assert (Hout1 : NoDup (own (setProp out k1 v1)).*1)
        by (apply setProp_NoDup; exact Hout).
      assert (Hp1 : proto (setProp out k1 v1) = ObjectPrototype).
      { rewrite setProp_proto by congruence. exact Hp. }
      destruct (IH (setProp out k1 v1) Hnd Hproto Hout1 Hp1) as (Hr & Hpr & Hlook).
      split; [exact Hr|]. split; [exact Hpr|].
      intros k. rewrite Hlook. cbn [lookupOwn].
      rewrite (setProp_own out k1 _ k Hout) by congruence.
      destruct (decide (k1 = k)) as [->|Hne].
      + rewrite decide_True by reflexivity.
        replace (lookupOwn k rest) with (@None value); [reflexivity|].
        symmetry. apply lookupOwn_None. exact Hk1.
      + rewrite decide_False by congruence. reflexivity. }
  intros Hnd Hproto.
  destruct (Hgen {| own := []; proto := ObjectPrototype |} Hnd Hproto
              (NoDup_nil_2) eq_refl) as (Hr & Hpr & Hlook).
  split; [exact Hr|]. split; [exact Hpr|].
  intros k. rewrite Hlook. cbn [own lookupOwn].
  destruct (lookupOwn k a); reflexivity.
Qed.

Lemma deepMerge_own a (b : value) :
  NoDup a.*1 -> "__proto__" ∉ a.*1 ->
  NoDup (ownEntries b).*1 -> "__proto__" ∉ (ownEntries b).*1 ->
  NoDup (own (deepMerge a b)).*1 /\
  ("__proto__" ∉ (own (deepMerge a b)).*1) /\
  proto (deepMerge a b) = ObjectPrototype /\
  forall k,
    lookupOwn k (own (deepMerge a b)) =
      match lookupOwn k (ownEntries b) with
      | Some bv => Some (mergedProperty (lookupOwn k a) bv)
      | None => lookupOwn k a
      end.
Proof.
  intros Ha Hpa Hb Hpb. rewrite deepMerge_fold.
  destruct (assignFresh_own a Ha Hpa) as (Hnd0 & Hp0 & Hlook0).
  destruct (fold_mergeStep_own (ownEntries b) (assignFresh a) Hb Hpb Hnd0 Hp0)
    as (Hnd & Hp & Hlook).
  assert (Hall : forall k,
    lookupOwn k (own (fold_left mergeStep (ownEntries b) (assignFresh a))) =
      match lookupOwn k (ownEntries b) with
      | Some bv => Some (mergedProperty (lookupOwn k a) bv)
      | None => lookupOwn k a
      end).
  { intros k. rewrite Hlook, Hlook0. reflexivity. }
  split; [exact Hnd|]. split; [|split; [exact Hp|exact Hall]].
  apply lookupOwn_None. rewrite Hall.
  replace (lookupOwn "__proto__" (ownEntries b)) with (@None value)
    by (symmetry; apply lookupOwn_None; exact Hpb).
  apply lookupOwn_None. exact Hpa.
Qed.

(** *** Plain values *)

Lemma plain_Obj props p :
  plain (Obj props p) = true <->
  p = ObjectPrototype /\ NoDup props.*1 /\ ("__proto__" ∉ props.*1) /\
  forall k v, (k, v) ∈ props -> plain v = true.
Proof.
  cbn [plain]. rewrite !andb_true_iff, !bool_decide_eq_true.
  assert (Hall : forall l : list (string * value),
    (fix all (l : list (string * value)) : bool :=
       match l with
       | [] => true
       | (_, v') :: rest => plain v' && all rest
       end) l = true <-> forall k v, (k, v) ∈ l -> plain v = true).
  { induction l as [|[k1 v1] rest IH].
    - split; [intros _ k v Hin; inversion Hin|reflexivity].
    - rewrite andb_true_iff, IH. split.
      + intros [H1 Hrest] k v Hin. apply elem_of_cons in Hin as [Heq|Hin].
        * injection Heq as -> ->. exact H1.
        * exact (Hrest k v Hin).
      + intros H. split.
        * apply (H k1). apply elem_of_cons. left. reflexivity.
        * intros k v Hin. apply (H k). apply elem_of_cons. right. exact Hin. }
  rewrite Hall. destruct p; intuition (try discriminate; auto).
Qed.

Lemma plain_Arr elems :
  plain (Arr elems) = true <-> forall v, v ∈ elems -> plain v = true.
Proof.
  cbn [plain]. induction elems as [|v1 rest IH].
  - split; [intros _ v Hin; inversion Hin|reflexivity].
  - rewrite andb_true_iff, IH. split.
    + intros [H1 Hrest] v Hin. apply elem_of_cons in Hin as [->|Hin];
        [exact H1|exact (Hrest v Hin)].
    + intros H. split.
      * apply H. apply elem_of_cons. left. reflexivity.
      * intros v Hin. apply H. apply elem_of_cons. right. exact Hin.
Qed.

Lemma pretty_N_go_no_underscore (x : N) (s s' : string) :
  s <> "_" +:+ s' -> pretty_N_go x s <> "_" +:+ s'.
Proof.
  revert s. induction (N.lt_wf_0 x) as [x _ IH]; intros s Hs.
  destruct (decide (x = 0%N)) as [->|Hx]; [rewrite pretty_N_go_0; exact Hs|].
  rewrite pretty_N_go_step by lia. apply IH; [apply N.div_lt; lia|].
  unfold pretty_N_char. repeat case_match; discriminate.
Qed.

Lemma pretty_nat_not_proto (i : nat) : pretty i <> "__proto__".
Proof.
  unfold pretty, pretty_nat, pretty, pretty_N.
  destruct (decide (N.of_nat i = 0%N)); [discriminate|].
  apply (pretty_N_go_no_underscore _ "" "_proto__"). discriminate.
Qed.

Lemma elem_of_index_entries (elems : list value) k v :
  (k, v) ∈ imap (fun i v => (pretty i, v)) elems -> v ∈ elems /\ exists i : nat, k = pretty i.
Proof.
  intros Hin. apply elem_of_lookup_imap in Hin as (i & x & Heq & Hx).
  injection Heq as -> ->. split; [eapply list_elem_of_lookup_2; exact Hx|].
  exists i. reflexivity.
Qed.

Lemma index_entries_keys (elems : list value) :
  (imap (fun i v => (pretty i, v)) elems).*1 = pretty <$> seq 0 (length elems).
Proof.
  change (imap (fun i v => (pretty i, v)) elems)
    with (imap (fun i v => (pretty (0 + i)%nat, v)) elems).
  generalize 0%nat as i. induction elems as [|v rest IH]; intros i; [reflexivity|].
  cbn [imap fmap list_fmap fst length seq]. rewrite Nat.add_0_r. f_equal.
  rewrite <- IH. f_equal. apply imap_ext. intros j x _. cbn. do 2 f_equal. lia.
Qed.

(** The entries that the loop visits for a plain [b]: distinct names, none
    of them [__proto__], each value plain and smaller than [b]. *)
Lemma plain_ownEntries (b : value) :
  plain b = true ->
  NoDup (ownEntries b).*1 /\ ("__proto__" ∉ (ownEntries b).*1) /\
  forall k v, (k, v) ∈ ownEntries b -> plain v = true.
Proof.
  intros Hb. destruct b as [| | | | |elems|bprops p]; cbn [ownEntries];
    try (split; [constructor|split; [apply not_elem_of_nil|intros k v Hin; inversion Hin]]).
  - rewrite index_entries_keys. split; [|split].
    + apply NoDup_fmap; [apply _|apply NoDup_seq].
    + intros (i & Hi & _)%list_elem_of_fmap. symmetry in Hi.
      exact (pretty_nat_not_proto i Hi).
    + intros k v Hin. apply elem_of_index_entries in Hin as [Hin _].
      exact (proj1 (plain_Arr elems) Hb v Hin).
  - apply plain_Obj in Hb as (_ & Hnd & Hproto & Hall). auto.
Qed.

Lemma valueSize_entry (b : value) k v :
  (k, v) ∈ ownEntries b -> (valueSize v < valueSize b)%nat.
Proof.
  destruct b as [| | | | |elems|bprops p]; cbn [ownEntries];
    try (intros Hin; inversion Hin; fail).
  - intros Hin. apply elem_of_index_entries in Hin as [Hin _]. clear k.
    cbn [valueSize]. induction elems as [|v1 rest IH]; [inversion Hin|].
    apply elem_of_cons in Hin as [->|Hin]; [lia|]. specialize (IH Hin).
    cbn [valueSize] in IH. lia.
  - intros Hin. cbn [valueSize]. induction bprops as [|[k1 v1] rest IH]; [inversion Hin|].
    apply elem_of_cons in Hin as [Heq|Hin].
    + injection Heq as -> ->. lia.
    + specialize (IH Hin). lia.
Qed.

(** *** Structure *)

Lemma structure_Obj props p : structure (Obj props p) = SObj (structureProps props).
Proof. reflexivity. Qed.

Lemma structureProps_lookup props k :
  structureProps props !! k = structure <$> lookupOwn k props.
Proof.
  induction props as [|[k1 v1] rest IH]; [apply lookup_empty|].
  change (structureProps ((k1, v1) :: rest))
    with (<[k1 := structure v1]> (structureProps rest)).
  cbn [lookupOwn]. destruct (decide (k1 = k)) as [->|Hne].
  - rewrite lookup_insert_eq. reflexivity.
  - rewrite lookup_insert_ne by exact Hne. exact IH.
Qed.

Lemma structure_ext props props' p p' :
  (forall k, structure <$> lookupOwn k props = structure <$> lookupOwn k props') ->
  structure (Obj props p) = structure (Obj props' p').
Proof.
  intros H. rewrite !structure_Obj. f_equal. apply map_eq. intros k.
  rewrite !structureProps_lookup. apply H.
Qed.

Lemma plainProps_spec a :
  plainProps a = true <->
  NoDup a.*1 /\ ("__proto__" ∉ a.*1) /\ forall k v, (k, v) ∈ a -> plain v = true.
Proof.
  unfold plainProps. rewrite plain_Obj. intuition.
Qed.

(** Merging a second time changes no structure, and merging keeps values
    plain; both by induction on the size of the later layer. *)
Lemma deepMerge_again_sized (n : nat) :
  forall b : value, (valueSize b < n)%nat -> plain b = true ->
    (forall a, plainProps a = true ->
       plain (objValue (deepMerge a b)) = true /\
       structure (objValue (deepMerge (own (deepMerge a b)) b)) =
         structure (objValue (deepMerge a b))) /\
    (forall m p, b = Obj m p -> structure (objValue (deepMerge m b)) = structure b).
Proof.
  induction n as [|n IH]; intros b Hsize Hb; [lia|].
  destruct (plain_ownEntries b Hb) as (Hbnd & Hbproto & Hbplain).
  assert (Hsub : forall k bv, lookupOwn k (ownEntries b) = Some bv ->
            (valueSize bv < n)%nat /\ plain bv = true).
  { intros k bv Hl. apply lookupOwn_Some_elem in Hl. split.
    - pose proof (valueSize_entry b k bv Hl). lia.
    - exact (Hbplain k bv Hl). }
  split.
  - intros a Ha. apply plainProps_spec in Ha as (Hand & Haproto & Haplain).
    destruct (deepMerge_own a b Hand Haproto Hbnd Hbproto) as (Hnd1 & Hproto1 & Hp1 & Hl1).
    destruct (deepMerge_own (own (deepMerge a b)) b Hnd1 Hproto1 Hbnd Hbproto)
      as (_ & _ & _ & Hl2).
    split.
    + unfold objValue. rewrite Hp1. apply plain_Obj.
      split; [reflexivity|]. split; [exact Hnd1|]. split; [exact Hproto1|].
      intros k v Hin. apply (lookupOwn_elem k v _ Hnd1) in Hin.
      rewrite Hl1 in Hin.
      destruct (lookupOwn k (ownEntries b)) as [bv|] eqn:Hbk.
      * injection Hin as <-. destruct (Hsub k bv Hbk) as [Hlt Hbv].
        unfold mergedProperty. destruct bv; try exact Hbv.
        destruct (lookupOwn k a) as [[| | | | | |am pa]|] eqn:Hak; try exact Hbv.
        apply (IH _ Hlt Hbv). apply plainProps_spec.
        apply lookupOwn_Some_elem in Hak. apply Haplain in Hak.
        apply plain_Obj in Hak as (_ & H1 & H2 & H3). auto.
      * apply lookupOwn_Some_elem in Hin. exact (Haplain k v Hin).
    + unfold objValue. apply structure_ext. intros k. rewrite Hl2, Hl1.
      destruct (lookupOwn k (ownEntries b)) as [bv|] eqn:Hbk; [|reflexivity].
      destruct (Hsub k bv Hbk) as [Hlt Hbv]. cbn [fmap option_fmap option_map]. f_equal.
      unfold mergedProperty at 1. destruct bv as [| | | | | |bm pb]; try reflexivity.
      unfold mergedProperty.
      destruct (lookupOwn k a) as [[| | | | | |am pa]|] eqn:Hak;
        try (unfold objValue; cbn [own proto];
             exact (proj2 (IH _ Hlt Hbv) bm pb eq_refl)).
      unfold objValue at 2. cbn [own].
      apply (IH _ Hlt Hbv). apply plainProps_spec.
      apply lookupOwn_Some_elem in Hak. apply Haplain in Hak.
      apply plain_Obj in Hak as (_ & H1 & H2 & H3). auto.
  - intros m p ->. cbn [ownEntries] in *.
    destruct (deepMerge_own m (Obj m p) Hbnd Hbproto Hbnd Hbproto) as (_ & _ & _ & Hl).
    unfold objValue. apply structure_ext. intros k. rewrite Hl.
    cbn [ownEntries].
    destruct (lookupOwn k m) as [bv|] eqn:Hbk; [|reflexivity].
    destruct (Hsub k bv Hbk) as [Hlt Hbv]. cbn [fmap option_fmap option_map]. f_equal.
    unfold mergedProperty. destruct bv as [| | | | | |bm pb]; try reflexivity.
    exact (proj2 (IH _ Hlt Hbv) bm pb eq_refl).
Qed.

End DeepMerge.

(** Merging an override into the defaults keeps the sibling options of a
    nested object and replaces the array wholesale. *)
Example deepMerge_defaults :
  lookupOwn "gpu" (own (deepMerge defaultFormat formatOverride)) =
    Some (literal [ ("preferRGBA8", Bool true);
                    ("forceRGBA16F", Bool true);
                    ("packMode", Str "packsOf4") ]) /\
  lookupOwn "channels" (own (deepMerge defaultFormat formatOverride)) =
    Some (Arr [Num (JS.ofZ 2); Num (JS.ofZ 0)]) /\
  lookupOwn "interpretation" (own (deepMerge defaultFormat formatOverride)) =
    Some (Str "auto") /\
  objValue (deepMerge defaultFormat Null) = literal defaultFormat.
Proof. repeat split; vm_compute; reflexivity. Qed.

(** An own property [__proto__] of the later layer is assigned through the
    accessor: a number is dropped, and an object becomes the prototype of
    the result, through which later keys are read. *)
Example deepMerge_proto_layer :
  deepMerge [] protoLayer = {| own := []; proto := ObjectPrototype |} /\
  deepMerge []
    (literal [ ("__proto__", literal [ ("gpu", literal [ ("x", Bool true) ]) ]);
               ("gpu", literal [ ("y", Bool false) ]) ])
  = {| own := [ ("gpu", literal [ ("x", Bool true); ("y", Bool false) ]) ];
       proto := ObjectProto [ ("gpu", literal [ ("x", Bool true) ]) ] ObjectPrototype |}.
Proof. split; vm_compute; reflexivity. Qed.

(** C9, as worded, fails: the later layer [{"__proto__": 5}], as
    [JSON.parse] gives it, does not win under its key: the assignment goes
    through the prototype accessor, which ignores a number, and the result
    has no such property. *)
Lemma proto_key_is_not_merged : ~ deepMerge_merges_every_key.
Proof.
  intros H.
  destruct (H [] [("__proto__", Num (JS.ofZ 5))] "__proto__" (Num (JS.ofZ 5))
              (NoDup_nil_2) (NoDup_singleton _) eq_refl) as [Hkey _].
  vm_compute in Hkey. discriminate Hkey.
Qed.

(** C9, amended: for plain configuration values (objects and arrays as
    literals and [JSON.parse] make them, none with an own property named
    [__proto__]), [deepMerge] merges key by key: a key absent from the
    later layer keeps the earlier value; an array or scalar of the later
    layer replaces the earlier value wholesale; two objects under one key
    are merged recursively; an object of the later layer replaces an
    earlier value that is not an object.  The result is again plain, and
    applying the same layer again gives a structurally identical result. *)
Theorem deepMerge_layered_idempotent (a : list (string * value)) (b : value) :
  plainProps a = true ->
  plain b = true ->
  (forall bprops p k, b = Obj bprops p ->
     (lookupOwn k bprops = None ->
        lookupOwn k (own (deepMerge a b)) = lookupOwn k a) /\
     (forall bv, lookupOwn k bprops = Some bv -> (forall m q, bv <> Obj m q) ->
        lookupOwn k (own (deepMerge a b)) = Some bv) /\
     (forall am pa bm pb,
        lookupOwn k bprops = Some (Obj bm pb) -> lookupOwn k a = Some (Obj am pa) ->
        lookupOwn k (own (deepMerge a b)) =
          Some (objValue (deepMerge am (Obj bm pb)))) /\
     (forall bm pb,
        lookupOwn k bprops = Some (Obj bm pb) ->
        (forall am pa, lookupOwn k a <> Some (Obj am pa)) ->
        lookupOwn k (own (deepMerge a b)) = Some (Obj bm pb))) /\
  plain (objValue (deepMerge a b)) = true /\
  structure (objValue (deepMerge (own (deepMerge a b)) b)) =
    structure (objValue (deepMerge a b)).
Proof.
  intros Ha Hb.
  destruct (proj1 (deepMerge_again_sized (S (valueSize b)) b (Nat.lt_succ_diag_r _) Hb)
              a Ha) as [Hplain Hagain].
  split; [|split; [exact Hplain|exact Hagain]].
  intros bprops p k ->.
  apply plainProps_spec in Ha as (Hand & Haproto & _).
  destruct (plain_ownEntries _ Hb) as (Hbnd & Hbproto & _).
  destruct (deepMerge_own a (Obj bprops p) Hand Haproto Hbnd Hbproto)
    as (_ & _ & _ & Hlook).
  rewrite Hlook. cbn [ownEntries]. repeat split.
  - intros ->. reflexivity.
  - intros bv -> Hscalar. f_equal. unfold mergedProperty.
    destruct bv; try reflexivity. exfalso. eapply Hscalar. reflexivity.
  - intros am pa bm pb -> ->. reflexivity.
  - intros bm pb -> Hnot. f_equal. unfold mergedProperty.
    destruct (lookupOwn k a) as [[]|]; try reflexivity.
    exfalso. eapply Hnot. reflexivity.
Qed.

Lemma deepMerge_layered_idempotent_witness :
  lookupOwn "channels" (own (deepMerge defaultFormat formatOverride)) =
    Some (Arr [Num (JS.ofZ 2); Num (JS.ofZ 0)]) /\
  plain (objValue (deepMerge defaultFormat formatOverride)) = true /\
  structure (objValue (deepMerge (own (deepMerge defaultFormat formatOverride))
                         formatOverride)) =
    structure (objValue (deepMerge defaultFormat formatOverride)).
Proof.
  destruct (deepMerge_layered_idempotent defaultFormat formatOverride eq_refl eq_refl)
    as (Hkeys & Hplain & Hagain).
  split; [|split; [exact Hplain|exact Hagain]].
  refine (proj1 (proj2 (Hkeys _ ObjectPrototype "channels" eq_refl)) _ eq_refl _).
  intros m q. discriminate.
Defined.

(** * Further properties *)

(** ** Worker pool: dispatch policy *)

Lemma pickBest_keep :
  forall ws i b,
    Entry.pending (snd (pickBest b i ws)) = Entry.pending (snd b) ->
    pickBest b i ws = b.
Proof.
  induction ws as [|x ws IH]; intros i b Heq; cbn [pickBest] in *; [reflexivity|].
  destruct (Z.ltb_spec (Entry.pending x) (Entry.pending (snd b))) as [Hlt|Hge].
  - exfalso.
    assert (Entry.pending (snd (pickBest (i, x) (S i) ws)) <= Entry.pending x)
      by (apply (pickBest_least ws (S i) (i, x) x); left; reflexivity).
    lia.
  - apply IH. exact Heq.
Qed.

Lemma pickBest_first :
  forall ws i best k w,
    (fst best <= i)%nat ->
    ws !! k = Some w ->
    (i + k < fst (pickBest best i ws))%nat ->
    Entry.pending (snd (pickBest best i ws)) < Entry.pending w.
Proof.
  induction ws as [|x ws IH]; intros i best k w Hbest Hw Hk; [inversion Hw|].
  destruct k as [|k].
  - cbn in Hw. injection Hw as ->. cbn [pickBest] in *.
    destruct (Z.ltb_spec (Entry.pending w) (Entry.pending (snd best))) as [Hlt|Hge].
    + assert (Hle : Entry.pending (snd (pickBest (i, w) (S i) ws)) <= Entry.pending w)
        by (apply (pickBest_least ws (S i) (i, w) w); left; reflexivity).
      destruct (Z.eq_dec (Entry.pending (snd (pickBest (i, w) (S i) ws)))
                         (Entry.pending w)) as [Heq|Hne]; [|lia].
      rewrite (pickBest_keep ws (S i) (i, w) Heq) in Hk. cbn in Hk. lia.
    + assert (Hle : Entry.pending (snd (pickBest best (S i) ws))
                    <= Entry.pending (snd best))
        by (apply (pickBest_least ws (S i) best (snd best)); left; reflexivity).
      destruct (Z.eq_dec (Entry.pending (snd (pickBest best (S i) ws)))
                         (Entry.pending (snd best))) as [Heq|Hne]; [|lia].
      rewrite (pickBest_keep ws (S i) best Heq) in Hk. lia.
  - cbn in Hw. cbn [pickBest] in *.
    apply (IH (S i) _ k w); [|exact Hw|].
    + destruct (_ <? _); cbn [fst]; lia.
    + replace (S i + k)%nat with (i + S k)%nat by lia. exact Hk.
Qed.

(** X1. [request] picks a worker with the fewest outstanding requests, and
    among equally loaded workers the one that comes first in the pool. *)
Theorem chooseWorker_least_loaded_first (ws : list Entry.t) :
  ws <> [] ->
  exists bi best,
    chooseWorker ws = Some (bi, best) /\
    ws !! bi = Some best /\
    (forall w, w ∈ ws -> Entry.pending best <= Entry.pending w) /\
    (forall j w, (j < bi)%nat -> ws !! j = Some w ->
       Entry.pending best < Entry.pending w).
Proof.
  intros Hne. destruct ws as [|w0 rest]; [congruence|].
  destruct (pickBest (0%nat, w0) 0 (w0 :: rest)) as [bi best] eqn:Hpick.
  assert (Hchoose : chooseWorker (w0 :: rest) = Some (bi, best))
    by (unfold chooseWorker; rewrite Hpick; reflexivity).
  exists bi, best. split; [exact Hchoose|]. split; [|split].
  - exact (chooseWorker_lookup _ _ _ Hchoose).
  - intros w Hw.
    pose proof (pickBest_least (w0 :: rest) 0 (0%nat, w0) w (or_intror Hw)) as H.
    rewrite Hpick in H. exact H.
  - intros j w Hj Hw.
    pose proof (pickBest_first (w0 :: rest) 0 (0%nat, w0) j w) as H.
    rewrite Hpick in H. cbn [fst snd] in H. apply H; [lia|exact Hw|lia].
Qed.

Lemma chooseWorker_least_loaded_first_witness :
  busyFirst <> [] /\
  exists bi best,
    chooseWorker busyFirst = Some (bi, best) /\
    busyFirst !! bi = Some best /\
    (forall w, w ∈ busyFirst -> Entry.pending best <= Entry.pending w) /\
    (forall j w, (j < bi)%nat -> busyFirst !! j = Some w ->
       Entry.pending best < Entry.pending w).
Proof.
  assert (Hne : busyFirst <> []) by discriminate.
  split; [exact Hne|]. exact (chooseWorker_least_loaded_first busyFirst Hne).
Defined.

(** ** Worker pool: bookkeeping over every run *)

Section PoolFacts.

Variable BitmapOutput : Type.
Variable postMessage : nat -> Request.t -> option (list nat) -> option exn.

Lemma poolCounts_newPool size : poolCounts (newPool size).
Proof.
  intros i w Hw. cbn [newPool Pool.workers] in Hw.
  rewrite list_lookup_fmap in Hw.
  destruct (seq 0 _ !! i) as [j|]; [|discriminate].
  injection Hw as <-. reflexivity.
Qed.

Lemma poolCounts_request op payload transfer (st : Main BitmapOutput) :
  poolInv (pool BitmapOutput st) ->
  poolCounts (pool BitmapOutput st) ->
  poolCounts (pool BitmapOutput
    (fst (request BitmapOutput postMessage op payload transfer st))).
Proof.
  intros Hinv Hcnt. unfold request.
  destruct (chooseWorker _) as [[bi best]|] eqn:Hchoose; [|exact Hcnt].
  pose proof (chooseWorker_lookup _ _ _ Hchoose) as Hbest.
  destruct (Hinv bi best Hbest) as [Hpending Hids].
  assert (Hfresh : Entry.callbacks best !! Pool._nextId (pool BitmapOutput st) = None).
  { destruct (Entry.callbacks best !! _) as [d|] eqn:Hd; [|reflexivity].
    specialize (Hids _ d Hd). lia. }
  pose proof (Hcnt bi best Hbest) as Hc.
  destruct (postMessage _ _ _); cbn [fst pool]; intros i w Hw;
    cbn [Pool.workers] in Hw.
  - destruct (decide (i = bi)) as [->|Hne].
    + rewrite list_insert_insert_eq in Hw.
      rewrite list_lookup_insert_eq in Hw by (apply lookup_lt_Some in Hbest; exact Hbest).
      injection Hw as <-. cbn [Entry.pending Entry.callbacks].
      rewrite delete_insert_id by exact Hfresh. lia.
    + rewrite !list_lookup_insert_ne in Hw by congruence. exact (Hcnt i w Hw).
  - destruct (decide (i = bi)) as [->|Hne].
    + rewrite list_lookup_insert_eq in Hw by (apply lookup_lt_Some in Hbest; exact Hbest).
      injection Hw as <-. cbn [Entry.pending Entry.callbacks].
      rewrite map_size_insert_None by exact Hfresh. lia.
    + rewrite list_lookup_insert_ne in Hw by congruence. exact (Hcnt i w Hw).
Qed.

Lemma poolCounts_onmessage wi msg (st : Main BitmapOutput) :
  poolCounts (pool BitmapOutput st) ->
  poolCounts (pool BitmapOutput (poolOnMessage BitmapOutput wi msg st)).
Proof.
  intros Hcnt.
  assert (Hreply : forall id (s : PromiseState (WorkResult BitmapOutput)),
    poolCounts (pool BitmapOutput
      match Pool.workers (pool BitmapOutput st) !! wi with
      | None => st
      | Some entry =>
          match Entry.callbacks entry !! id with
          | None => st
          | Some cb =>
              {| pool := {| Pool.size := Pool.size (pool BitmapOutput st);
                            Pool.workers :=
                              <[wi := {| Entry.worker := Entry.worker entry;
                                         Entry.pending := Z.max 0 (Entry.pending entry - 1);
                                         Entry.callbacks := delete id (Entry.callbacks entry) |}]>
                                (Pool.workers (pool BitmapOutput st));
                            Pool._nextId := Pool._nextId (pool BitmapOutput st) |};
                 promises := settle BitmapOutput cb s (promises BitmapOutput st);
                 logState := logState BitmapOutput st |}
          end
      end)).
  { intros id s. destruct (Pool.workers _ !! wi) as [entry|] eqn:Hentry; [|exact Hcnt].
    destruct (Entry.callbacks entry !! id) as [cb|] eqn:Hcb; [|exact Hcnt].
    intros i w Hw. cbn [pool Pool.workers] in *.
    destruct (decide (i = wi)) as [->|Hne].
    - rewrite list_lookup_insert_eq in Hw by (apply lookup_lt_Some in Hentry; exact Hentry).
      injection Hw as <-. cbn [Entry.pending Entry.callbacks].
      pose proof (Hcnt wi entry Hentry) as Hc.
      pose proof (map_size_delete id (Entry.callbacks entry)) as Hsz.
      rewrite Hcb in Hsz.
      assert (Hpos : size (Entry.callbacks entry) <> 0%nat)
        by (apply map_size_ne_0_lookup; exists id; rewrite Hcb; eauto).
      lia.
    - rewrite list_lookup_insert_ne in Hw by congruence. exact (Hcnt i w Hw). }
  destruct msg as [id r|id err|w]; cbn [poolOnMessage].
  - exact (Hreply id _).
  - exact (Hreply id _).
  - exact Hcnt.
Qed.

Lemma poolCounts_onerror wi e (st : Main BitmapOutput) :
  poolCounts (pool BitmapOutput st) ->
  poolCounts (pool BitmapOutput (poolOnError BitmapOutput wi e st)).
Proof.
  intros Hcnt. unfold poolOnError.
  destruct (Pool.workers _ !! wi) as [entry|] eqn:Hentry; [|exact Hcnt].
  intros i w Hw. cbn [pool Pool.workers] in *.
  destruct (decide (i = wi)) as [->|Hne].
  - rewrite list_lookup_insert_eq in Hw by (apply lookup_lt_Some in Hentry; exact Hentry).
    injection Hw as <-. reflexivity.
  - rewrite list_lookup_insert_ne in Hw by congruence. exact (Hcnt i w Hw).
Qed.

Lemma poolCounts_mainRun events :
  forall st : Main BitmapOutput,
    poolInv (pool BitmapOutput st) ->
    poolCounts (pool BitmapOutput st) ->
    poolCounts (pool BitmapOutput (mainRun BitmapOutput postMessage events st)).
Proof.
  induction events as [|ev events IH]; intros st Hinv Hcnt; [exact Hcnt|].
  cbn [mainRun fold_left]. apply IH.
  - apply poolInv_mainStep. exact Hinv.
  - destruct ev as [op payload transfer|wi msg|wi e| |lev]; cbn [mainStep].
    + apply poolCounts_request; assumption.
    + apply poolCounts_onmessage; assumption.
    + apply poolCounts_onerror; assumption.
    + intros i w Hw. inversion Hw.
    + exact Hcnt.
Qed.

End PoolFacts.

(** X2. In every state the pool can reach, the load count of each worker
    is exactly the number of requests waiting in its correlation table. *)
Theorem pending_counts_outstanding
    (BitmapOutput : Type)
    (postMessage : nat -> Request.t -> option (list nat) -> option exn)
    (n : Z) (events : list (MainEvent BitmapOutput)) (i : nat) (w : Entry.t) :
  Pool.workers (pool BitmapOutput
    (mainRun BitmapOutput postMessage events (initMain BitmapOutput n))) !! i
    = Some w ->
  Entry.pending w = Z.of_nat (size (Entry.callbacks w)).
Proof.
  apply (poolCounts_mainRun BitmapOutput postMessage events).
  - apply poolInv_newPool.
  - apply poolCounts_newPool.
Qed.

Lemma pending_counts_outstanding_witness :
  let st := mainRun unit postAlways
              [DoRequest unit "decodeRaster" (payloadWithIndex None) None;
               DoRequest unit "decodeRaster" (payloadWithIndex None) None;
               DoRequest unit "decodeRaster" (payloadWithIndex None) None]
              (initMain unit 2) in
  exists w, Pool.workers (pool unit st) !! 0%nat = Some w /\
            Entry.pending w = 2 /\
            Entry.pending w = Z.of_nat (size (Entry.callbacks w)).
Proof.
  eexists. split; [reflexivity|]. split; [reflexivity|].
  apply (pending_counts_outstanding unit postAlways 2
           [DoRequest unit "decodeRaster" (payloadWithIndex None) None;
            DoRequest unit "decodeRaster" (payloadWithIndex None) None;
            DoRequest unit "decodeRaster" (payloadWithIndex None) None] 0%nat).
  reflexivity.
Defined.

(** ** Worker pool: request ids *)

Section PoolIds.

Variable BitmapOutput : Type.
Variable postMessage : nat -> Request.t -> option (list nat) -> option exn.

Lemma nextId_mainStep (st : Main BitmapOutput) ev :
  Pool._nextId (pool BitmapOutput (mainStep BitmapOutput postMessage st ev)) =
  Pool._nextId (pool BitmapOutput st) + (if isRequest ev then 1 else 0).
Proof.
  destruct ev as [op payload transfer|wi msg|wi e| |lev]; cbn [mainStep isRequest].
  - unfold request. destruct (chooseWorker _) as [[bi best]|]; [|reflexivity].
    destruct (postMessage _ _ _); reflexivity.
  - destruct msg as [id r|id err|w]; cbn [poolOnMessage]; try (cbn; lia);
      destruct (Pool.workers _ !! wi) as [entry|]; try (cbn; lia);
      destruct (Entry.callbacks entry !! id); cbn; lia.
  - unfold poolOnError. destruct (Pool.workers _ !! wi); cbn; lia.
  - cbn. lia.
  - cbn. lia.
Qed.

Lemma nextId_mainRun events :
  forall st : Main BitmapOutput,
    Pool._nextId (pool BitmapOutput (mainRun BitmapOutput postMessage events st)) =
    Pool._nextId (pool BitmapOutput st) +
    Z.of_nat (length (List.filter isRequest events)).
Proof.
  induction events as [|ev events IH]; intros st; cbn [mainRun fold_left List.filter].
  - cbn. lia.
  - fold (mainRun BitmapOutput postMessage events
            (mainStep BitmapOutput postMessage st ev)).
    rewrite IH, nextId_mainStep. destruct (isRequest ev); cbn [length]; lia.
Qed.

End PoolIds.

(** X3. Request ids are handed out consecutively from 1 and never reused:
    after any run with [k] calls of [request] (whether or not they could be
    posted, and whatever replies, worker errors or [terminate] calls came in
    between) the next request gets id [k + 1]. *)
Theorem request_ids_consecutive
    (BitmapOutput : Type)
    (postMessage : nat -> Request.t -> option (list nat) -> option exn)
    (n : Z) (events : list (MainEvent BitmapOutput)) :
  Pool._nextId (pool BitmapOutput
    (mainRun BitmapOutput postMessage events (initMain BitmapOutput n)))
  = Z.of_nat (length (List.filter isRequest events)) + 1.
Proof.
  rewrite nextId_mainRun. cbn. lia.
Qed.

(** ** Worker pool: a request and its reply *)

Section PoolReplies.

Variable BitmapOutput : Type.
Variable postMessage : nat -> Request.t -> option (list nat) -> option exn.

Lemma request_then_reply
    (op : string) (payload : Payload.t) (transfer : option (list nat))
    (st : Main BitmapOutput) (bi : nat) (best : Entry.t)
    (s : PromiseState (WorkResult BitmapOutput)) :
  poolInv (pool BitmapOutput st) ->
  chooseWorker (Pool.workers (pool BitmapOutput st)) = Some (bi, best) ->
  postMessage (Entry.worker best)
    {| Request.id := Pool._nextId (pool BitmapOutput st);
       Request.op := op; Request.payload := payload |}
    (transferArg transfer) = None ->
  let id := Pool._nextId (pool BitmapOutput st) in
  let st1 := fst (request BitmapOutput postMessage op payload transfer st) in
  snd (request BitmapOutput postMessage op payload transfer st) = ret id /\
  promises BitmapOutput st1 !! id = Some Pending /\
  Pool.workers (pool BitmapOutput st1) !! bi =
    Some {| Entry.worker := Entry.worker best;
            Entry.pending := Entry.pending best + 1;
            Entry.callbacks := <[id := id]> (Entry.callbacks best) |} /\
  <[bi := {| Entry.worker := Entry.worker best;
             Entry.pending := Z.max 0 (Entry.pending best + 1 - 1);
             Entry.callbacks := delete id (<[id := id]> (Entry.callbacks best)) |}]>
    (Pool.workers (pool BitmapOutput st1)) = Pool.workers (pool BitmapOutput st) /\
  settle BitmapOutput id s (promises BitmapOutput st1) !! id = Some s.
Proof.
  intros Hinv Hchoose Hpost id st1.
  pose proof (chooseWorker_lookup _ _ _ Hchoose) as Hbest.
  destruct (Hinv bi best Hbest) as [Hpending Hids].
  assert (Hfresh : Entry.callbacks best !! id = None).
  { destruct (Entry.callbacks best !! id) as [d|] eqn:Hd; [|reflexivity].
    specialize (Hids id d Hd). unfold id in Hids. lia. }
  assert (Hlen : (bi < length (Pool.workers (pool BitmapOutput st)))%nat)
    by (apply lookup_lt_Some in Hbest; exact Hbest).
  unfold st1, id in *. clear st1 id. unfold request. rewrite Hchoose, Hpost.
  cbn [fst snd pool promises Pool.workers Pool._nextId].
  split; [reflexivity|]. split; [apply lookup_insert_eq|].
  split; [apply list_lookup_insert_eq; exact Hlen|]. split.
  - rewrite list_insert_insert_eq. apply list_insert_id.
    rewrite Hbest. f_equal. destruct best as [w p cbs].
    cbn [Entry.worker Entry.pending Entry.callbacks] in *.
    f_equal; [lia|]. symmetry. apply delete_insert_id. exact Hfresh.
  - unfold settle. rewrite lookup_insert_eq. apply lookup_insert_eq.
Qed.

End PoolReplies.

(** X4. A request that was posted and is then answered by its worker is
    settled with the answer (fulfilled with the result, or rejected with
    the error text, [Unknown error] for an empty one), and the pool's
    bookkeeping is back to what it was before the request. *)
Theorem request_reply_round_trip
    (BitmapOutput : Type)
    (postMessage : nat -> Request.t -> option (list nat) -> option exn)
    (n : Z) (events : list (MainEvent BitmapOutput))
    (op : string) (payload : Payload.t) (transfer : option (list nat))
    (bi : nat) (best : Entry.t) :
  let st := mainRun BitmapOutput postMessage events (initMain BitmapOutput n) in
  let id := Pool._nextId (pool BitmapOutput st) in
  let st1 := fst (request BitmapOutput postMessage op payload transfer st) in
  chooseWorker (Pool.workers (pool BitmapOutput st)) = Some (bi, best) ->
  postMessage (Entry.worker best)
    {| Request.id := id; Request.op := op; Request.payload := payload |}
    (transferArg transfer) = None ->
  snd (request BitmapOutput postMessage op payload transfer st) = ret id /\
  promises BitmapOutput st1 !! id = Some Pending /\
  (forall result,
     let st2 := poolOnMessage BitmapOutput bi (PostOk BitmapOutput id result) st1 in
     promises BitmapOutput st2 !! id = Some (Fulfilled result) /\
     Pool.workers (pool BitmapOutput st2) = Pool.workers (pool BitmapOutput st)) /\
  (forall err,
     let st2 := poolOnMessage BitmapOutput bi (PostError BitmapOutput id err) st1 in
     promises BitmapOutput st2 !! id =
       Some (Rejected (ErrorObject (rtErrorToString err))) /\
     Pool.workers (pool BitmapOutput st2) = Pool.workers (pool BitmapOutput st)).
Proof.
  intros st id st1 Hchoose Hpost.
  assert (Hinv : poolInv (pool BitmapOutput st))
    by (apply poolInv_mainRun, poolInv_newPool).
  assert (Hall : forall s, _) by
    (intros s; exact (request_then_reply BitmapOutput postMessage op payload transfer
                        st bi best s Hinv Hchoose Hpost)).
  cbn zeta in Hall. fold id in Hall. fold st1 in Hall.
  destruct (Hall Pending) as (Hret & Hpend & Hentry & Hback & _).
  split; [exact Hret|]. split; [exact Hpend|]. split.
  - intros result st2. unfold st2. cbn [poolOnMessage].
    rewrite Hentry. cbn [Entry.callbacks Entry.pending Entry.worker].
    rewrite lookup_insert_eq. cbn [promises pool Pool.workers].
    split; [exact (proj2 (proj2 (proj2 (proj2 (Hall (Fulfilled result))))))|exact Hback].
  - intros err st2. unfold st2. cbn [poolOnMessage].
    rewrite Hentry. cbn [Entry.callbacks Entry.pending Entry.worker].
    rewrite lookup_insert_eq. cbn [promises pool Pool.workers].
    split; [exact (proj2 (proj2 (proj2 (proj2 (Hall (Rejected _))))))|exact Hback].
Qed.

Lemma request_reply_round_trip_witness :
  let st := mainRun unit postAlways
              [DoRequest unit "decodeRaster" (payloadWithIndex None) None]
              (initMain unit 2) in
  let st1 := fst (request unit postAlways "decodeRaster" (payloadWithIndex None) None st) in
  map Entry.pending (Pool.workers (pool unit st)) = [1; 0] /\
  map Entry.pending (Pool.workers (pool unit st1)) = [1; 1] /\
  forall result,
    let st2 := poolOnMessage unit 1 (PostOk unit 2 result) st1 in
    promises unit st2 !! 2 = Some (Fulfilled result) /\
    Pool.workers (pool unit st2) = Pool.workers (pool unit st).
Proof.
  split; [reflexivity|]. split; [reflexivity|].
  exact (proj1 (proj2 (proj2
    (request_reply_round_trip unit postAlways 2
       [DoRequest unit "decodeRaster" (payloadWithIndex None) None]
       "decodeRaster" (payloadWithIndex None) None 1%nat
       {| Entry.worker := 1; Entry.pending := 0; Entry.callbacks := ∅ |}
       eq_refl eq_refl)))).
Defined.

(** ** Worker pool: late, repeated and unknown replies *)

Lemma logOnce_again key message mode st :
  logOnce key message mode (logOnce key message mode st) =
  logOnce key message mode st.
Proof.
  unfold logOnce at 2 3. destruct (echoed st key) eqn:He.
  - unfold logOnce. rewrite He. reflexivity.
  - unfold logOnce, echoed. cbn [Log.echoOnce]. rewrite lookup_insert_eq. reflexivity.
Qed.

(** X5. Handling the same worker message a second time changes nothing: a
    reply whose id is no longer (or never was) in the worker's correlation
    table is dropped, and a repeated warning is not printed again. *)
Theorem poolOnMessage_handled_once
    (BitmapOutput : Type) (wi : nat) (msg : Posted BitmapOutput)
    (st : Main BitmapOutput) :
  poolOnMessage BitmapOutput wi msg (poolOnMessage BitmapOutput wi msg st) =
  poolOnMessage BitmapOutput wi msg st.
Proof.
  assert (Hreply : forall id (st' : Main BitmapOutput)
                     (f : Z -> Entry.t -> Main BitmapOutput),
    match Pool.workers (pool BitmapOutput st) !! wi with
    | None => st
    | Some entry =>
        match Entry.callbacks entry !! id with
        | None => st
        | Some cb => f cb entry
        end
    end = st' ->
    (forall cb entry,
        Pool.workers (pool BitmapOutput st) !! wi = Some entry ->
        Pool.workers (pool BitmapOutput (f cb entry)) !! wi =
          Some {| Entry.worker := Entry.worker entry;
                  Entry.pending := Z.max 0 (Entry.pending entry - 1);
                  Entry.callbacks := delete id (Entry.callbacks entry) |}) ->
    forall g : Z -> Entry.t -> Main BitmapOutput,
    match Pool.workers (pool BitmapOutput st') !! wi with
    | None => st'
    | Some entry =>
        match Entry.callbacks entry !! id with
        | None => st'
        | Some cb => g cb entry
        end
    end = st').
  { intros id st' f Hst' Hf g.
    destruct (Pool.workers (pool BitmapOutput st) !! wi) as [entry|] eqn:Hentry.
    - destruct (Entry.callbacks entry !! id) as [cb|] eqn:Hcb.
      + subst st'. rewrite (Hf cb entry eq_refl). cbn [Entry.callbacks].
        rewrite lookup_delete_eq. reflexivity.
      + subst st'. rewrite Hentry, Hcb. reflexivity.
    - subst st'. rewrite Hentry. reflexivity. }
  destruct msg as [id r|id err|w]; cbn [poolOnMessage].
  - eapply (Hreply id); [reflexivity|].
    intros cb entry Hentry. cbn [pool Pool.workers].
    apply list_lookup_insert_eq. apply lookup_lt_Some in Hentry. exact Hentry.
  - eapply (Hreply id); [reflexivity|].
    intros cb entry Hentry. cbn [pool Pool.workers].
    apply list_lookup_insert_eq. apply lookup_lt_Some in Hentry. exact Hentry.
  - cbn [logState pool promises]. unfold onWorkerWarn. rewrite logOnce_again.
    reflexivity.
Qed.

(** ** Worker pool: promises *)

Section PoolPromises.

Variable BitmapOutput : Type.
Variable postMessage : nat -> Request.t -> option (list nat) -> option exn.

Lemma in_values_dec (m : gmap Z Z) (x : Z) :
  (exists id, m !! id = Some x) \/ (forall id, m !! id <> Some x).
Proof.
  induction m as [|i y m Hi IH] using map_ind.
  - right. intros id. rewrite lookup_empty. discriminate.
  - destruct (decide (y = x)) as [->|Hne].
    + left. exists i. apply lookup_insert_eq.
    + destruct IH as [[id Hid]|Hno].
      * left. exists id. rewrite lookup_insert_ne; [exact Hid|]. congruence.
      * right. intros id. destruct (decide (id = i)) as [->|Hid].
        -- rewrite lookup_insert_eq. congruence.
        -- rewrite lookup_insert_ne by congruence. apply Hno.
Qed.

Lemma settle_other d d' (s : PromiseState (WorkResult BitmapOutput)) ps :
  d' <> d -> settle BitmapOutput d s ps !! d' = ps !! d'.
Proof.
  intros Hne. unfold settle. destruct (ps !! d) as [[| |]|]; try reflexivity.
  apply lookup_insert_ne. congruence.
Qed.

Lemma settle_settled d d' (s s' : PromiseState (WorkResult BitmapOutput)) ps :
  ps !! d' = Some s' -> settled s' = true ->
  settle BitmapOutput d s ps !! d' = Some s'.
Proof.
  intros Hd' Hs'. destruct (decide (d' = d)) as [->|Hne].
  - unfold settle. rewrite Hd'. destruct s'; [discriminate|exact Hd'|exact Hd'].
  - rewrite settle_other by exact Hne. exact Hd'.
Qed.

Lemma settle_pending d (s : PromiseState (WorkResult BitmapOutput)) ps :
  ps !! d = Some Pending -> settle BitmapOutput d s ps !! d = Some s.
Proof.
  intros Hd. unfold settle. rewrite Hd. apply lookup_insert_eq.
Qed.

Lemma settle_dom d d' (s : PromiseState (WorkResult BitmapOutput)) ps :
  is_Some (settle BitmapOutput d s ps !! d') -> is_Some (ps !! d').
Proof.
  unfold settle. destruct (ps !! d) as [[| |]|] eqn:Hd; try (intros H; exact H).
  destruct (decide (d' = d)) as [->|Hne].
  - intros _. rewrite Hd. eauto.
  - rewrite lookup_insert_ne by congruence. intros H; exact H.
Qed.

(** What rejecting every deferred of a correlation table does to the
    promises. *)
Lemma reject_all (reason : exn) (ps0 : gmap Z (PromiseState (WorkResult BitmapOutput))) (cbs : gmap Z Z) :
  let ps := map_fold (fun _ cb ps => settle BitmapOutput cb (Rejected reason) ps)
              ps0 cbs in
  (forall id d, cbs !! id = Some d -> ps0 !! d = Some Pending ->
     ps !! d = Some (Rejected reason)) /\
  (forall d, (forall id, cbs !! id <> Some d) -> ps !! d = ps0 !! d) /\
  (forall d s, ps0 !! d = Some s -> settled s = true -> ps !! d = Some s) /\
  (forall d, is_Some (ps !! d) -> is_Some (ps0 !! d)).
Proof.
  cbn zeta.
  apply (map_fold_weak_ind
    (fun (ps : gmap Z (PromiseState (WorkResult BitmapOutput))) (cbs : gmap Z Z) =>
       (forall id d, cbs !! id = Some d -> ps0 !! d = Some Pending ->
          ps !! d = Some (Rejected reason)) /\
       (forall d, (forall id, cbs !! id <> Some d) -> ps !! d = ps0 !! d) /\
       (forall d s, ps0 !! d = Some s -> settled s = true -> ps !! d = Some s) /\
       (forall d, is_Some (ps !! d) -> is_Some (ps0 !! d)))).
  - repeat split.
    + intros id d Hd. rewrite lookup_empty in Hd. discriminate.
    + intros d s Hd _. exact Hd.
    + intros d Hd. exact Hd.
  - intros i x m r Hi (Hrej & Hfar & Hkeep & Hdom). repeat split.
    + intros id d Hd Hpend.
      destruct (decide (d = x)) as [->|Hne].
      * (* the promise is pending, or was already rejected by this loop *)
        assert (Hr : r !! x = Some Pending \/ r !! x = Some (Rejected reason)).
        { destruct (in_values_dec m x) as [[id' Hid']|Hno].
          - right. exact (Hrej id' x Hid' Hpend).
          - left. rewrite (Hfar x Hno). exact Hpend. }
        destruct Hr as [Hr|Hr].
        -- apply settle_pending. exact Hr.
        -- apply (settle_settled _ _ _ _ _ Hr). reflexivity.
      * rewrite settle_other by exact Hne.
        destruct (decide (id = i)) as [->|Hid].
        -- rewrite lookup_insert_eq in Hd. congruence.
        -- rewrite lookup_insert_ne in Hd by congruence. exact (Hrej id d Hd Hpend).
    + intros d Hnot.
      assert (Hdx : d <> x).
      { intros ->. apply (Hnot i). apply lookup_insert_eq. }
      rewrite settle_other by exact Hdx. apply Hfar.
      intros id Hd. apply (Hnot id).
      destruct (decide (id = i)) as [->|Hid]; [congruence|].
      rewrite lookup_insert_ne by congruence. exact Hd.
    + intros d s Hd Hs. apply settle_settled; [|exact Hs]. exact (Hkeep d s Hd Hs).
    + intros d Hd. apply Hdom. exact (settle_dom _ _ _ _ Hd).
Qed.

End PoolPromises.

(** X6. When a worker raises an error event, every request still waiting
    on that worker is rejected with the error, the worker's bookkeeping is
    reset to empty, and nothing else changes: other workers keep their
    entries, and promises that were already settled or belong to other
    workers keep their state. *)
Theorem poolOnError_rejects_outstanding
    (BitmapOutput : Type) (wi : nat) (e : exn) (st : Main BitmapOutput)
    (entry : Entry.t) :
  Pool.workers (pool BitmapOutput st) !! wi = Some entry ->
  let st' := poolOnError BitmapOutput wi e st in
  Pool.workers (pool BitmapOutput st') !! wi =
    Some {| Entry.worker := Entry.worker entry; Entry.pending := 0;
            Entry.callbacks := ∅ |} /\
  (forall j, j <> wi ->
     Pool.workers (pool BitmapOutput st') !! j =
     Pool.workers (pool BitmapOutput st) !! j) /\
  (forall id d, Entry.callbacks entry !! id = Some d ->
     promises BitmapOutput st !! d = Some Pending ->
     promises BitmapOutput st' !! d = Some (Rejected (errorReason e))) /\
  (forall d s, promises BitmapOutput st !! d = Some s -> settled s = true ->
     promises BitmapOutput st' !! d = Some s) /\
  (forall d, (forall id, Entry.callbacks entry !! id <> Some d) ->
     promises BitmapOutput st' !! d = promises BitmapOutput st !! d).
Proof.
  intros Hentry st'. unfold st', poolOnError. rewrite Hentry.
  cbn [pool promises Pool.workers].
  pose proof (reject_all BitmapOutput (errorReason e) (promises BitmapOutput st)
                (Entry.callbacks entry)) as (Hrej & Hfar & Hkeep & _).
  split; [|split; [|split; [|split]]].
  - apply list_lookup_insert_eq. apply lookup_lt_Some in Hentry. exact Hentry.
  - intros j Hj. apply list_lookup_insert_ne. congruence.
  - exact Hrej.
  - exact Hkeep.
  - exact Hfar.
Qed.

Lemma poolOnError_rejects_outstanding_witness :
  let st' := poolOnError unit 0 (ThrownString "worker crashed") threeWaiting in
  map Entry.pending (Pool.workers (pool unit threeWaiting)) = [2; 1] /\
  map Entry.pending (Pool.workers (pool unit st')) = [0; 1] /\
  promises unit st' !! 1 = Some (Rejected (ErrorObject "worker crashed")) /\
  promises unit st' !! 3 = Some (Rejected (ErrorObject "worker crashed")) /\
  promises unit st' !! 2 = Some Pending.
Proof.
  pose proof (poolOnError_rejects_outstanding unit 0 (ThrownString "worker crashed")
                threeWaiting
                {| Entry.worker := 0; Entry.pending := 2;
                   Entry.callbacks := {[ 1 := 1; 3 := 3 ]} |} eq_refl)
    as (_ & _ & Hrej & _ & _).
  split; [reflexivity|]. split; [reflexivity|]. split; [|split].
  - exact (Hrej 1 1 eq_refl eq_refl).
  - exact (Hrej 3 3 eq_refl eq_refl).
  - reflexivity.
Defined.

(** ** Worker pool: after [terminate] *)

Section Terminated.

Variable BitmapOutput : Type.
Variable postMessage : nat -> Request.t -> option (list nat) -> option exn.

Lemma stopped_mainStep (st : Main BitmapOutput) ev :
  Pool.workers (pool BitmapOutput st) = [] ->
  let st' := mainStep BitmapOutput postMessage st ev in
  Pool.workers (pool BitmapOutput st') = [] /\
  Pool._nextId (pool BitmapOutput st) <= Pool._nextId (pool BitmapOutput st') /\
  forall d, d < Pool._nextId (pool BitmapOutput st) ->
    promises BitmapOutput st' !! d = promises BitmapOutput st !! d.
Proof.
  intros Hws st'. unfold st'.
  assert (Hnone : forall wi, Pool.workers (pool BitmapOutput st) !! wi = None)
    by (intros wi; rewrite Hws; apply lookup_nil).
  destruct ev as [op payload transfer|wi msg|wi e| |lev]; cbn [mainStep].
  - unfold request. rewrite Hws. cbn [chooseWorker fst pool promises Pool.workers
                                       Pool._nextId].
    split; [reflexivity|]. split; [lia|].
    intros d Hd. apply lookup_insert_ne. lia.
  - destruct msg as [id r|id err|w]; cbn [poolOnMessage]; rewrite ?Hnone;
      cbn [pool promises]; (split; [exact Hws|split; [lia|reflexivity]]).
  - unfold poolOnError. rewrite Hnone.
    split; [exact Hws|split; [lia|reflexivity]].
  - cbn [terminate pool promises Pool.workers Pool._nextId].
    split; [reflexivity|split; [lia|reflexivity]].
  - cbn [pool promises]. split; [exact Hws|split; [lia|reflexivity]].
Qed.

Lemma stopped_mainRun events :
  forall st : Main BitmapOutput,
    Pool.workers (pool BitmapOutput st) = [] ->
    let st' := mainRun BitmapOutput postMessage events st in
    Pool.workers (pool BitmapOutput st') = [] /\
    Pool._nextId (pool BitmapOutput st) <= Pool._nextId (pool BitmapOutput st') /\
    forall d, d < Pool._nextId (pool BitmapOutput st) ->
      promises BitmapOutput st' !! d = promises BitmapOutput st !! d.
Proof.
  induction events as [|ev events IH]; intros st Hws; cbn zeta.
  - cbn [mainRun fold_left]. split; [exact Hws|split; [lia|reflexivity]].
  - cbn [mainRun fold_left].
    destruct (stopped_mainStep st ev Hws) as (Hws1 & Hle1 & Hsame1).
    destruct (IH _ Hws1) as (Hws2 & Hle2 & Hsame2).
    split; [exact Hws2|]. split; [unfold mainRun in Hle2; lia|].
    intros d Hd. unfold mainRun in Hsame2. rewrite Hsame2 by lia.
    apply Hsame1. exact Hd.
Qed.

End Terminated.

(** X7. [terminate] stops the workers but settles nothing: whatever
    happens afterwards, a promise made before [terminate] keeps the state it
    had (a pending one stays pending for ever), the pool stays without
    workers, and every later [request] throws. *)
Theorem terminate_abandons_promises
    (BitmapOutput : Type)
    (postMessage : nat -> Request.t -> option (list nat) -> option exn)
    (st : Main BitmapOutput) (events : list (MainEvent BitmapOutput)) :
  let st' := mainRun BitmapOutput postMessage events (terminate BitmapOutput st) in
  Pool.workers (pool BitmapOutput st') = [] /\
  (forall d, d < Pool._nextId (pool BitmapOutput st) ->
     promises BitmapOutput st' !! d = promises BitmapOutput st !! d) /\
  (forall op payload transfer,
     snd (request BitmapOutput postMessage op payload transfer st') =
       throw (ErrorObject "Cannot read properties of undefined (reading 'pending')")).
Proof.
  intros st'.
  destruct (stopped_mainRun BitmapOutput postMessage events
              (terminate BitmapOutput st) eq_refl) as (Hws & _ & Hsame).
  fold st' in Hws, Hsame. split; [exact Hws|]. split.
  - exact Hsame.
  - intros op payload transfer. unfold request. rewrite Hws. reflexivity.
Qed.

Lemma terminate_abandons_promises_witness :
  let st' := mainRun unit postAlways
               [WorkerMessage unit 0 (PostOk unit 1 (BitmapResult unit tt));
                WorkerError unit 0 (ThrownString "gone");
                DoRequest unit "decodeRaster" (payloadWithIndex None) None]
               (terminate unit threeWaiting) in
  promises unit threeWaiting !! 1 = Some Pending /\
  1 < Pool._nextId (pool unit threeWaiting) /\
  promises unit st' !! 1 = promises unit threeWaiting !! 1.
Proof.
  split; [reflexivity|]. split; [reflexivity|].
  apply (proj1 (proj2 (terminate_abandons_promises unit postAlways threeWaiting
    [WorkerMessage unit 0 (PostOk unit 1 (BitmapResult unit tt));
     WorkerError unit 0 (ThrownString "gone");
     DoRequest unit "decodeRaster" (payloadWithIndex None) None]))).
  reflexivity.
Defined.

(** ** Worker pool: a promise settles once *)

Section SettlesOnce.

Variable BitmapOutput : Type.
Variable postMessage : nat -> Request.t -> option (list nat) -> option exn.

Lemma settled_mainStep (st : Main BitmapOutput) ev :
  promisesBelow (promises BitmapOutput st) (Pool._nextId (pool BitmapOutput st)) ->
  let st' := mainStep BitmapOutput postMessage st ev in
  promisesBelow (promises BitmapOutput st') (Pool._nextId (pool BitmapOutput st')) /\
  forall d s, promises BitmapOutput st !! d = Some s -> settled s = true ->
    promises BitmapOutput st' !! d = Some s.
Proof.
  intros Hbelow st'. unfold st'.
  assert (Hsettle : forall cb (s' : PromiseState (WorkResult BitmapOutput)),
    promisesBelow (settle BitmapOutput cb s' (promises BitmapOutput st))
      (Pool._nextId (pool BitmapOutput st))).
  { intros cb s' d s Hd.
    destruct (settle_dom BitmapOutput cb d s' (promises BitmapOutput st))
      as [s0 Hs0]; [rewrite Hd; eauto|].
    exact (Hbelow d s0 Hs0). }
  destruct ev as [op payload transfer|wi msg|wi e| |lev]; cbn [mainStep].
  - assert (Hins : promisesBelow
              (<[Pool._nextId (pool BitmapOutput st) := Pending]>
                 (promises BitmapOutput st))
              (Pool._nextId (pool BitmapOutput st) + 1)).
    { intros d s Hd.
      destruct (decide (d = Pool._nextId (pool BitmapOutput st))) as [->|Hne]; [lia|].
      rewrite lookup_insert_ne in Hd by congruence.
      specialize (Hbelow d s Hd). lia. }
    assert (Hkeep : forall d (s : PromiseState (WorkResult BitmapOutput)),
              promises BitmapOutput st !! d = Some s ->
              <[Pool._nextId (pool BitmapOutput st) := Pending]>
                 (promises BitmapOutput st) !! d = Some s).
    { intros d s Hd. rewrite lookup_insert_ne; [exact Hd|].
      specialize (Hbelow d s Hd). lia. }
    unfold request. destruct (chooseWorker _) as [[bi best]|].
    + destruct (postMessage _ _ _) as [err|];
        cbn [fst pool promises Pool._nextId].
      * split.
        -- intros d s Hd.
           destruct (settle_dom BitmapOutput _ d _ _ ltac:(rewrite Hd; eauto))
             as [s0 Hs0].
           exact (Hins d s0 Hs0).
        -- intros d s Hd Hs. apply settle_settled; [|exact Hs]. exact (Hkeep d s Hd).
      * split; [exact Hins|]. intros d s Hd _. exact (Hkeep d s Hd).
    + cbn [fst pool promises Pool._nextId].
      split; [exact Hins|]. intros d s Hd _. exact (Hkeep d s Hd).
  - destruct msg as [id r|id err|w]; cbn [poolOnMessage].
    + destruct (Pool.workers _ !! wi) as [entry|]; [|split; [exact Hbelow|auto]].
      destruct (Entry.callbacks entry !! id) as [cb|]; [|split; [exact Hbelow|auto]].
      cbn [pool promises Pool._nextId]. split; [apply Hsettle|].
      intros d s Hd Hs. apply settle_settled; assumption.
    + destruct (Pool.workers _ !! wi) as [entry|]; [|split; [exact Hbelow|auto]].
      destruct (Entry.callbacks entry !! id) as [cb|]; [|split; [exact Hbelow|auto]].
      cbn [pool promises Pool._nextId]. split; [apply Hsettle|].
      intros d s Hd Hs. apply settle_settled; assumption.
    + cbn [pool promises]. split; [exact Hbelow|auto].
  - unfold poolOnError.
    destruct (Pool.workers _ !! wi) as [entry|]; [|split; [exact Hbelow|auto]].
    cbn [pool promises Pool._nextId].
    pose proof (reject_all BitmapOutput
                  match e with ErrorObject _ => e | ThrownString s => ErrorObject s end
                  (promises BitmapOutput st) (Entry.callbacks entry))
      as (_ & _ & Hkeep & Hdom).
    split.
    + intros d s Hd. destruct (Hdom d ltac:(rewrite Hd; eauto)) as [s0 Hs0].
      exact (Hbelow d s0 Hs0).
    + exact Hkeep.
  - cbn [terminate pool promises Pool._nextId]. split; [exact Hbelow|auto].
  - cbn [pool promises]. split; [exact Hbelow|auto].
Qed.

Lemma settled_mainRun events :
  forall st : Main BitmapOutput,
    promisesBelow (promises BitmapOutput st) (Pool._nextId (pool BitmapOutput st)) ->
    let st' := mainRun BitmapOutput postMessage events st in
    promisesBelow (promises BitmapOutput st') (Pool._nextId (pool BitmapOutput st')) /\
    forall d s, promises BitmapOutput st !! d = Some s -> settled s = true ->
      promises BitmapOutput st' !! d = Some s.
Proof.
  induction events as [|ev events IH]; intros st Hbelow; cbn zeta.
  - cbn [mainRun fold_left]. split; [exact Hbelow|auto].
  - cbn [mainRun fold_left].
    destruct (settled_mainStep st ev Hbelow) as (Hbelow1 & Hkeep1).
    destruct (IH _ Hbelow1) as (Hbelow2 & Hkeep2).
    split; [exact Hbelow2|].
    intros d s Hd Hs. apply Hkeep2; [|exact Hs]. exact (Hkeep1 d s Hd Hs).
Qed.

End SettlesOnce.

(** X8. A promise settles at most once: once the promise of a request is
    fulfilled or rejected in a state the pool can reach, no later event (a
    second reply, a worker error, a new request, [terminate]) changes it. *)
Theorem promise_settles_once
    (BitmapOutput : Type)
    (postMessage : nat -> Request.t -> option (list nat) -> option exn)
    (n : Z) (before after : list (MainEvent BitmapOutput))
    (d : Z) (s : PromiseState (WorkResult BitmapOutput)) :
  let st := mainRun BitmapOutput postMessage before (initMain BitmapOutput n) in
  promises BitmapOutput st !! d = Some s ->
  settled s = true ->
  promises BitmapOutput (mainRun BitmapOutput postMessage after st) !! d = Some s.
Proof.
  intros st Hd Hs.
  assert (Hinit : promisesBelow (promises BitmapOutput (initMain BitmapOutput n))
                    (Pool._nextId (pool BitmapOutput (initMain BitmapOutput n)))).
  { intros d' s' Hd'. cbn [initMain promises] in Hd'.
    rewrite lookup_empty in Hd'. discriminate. }
  destruct (settled_mainRun BitmapOutput postMessage before _ Hinit) as (Hbelow & _).
  destruct (settled_mainRun BitmapOutput postMessage after _ Hbelow) as (_ & Hkeep).
  exact (Hkeep d s Hd Hs).
Qed.

Lemma promise_settles_once_witness :
  let before := [DoRequest unit "decodeRaster" (payloadWithIndex None) None;
                 WorkerMessage unit 0 (PostOk unit 1 (BitmapResult unit tt))] in
  let after := [WorkerMessage unit 0 (PostError unit 1 "late");
                WorkerError unit 0 (ThrownString "crash");
                DoRequest unit "decodeRaster" (payloadWithIndex None) None] in
  promises unit (mainRun unit postAlways before (initMain unit 2)) !! 1
    = Some (Fulfilled (BitmapResult unit tt)) /\
  promises unit (mainRun unit postAlways after
                   (mainRun unit postAlways before (initMain unit 2))) !! 1
    = Some (Fulfilled (BitmapResult unit tt)).
Proof.
  split; [reflexivity|].
  apply (promise_settles_once unit postAlways 2
    [DoRequest unit "decodeRaster" (payloadWithIndex None) None;
     WorkerMessage unit 0 (PostOk unit 1 (BitmapResult unit tt))]
    [WorkerMessage unit 0 (PostError unit 1 "late");
     WorkerError unit 0 (ThrownString "crash");
     DoRequest unit "decodeRaster" (payloadWithIndex None) None]
    1 (Fulfilled (BitmapResult unit tt))); reflexivity.
Defined.

(** ** Worker protocol *)

Lemma errorToPlain_nonempty (e : exn) : errorToPlain e <> "".
Proof. destruct e as [[|c m]|[|c s]]; discriminate. Qed.

Lemma map_PostWarn_inj (B : Type) (ws ws' : list Warn.t) :
  map (PostWarn B) ws = map (PostWarn B) ws' -> ws = ws'.
Proof.
  revert ws'. induction ws as [|w ws IH]; intros [|w' ws'] H; try discriminate.
  - reflexivity.
  - cbn in H. injection H as Hw Hws. f_equal; [exact Hw|exact (IH _ Hws)].
Qed.

Lemma posted_inj (B : Type) (ws ws' : list Warn.t) (x x' : Posted B) :
  map (PostWarn B) ws ++ [x] = map (PostWarn B) ws' ++ [x'] <-> ws = ws' /\ x = x'.
Proof.
  split.
  - intros H. apply app_inj_tail in H as [Hw Hx].
    split; [exact (map_PostWarn_inj B ws ws' Hw)|exact Hx].
  - intros [-> ->]. reflexivity.
Qed.

(** X9. The worker answers every request message with exactly one reply,
    posted after any warnings and carrying the id of the request: either a
    result, or a non-empty error text.  An operation name it does not know
    is answered with an error naming it. *)
Theorem onmessage_replies_once
    (fromArrayBuffer : list Z -> result GeoTiff.t)
    (imageModeTextureSet : Raster.t -> Hints.t -> list Warn.t * result TextureSet.t)
    (BitmapOutput : Type)
    (renderImageBitmap : Raster.t -> Hints.t -> list Warn.t * result BitmapOutput)
    (id : Z) (op : string) (payload : Payload.t) :
  let posted := onmessage fromArrayBuffer imageModeTextureSet BitmapOutput
                  renderImageBitmap id op payload in
  (exists warns reply,
     posted = map (PostWarn BitmapOutput) warns ++ [reply] /\
     ((exists r, reply = PostOk BitmapOutput id r) \/
      (exists err, err <> "" /\ reply = PostError BitmapOutput id err))) /\
  (op ∉ workerOps ->
     posted = [PostError BitmapOutput id ("[RawTiffPlugin] Unknown worker op: " +:+ op)]).
Proof.
  intros posted. split.
  - unfold posted, onmessage.
    destruct (runOp _ _ _ _ op payload) as [warns [e|r]].
    + exists warns, (PostError BitmapOutput id (errorToPlain e)).
      split; [reflexivity|]. right. exists (errorToPlain e).
      split; [apply errorToPlain_nonempty|reflexivity].
    + exists warns, (PostOk BitmapOutput id r).
      split; [reflexivity|]. left. exists r. reflexivity.
  - intros Hop. unfold posted, onmessage, runOp.
    assert (Hne : forall s, s ∈ workerOps -> String.eqb op s = false).
    { intros s Hs. apply String.eqb_neq. intros ->. exact (Hop Hs). }
    rewrite !Hne by (unfold workerOps; set_solver).
    reflexivity.
Qed.

Lemma onmessage_replies_once_witness :
  ("resize" ∉ workerOps) /\
  onmessage (fun _ => ret threeImageTiff) noImageMode unit noBitmap
    9 "resize" (payloadWithIndex None)
  = [PostError unit 9 "[RawTiffPlugin] Unknown worker op: resize"].
Proof.
  assert (Hop : "resize" ∉ workerOps).
  { unfold workerOps. intros H. repeat (apply elem_of_cons in H as [H|H]; [discriminate|]).
    inversion H. }
  split; [exact Hop|].
  exact (proj2 (onmessage_replies_once (fun _ => ret threeImageTiff) noImageMode unit
                  noBitmap 9 "resize" (payloadWithIndex None)) Hop).
Defined.

(** X10. Packing in one step or in two gives the same texture set:
    [decodeAndPackGpuTextureSet] on a container replies with the raster that
    [decodeRaster] replies with and with the texture set, warnings and
    errors that [rasterToGpuTextureSet] gives for that raster and the same
    hints. *)
Theorem pack_in_one_step_or_two
    (fromArrayBuffer : list Z -> result GeoTiff.t)
    (imageModeTextureSet : Raster.t -> Hints.t -> list Warn.t * result TextureSet.t)
    (BitmapOutput : Type)
    (renderImageBitmap : Raster.t -> Hints.t -> list Warn.t * result BitmapOutput)
    (id : Z) (payload : Payload.t) (r : Raster.t) :
  let run := onmessage fromArrayBuffer imageModeTextureSet BitmapOutput
               renderImageBitmap id in
  run "decodeRaster" payload = [PostOk BitmapOutput id (RasterResult BitmapOutput r)] ->
  (forall warns t,
     run "decodeAndPackGpuTextureSet" payload =
       map (PostWarn BitmapOutput) warns ++
       [PostOk BitmapOutput id (PackedResult BitmapOutput r t)]
     <->
     run "rasterToGpuTextureSet" (withRaster payload r) =
       map (PostWarn BitmapOutput) warns ++
       [PostOk BitmapOutput id (TextureSetResult BitmapOutput t)]) /\
  (forall warns err,
     run "decodeAndPackGpuTextureSet" payload =
       map (PostWarn BitmapOutput) warns ++ [PostError BitmapOutput id err]
     <->
     run "rasterToGpuTextureSet" (withRaster payload r) =
       map (PostWarn BitmapOutput) warns ++ [PostError BitmapOutput id err]).
Proof.
  intros run Hdec.
  assert (Hr : decodeRasterFromArrayBuffer fromArrayBuffer (Payload.buffer payload)
                 (Payload.hints payload) = inr r).
  { unfold run, onmessage, runOp in Hdec. cbn [String.eqb Ascii.eqb Bool.eqb] in Hdec.
    destruct (decodeRasterFromArrayBuffer _ _ _) as [e|r']; cbn in Hdec.
    - discriminate.
    - injection Hdec as ->. reflexivity. }
  unfold run, onmessage, runOp, withRaster.
  cbn [String.eqb Ascii.eqb Bool.eqb Payload.buffer Payload.raster Payload.hints].
  rewrite Hr.
  destruct (rasterPayloadToTextureSet _ r (Payload.hints payload)) as [ws [e|t]].
  - cbv beta iota. cbn [bind]. split; intros warns x; rewrite !posted_inj;
      (split; intros [Hw Hx]; try discriminate Hx; split; try assumption;
       first [exact Hx | injection Hx as Hx; subst; reflexivity]).
  - cbv beta iota. cbn [bind ret]. split; intros warns x; rewrite !posted_inj;
      (split; intros [Hw Hx]; try discriminate Hx; split; try assumption;
       first [exact Hx | injection Hx as Hx; subst; reflexivity]).
Qed.

Lemma pack_in_one_step_or_two_witness :
  let run := onmessage (fun _ => ret singleImageTiff) noImageMode unit noBitmap 5 in
  let t := fst (packBandsAsData decodedSingle formatForce16) in
  run "decodeRaster" dataPayload = [PostOk unit 5 (RasterResult unit decodedSingle)] /\
  run "rasterToGpuTextureSet" (withRaster dataPayload decodedSingle) =
    map (PostWarn unit) [] ++ [PostOk unit 5 (TextureSetResult unit t)] /\
  run "decodeAndPackGpuTextureSet" dataPayload =
    map (PostWarn unit) [] ++ [PostOk unit 5 (PackedResult unit decodedSingle t)].
Proof.
  assert (Hdec : onmessage (fun _ => ret singleImageTiff) noImageMode unit noBitmap 5
                   "decodeRaster" dataPayload
                 = [PostOk unit 5 (RasterResult unit decodedSingle)]) by reflexivity.
  split; [exact Hdec|]. split; [reflexivity|].
  apply (proj1 (pack_in_one_step_or_two (fun _ => ret singleImageTiff) noImageMode unit
                  noBitmap 5 dataPayload decodedSingle Hdec)).
  reflexivity.
Defined.

(** X11. A decode succeeds only for a valid selection, and returns that
    image: the container was parsed, it holds one image (then image 0 is
    read, whatever index was given) or the supplied index lies in
    [0, count); the raster has the size, tags and bands of that image, a
    sample count that is at least the number of bands, and a bit-depth
    list. *)
Theorem decode_success_selects_image
    (fromArrayBuffer : list Z -> result GeoTiff.t)
    (ab : list Z) (hints : Hints.t) (r : Raster.t) :
  decodeRasterFromArrayBuffer fromArrayBuffer ab hints = inr r ->
  exists tiff count i img rasters,
    fromArrayBuffer ab = inr tiff /\
    GeoTiff.getImageCount tiff = inr count /\
    ((count = 1 /\ i = 0) \/
     (count <> 1 /\ Hints.imageIndex hints = Some i /\ 0 <= i < count)) /\
    GeoTiff.getImage tiff i = inr img /\
    GeoImage.readRasters img (interleaveOf hints) = inr rasters /\
    Raster.width r = GeoImage.getWidth img /\
    Raster.height r = GeoImage.getHeight img /\
    Raster.bands r = normalizeRasters rasters /\
    Raster.photometricInterpretation r = GeoImage.photometricInterpretation img /\
    (exists s, Raster.samplesPerPixel r = Some s /\
               Z.of_nat (length (Raster.bands r)) <= s) /\
    is_Some (Raster.bitsPerSample r).
Proof.
  unfold decodeRasterFromArrayBuffer, bind. intros H.
  destruct (fromArrayBuffer ab) as [e|tiff]; [discriminate|].
  destruct (GeoTiff.getImageCount tiff) as [e|count] eqn:Hcount; [discriminate|].
  assert (Htail : forall i,
    (count = 1 /\ i = 0) \/
    (count <> 1 /\ Hints.imageIndex hints = Some i /\ 0 <= i < count) ->
    match GeoTiff.getImage tiff i with
    | inl e => inl e
    | inr img =>
        match GeoImage.readRasters img (interleaveOf hints) with
        | inl e => inl e
        | inr rasters =>
            ret {| Raster.width := GeoImage.getWidth img;
                   Raster.height := GeoImage.getHeight img;
                   Raster.bands := normalizeRasters rasters;
                   Raster.samplesPerPixel :=
                     Some (Z.max (match GeoImage.getSamplesPerPixel img with
                                  | Some s => s | None => 0 end)
                                 (Z.of_nat (length (normalizeRasters rasters))));
                   Raster.bitsPerSample :=
                     Some (match GeoImage.getBitsPerSample img with
                           | inr l => l | inl b => [b] end);
                   Raster.photometricInterpretation :=
                     GeoImage.photometricInterpretation img |}
        end
    end = inr r ->
    exists tiff' count' i' img rasters,
      @inr exn _ tiff = inr tiff' /\
      GeoTiff.getImageCount tiff' = inr count' /\
      ((count' = 1 /\ i' = 0) \/
       (count' <> 1 /\ Hints.imageIndex hints = Some i' /\ 0 <= i' < count')) /\
      GeoTiff.getImage tiff' i' = inr img /\
      GeoImage.readRasters img (interleaveOf hints) = inr rasters /\
      Raster.width r = GeoImage.getWidth img /\
      Raster.height r = GeoImage.getHeight img /\
      Raster.bands r = normalizeRasters rasters /\
      Raster.photometricInterpretation r = GeoImage.photometricInterpretation img /\
      (exists s, Raster.samplesPerPixel r = Some s /\
                 Z.of_nat (length (Raster.bands r)) <= s) /\
      is_Some (Raster.bitsPerSample r)).
  { intros i Hvalid Hi.
    destruct (GeoTiff.getImage tiff i) as [e|img] eqn:Himg; [discriminate|].
    destruct (GeoImage.readRasters img (interleaveOf hints)) as [e|rasters] eqn:Hread;
      [discriminate|].
    injection Hi as <-.
    exists tiff, count, i, img, rasters.
    cbn [Raster.width Raster.height Raster.bands Raster.photometricInterpretation
         Raster.samplesPerPixel Raster.bitsPerSample].
    repeat (split; [first [reflexivity|assumption]|]).
    split; [|eauto].
    eexists. split; [reflexivity|]. lia. }
  revert H. destruct (Z.eqb_spec count 1) as [Hc1|Hc]; cbn [negb]; intros H.
  - apply (Htail 0); [left; split; [exact Hc1|reflexivity]|exact H].
  - destruct (Hints.imageIndex hints) as [i|] eqn:Hidx; [|discriminate].
    destruct (Z.ltb_spec i 0) as [Hlt|Hge]; cbn [orb] in H; [discriminate|].
    destruct (Z.leb_spec count i) as [Hle|Hgt]; [discriminate|].
    apply (Htail i); [right; repeat split; [exact Hc|lia|lia]|exact H].
Qed.

Lemma decode_success_selects_image_witness :
  decodeRasterFromArrayBuffer (fun _ => ret threeImageTiff) []
    (hintsWithIndex (Some 2)) = inr decodedSingle /\
  exists tiff count i img rasters,
    ret threeImageTiff = inr tiff /\
    GeoTiff.getImageCount tiff = inr count /\
    ((count = 1 /\ i = 0) \/
     (count <> 1 /\ Hints.imageIndex (hintsWithIndex (Some 2)) = Some i /\
      0 <= i < count)) /\
    GeoTiff.getImage tiff i = inr img /\
    GeoImage.readRasters img (interleaveOf (hintsWithIndex (Some 2))) = inr rasters /\
    Raster.width decodedSingle = GeoImage.getWidth img /\
    Raster.height decodedSingle = GeoImage.getHeight img /\
    Raster.bands decodedSingle = normalizeRasters rasters /\
    Raster.photometricInterpretation decodedSingle =
      GeoImage.photometricInterpretation img /\
    (exists s, Raster.samplesPerPixel decodedSingle = Some s /\
               Z.of_nat (length (Raster.bands decodedSingle)) <= s) /\
    is_Some (Raster.bitsPerSample decodedSingle).
Proof.
  split; [reflexivity|].
  exact (decode_success_selects_image (fun _ => ret threeImageTiff) []
           (hintsWithIndex (Some 2)) decodedSingle eq_refl).
Defined.

(** ** Warn-once log *)

Lemma logCalls_console (calls : list Line.t) :
  forall (st : Log.t) (seen : list string),
    (forall k, echoed st k = bool_decide (k ∈ seen)) ->
    Log.console (logCalls calls st) = Log.console st ++ firstPerKey seen calls.
Proof.
  induction calls as [|l calls IH]; intros st seen Hseen.
  - cbn. rewrite app_nil_r. reflexivity.
  - cbn [logCalls fold_left firstPerKey].
    fold (logCalls calls (logOnce (Line.key l) (Line.message l) (Line.mode l) st)).
    unfold logOnce. rewrite Hseen.
    destruct (bool_decide (Line.key l ∈ seen)) eqn:Hin.
    + apply IH. exact Hseen.
    + rewrite (IH _ (Line.key l :: seen)).
      * cbn [Log.console]. rewrite <- app_assoc. destruct l; reflexivity.
      * intros k. unfold echoed. cbn [Log.echoOnce].
        destruct (decide (k = Line.key l)) as [->|Hne].
        -- rewrite lookup_insert_eq. symmetry. apply bool_decide_eq_true.
           apply elem_of_cons. left. reflexivity.
        -- rewrite lookup_insert_ne by congruence.
           specialize (Hseen k). unfold echoed in Hseen. rewrite Hseen.
           apply bool_decide_ext. rewrite elem_of_cons. tauto.
Qed.

(** X12. Whatever sequence of [logOnce] calls is made, the console shows
    exactly the first call of every key, in call order, with that call's
    message and level; later calls with the same key print nothing, and a
    key that names a property of [Object.prototype] (such as [toString] or
    [constructor]) is never printed at all. *)
Theorem logOnce_prints_first_call_per_key (calls : list Line.t) :
  Log.console (logCalls calls emptyLog) = firstPerKey objectPrototypeKeys calls.
Proof.
  rewrite (logCalls_console calls emptyLog objectPrototypeKeys).
  - reflexivity.
  - intros k. unfold echoed, emptyLog. cbn [Log.echoOnce].
    rewrite lookup_empty. reflexivity.
Qed.

(** ** Configuration merge: keys *)

Lemma setProp_keys (out : object) (k1 : string) (v : value) (k : string) :
  NoDup (own out).*1 -> k <> "__proto__" ->
  is_Some (lookupOwn k (own (setProp out k1 v))) <->
  is_Some (lookupOwn k (own out)) \/ k = k1.
Proof.
  intros Hnd Hk. destruct (decide (k = k1)) as [->|Hne].
  - rewrite (setProp_own out k1 v k1 Hnd Hk), decide_True by reflexivity.
    split; [intros _; right; reflexivity|intros _; eauto].
  - rewrite (setProp_other out k1 v k Hnd Hne).
    split; [intros H; left; exact H|intros [H|H]; [exact H|contradiction]].
Qed.

Lemma is_Some_lookupOwn_cons (k k1 : string) (v1 : value) (rest : list (string * value)) :
  is_Some (lookupOwn k ((k1, v1) :: rest)) <-> k = k1 \/ is_Some (lookupOwn k rest).
Proof.
  cbn [lookupOwn]. destruct (decide (k1 = k)) as [->|Hne].
  - split; [intros _; left; reflexivity|intros _; eauto].
  - split; [intros H; right; exact H|intros [->|H]; [contradiction|exact H]].
Qed.

(** A fold of assignments, whatever values are assigned, adds the assigned
    names to the own properties and removes none. *)
Lemma fold_setProp_keys (step : object -> string * value -> object)
    (entries : list (string * value)) (k : string) :
  (forall out kv, exists v, step out kv = setProp out kv.1 v) ->
  forall out : object,
    NoDup (own out).*1 -> k <> "__proto__" ->
    let r := fold_left step entries out in
    NoDup (own r).*1 /\
    (is_Some (lookupOwn k (own r)) <->
     is_Some (lookupOwn k (own out)) \/ is_Some (lookupOwn k entries)).
Proof.
  intros Hstep.
  induction entries as [|[k1 v1] rest IH]; intros out Hnd Hk; cbn zeta.
  - cbn [fold_left lookupOwn]. split; [exact Hnd|].
    split; [intros H; left; exact H|intros [H|[x Hx]]; [exact H|discriminate]].
  - cbn [fold_left]. destruct (Hstep out (k1, v1)) as [v ->]. cbn [fst].
    destruct (IH (setProp out k1 v) (setProp_NoDup _ _ _ Hnd) Hk) as [Hr Hkeys].
    split; [exact Hr|].
    rewrite Hkeys, (setProp_keys out k1 _ k Hnd Hk), is_Some_lookupOwn_cons. tauto.
Qed.

Lemma mergeStep_setProp (out : object) (kv : string * value) :
  exists v, mergeStep out kv = setProp out kv.1 v.
Proof.
  unfold mergeStep. destruct kv.2; eauto.
  destruct (objectAt out kv.1); eauto.
Qed.

(** X13. [deepMerge] never removes a key: for every name other than
    [__proto__], the result has an own property of that name exactly when
    the base has one or the later layer has one (for an array layer, its
    indices).  This holds for all inputs, also for layers with an own
    property [__proto__] and for values with other prototypes. *)
Theorem deepMerge_keys (a : list (string * value)) (b : value) (k : string) :
  k <> "__proto__" ->
  is_Some (lookupOwn k (own (deepMerge a b))) <->
  is_Some (lookupOwn k a) \/ is_Some (lookupOwn k (ownEntries b)).
Proof.
  intros Hk. rewrite deepMerge_fold.
  destruct (fold_setProp_keys (fun out kv => setProp out kv.1 kv.2) a k
              (fun out kv => ex_intro _ kv.2 eq_refl)
              {| own := []; proto := ObjectPrototype |} (NoDup_nil_2) Hk)
    as [Hnd0 Hkeys0].
  fold (assignFresh a) in Hnd0, Hkeys0.
  destruct (fold_setProp_keys mergeStep (ownEntries b) k mergeStep_setProp
              (assignFresh a) Hnd0 Hk) as [_ Hkeys].
  rewrite Hkeys, Hkeys0. cbn [own lookupOwn].
  split; [intros [[[x Hx]|H]|H]; [discriminate|left; exact H|right; exact H]
         |intros [H|H]; [left; right; exact H|right; exact H]].
Qed.

Lemma deepMerge_keys_witness :
  "gpu" <> "__proto__" /\
  (is_Some (lookupOwn "gpu" (own (deepMerge defaultFormat formatOverride))) <->
   is_Some (lookupOwn "gpu" defaultFormat) \/
   is_Some (lookupOwn "gpu" (ownEntries formatOverride))).
Proof.
  split; [discriminate|].
  exact (deepMerge_keys defaultFormat formatOverride "gpu" ltac:(discriminate)).
Defined.

(** ** GPU packer: the shape of every pack *)

Lemma length_flat_map_const {A B} (f : A -> list B) (c : nat) (l : list A) :
  (forall x, length (f x) = c) -> length (flat_map f l) = (c * length l)%nat.
Proof.
  intros Hf. induction l as [|x l IH]; cbn [flat_map length]; [lia|].
  rewrite length_app, Hf, IH. lia.
Qed.

Lemma pack_lookup (raster : Raster.t) (format : option Format.t) pi pk :
  TextureSet.packs (fst (packBandsAsData raster format)) !! pi = Some pk ->
  pk = packAt raster (activeChannels raster format)
         (useRGBA8 raster format (activeChannels raster format)) (4 * pi) /\
  (4 * pi < length (activeChannels raster format))%nat.
Proof.
  rewrite packs_of_packBandsAsData. intros Hpk.
  apply packLoop_lookup in Hpk; [|lia]. exact Hpk.
Qed.

Lemma packAt_shape (raster : Raster.t) channels (u8 : bool) p :
  let pk := packAt raster channels u8 p in
  Pack.format pk = (if u8 then RGBA8 else RGBA16F) /\
  length (Pack.scale pk) = 4%nat /\
  length (Pack.offset pk) = 4%nat /\
  Pack.normalized pk = false /\
  length (Pack.data pk) = (4 * pixelCount raster)%nat /\
  (forall x, x ∈ Pack.data pk -> 0 <= x < elementRange (Pack.format pk)).
Proof.
  unfold packAt. destruct u8; cbn zeta.
  - cbn [packRGBA8 Pack.format Pack.scale Pack.offset Pack.normalized Pack.data
         length elementRange].
    repeat (split; [reflexivity|]). split.
    + rewrite (length_flat_map_const _ 4%nat); [rewrite length_seq; reflexivity|].
      intros i. reflexivity.
    + intros x Hx. apply list_elem_of_In, in_flat_map in Hx as (i & _ & Hx).
      apply in_map_iff in Hx as (bi & <- & _).
      destruct (inBands raster bi); [|lia].
      unfold JS.toUint8. apply Z.mod_pos_bound. lia.
  - cbn [packRGBA16F fst Pack.format Pack.scale Pack.offset Pack.normalized Pack.data
         length elementRange].
    split; [reflexivity|]. split; [rewrite length_map; reflexivity|].
    split; [reflexivity|]. split; [reflexivity|]. split.
    + rewrite length_map.
      rewrite (length_flat_map_const _ 4%nat); [rewrite length_seq; reflexivity|].
      intros i. rewrite length_map, length_zip, length_map. reflexivity.
    + intros x Hx. apply list_elem_of_In, in_map_iff in Hx as (c & <- & _).
      unfold JS.toUint16. apply Z.mod_pos_bound. reflexivity.
Qed.

(** X15. For any channel order, the texture set has one pack for every
    four requested channels, and every pack is a full four-slot texture:
    slot [k] of pack [pi] carries the requested channel number [4*pi + k]
    (or -1 when the order has no such entry), there are four scale and four
    offset entries, [normalized] is false, the data has four elements per
    pixel, and every element is in the range of the pack's typed array. *)
Theorem packBandsAsData_pack_shape
    (raster : Raster.t) (format : option Format.t) (pi : nat) (pk : Pack.t) :
  let channels := activeChannels raster format in
  let ts := fst (packBandsAsData raster format) in
  TextureSet.packs ts !! pi = Some pk ->
  length (TextureSet.packs ts) = ((length channels + 3) / 4)%nat /\
  Pack.channels pk =
    [channelOr channels (4 * pi); channelOr channels (4 * pi + 1);
     channelOr channels (4 * pi + 2); channelOr channels (4 * pi + 3)] /\
  length (Pack.scale pk) = 4%nat /\
  length (Pack.offset pk) = 4%nat /\
  Pack.normalized pk = false /\
  length (Pack.data pk) = (4 * pixelCount raster)%nat /\
  (forall x, x ∈ Pack.data pk -> 0 <= x < elementRange (Pack.format pk)).
Proof.
  intros channels ts Hpk. split.
  - unfold ts. rewrite packs_of_packBandsAsData, packLoop_length by lia.
    rewrite Nat.sub_0_r. reflexivity.
  - apply pack_lookup in Hpk as [-> _]. split; [apply packAt_channels|].
    exact (proj2 (packAt_shape raster (activeChannels raster format) _ _)).
Qed.

Lemma packBandsAsData_pack_shape_witness :
  exists pk,
    TextureSet.packs (fst (packBandsAsData raster6 formatReorder)) !! 1%nat = Some pk /\
    Pack.channels pk = [4; -1; -1; -1] /\
    length (Pack.data pk) = 8%nat /\
    length (TextureSet.packs (fst (packBandsAsData raster6 formatReorder))) = 2%nat.
Proof.
  eexists. split; [reflexivity|].
  pose proof (packBandsAsData_pack_shape raster6 formatReorder 1
                _ eq_refl) as (Hn & Hch & _ & _ & _ & Hlen & _).
  split; [exact Hch|]. split; [exact Hlen|exact Hn].
Defined.

(** ** GPU packer: the 8-bit path copies bytes *)

Lemma toUint8_byte (v : Z) : 0 <= v < 256 -> JS.toUint8 (JS.ofZ v) = v.
Proof.
  intros Hv.
  assert (Hall : forallb (fun n => JS.toUint8 (JS.ofZ (Z.of_nat n)) =? Z.of_nat n)
                   (seq 0 256) = true) by (vm_compute; reflexivity).
  rewrite forallb_forall in Hall.
  specialize (Hall (Z.to_nat v)).
  rewrite Z2Nat.id in Hall by lia.
  apply Z.eqb_eq, Hall, in_seq. lia.
Qed.

Lemma sampleAt_Some (raster : Raster.t) bi band i v :
  bandAt raster bi = Some band ->
  Band.samples band !! i = Some v ->
  sampleAt raster bi i = v.
Proof. intros Hb Hv. unfold sampleAt. rewrite Hb, Hv. reflexivity. Qed.

Lemma pack_slot_lt4 (raster : Raster.t) (format : option Format.t) pi pk k bi :
  TextureSet.packs (fst (packBandsAsData raster format)) !! pi = Some pk ->
  Pack.channels pk !! k = Some bi -> (k < 4)%nat.
Proof.
  intros Hpk Hk. apply pack_lookup in Hpk as [-> _].
  rewrite packAt_channels in Hk. apply lookup_lt_Some in Hk. exact Hk.
Qed.

(** X16. The 8-bit path is a plain copy: in an RGBA8 pack, the element
    for pixel [i] in slot [k] is the byte that the band assigned to that
    slot holds at pixel [i], for any channel order; scale is 1 and offset
    is 0. *)
Theorem packBandsAsData_bytes_copied
    (raster : Raster.t) (format : option Format.t)
    (pi : nat) (pk : Pack.t) (k : nat) (bi : Z) (band : Band.t) (i : nat) (v : Z) :
  TextureSet.packs (fst (packBandsAsData raster format)) !! pi = Some pk ->
  Pack.format pk = RGBA8 ->
  Pack.channels pk !! k = Some bi ->
  bandAt raster bi = Some band ->
  Band.samples band !! i = Some (JS.ofZ v) ->
  0 <= v < 256 ->
  (i < pixelCount raster)%nat ->
  Pack.data pk !! (4 * i + k)%nat = Some v /\
  Pack.scale pk !! k = Some (JS.ofZ 1) /\
  Pack.offset pk !! k = Some (JS.ofZ 0).
Proof.
  intros Hpk Hfmt Hk Hband Hv Hbyte Hi.
  pose proof (pack_slot_lt4 raster format pi pk k bi Hpk Hk) as Hk4.
  pose proof (pack_format_global raster format pk
                ltac:(apply list_elem_of_lookup; eauto)) as Hglobal.
  apply pack_lookup in Hpk as [-> _].
  destruct (useRGBA8 raster format (activeChannels raster format));
    [|rewrite Hglobal in Hfmt; discriminate].
  unfold packAt in *. cbn [packRGBA8 Pack.data Pack.scale Pack.offset Pack.channels] in *.
  split; [|split].
  - rewrite lookup_cells; [| |exact Hi|exact Hk4].
    + rewrite list_lookup_fmap, Hk. cbn [fmap option_fmap option_map].
      rewrite (bandAt_inBands raster bi band Hband).
      rewrite (sampleAt_Some raster bi band i _ Hband Hv).
      rewrite toUint8_byte by exact Hbyte. reflexivity.
    + intros j. rewrite length_map. reflexivity.
  - do 4 (destruct k as [|k]; [reflexivity|]). lia.
  - do 4 (destruct k as [|k]; [reflexivity|]). lia.
Qed.

Lemma packBandsAsData_bytes_copied_witness :
  exists pk,
    TextureSet.packs (fst (packBandsAsData raster6 formatReorder)) !! 0%nat = Some pk /\
    Pack.channels pk = [2; 0; 5; 1] /\
    Pack.data pk !! 6%nat = Some 12.
Proof.
  eexists. split; [reflexivity|]. split; [reflexivity|].
  refine (proj1 (packBandsAsData_bytes_copied raster6 formatReorder 0 _ 2 5
                   (bandOf Uint8Array [11; 12]) 1 12
                   eq_refl eq_refl eq_refl eq_refl eq_refl _ _)).
  - lia.
  - cbn. lia.
Defined.

(** ** GPU packer: when the half-float path normalizes *)

Lemma maxOf_below_16 (bits : Z) :
  1 <= bits <= 15 -> JS.gt (maxOf (Some bits)) (JS.ofZ 65504) = false.
Proof.
  intros Hb.
  assert (Hall : forallb (fun n => negb (JS.gt (maxOf (Some (Z.of_nat n))) (JS.ofZ 65504)))
                   (seq 1 15) = true) by (vm_compute; reflexivity).
  rewrite forallb_forall in Hall.
  specialize (Hall (Z.to_nat bits)).
  rewrite Z2Nat.id in Hall by lia.
  apply negb_true_iff, Hall, in_seq. lia.
Qed.

Lemma maxOf_from_16 (bits : Z) :
  16 <= bits <= 53 ->
  JS.gt (maxOf (Some bits)) (JS.ofZ 65504) = true /\
  maxOf (Some bits) = JS.ofZ (2 ^ bits - 1).
Proof.
  intros Hb.
  assert (Hall : forallb (fun n =>
                    JS.gt (maxOf (Some (Z.of_nat n))) (JS.ofZ 65504) &&
                    SFeqb (maxOf (Some (Z.of_nat n))) (JS.ofZ (2 ^ Z.of_nat n - 1)) &&
                    match maxOf (Some (Z.of_nat n)), JS.ofZ (2 ^ Z.of_nat n - 1) with
                    | S754_finite s m e, S754_finite s' m' e' =>
                        Bool.eqb s s' && Pos.eqb m m' && Z.eqb e e'
                    | _, _ => false
                    end)
                   (seq 16 38) = true) by (vm_compute; reflexivity).
  rewrite forallb_forall in Hall.
  specialize (Hall (Z.to_nat bits)).
  rewrite Z2Nat.id in Hall by lia.
  assert (Hin : In (Z.to_nat bits) (seq 16 38)) by (apply in_seq; lia).
  apply Hall in Hin.
  apply andb_true_iff in Hin as [Hin Heq].
  apply andb_true_iff in Hin as [Hgt _].
  split; [exact Hgt|].
  destruct (maxOf (Some bits)) as [| | |s m e]; try discriminate.
  destruct (JS.ofZ (2 ^ bits - 1)) as [| | |s' m' e']; try discriminate.
  apply andb_true_iff in Heq as [Heq He].
  apply andb_true_iff in Heq as [Hs Hm].
  apply Bool.eqb_prop in Hs. apply Pos.eqb_eq in Hm. apply Z.eqb_eq in He.
  subst. reflexivity.
Qed.

Lemma maxOf_nonpositive (bits : Z) : bits <= 0 -> maxOf (Some bits) = JS.ofZ 65535.
Proof.
  intros Hb. unfold maxOf.
  replace (0 <? bits) with false by (symmetry; apply Z.ltb_ge; exact Hb).
  reflexivity.
Qed.

(** X17. The half-float path normalizes exactly from 16 bits up: in an
    RGBA16F pack the scale of a slot backed by an integer band is 1 for a
    declared depth of 1 to 15 bits and [2^bits - 1] for 16 bits and more
    (65535 when the depth is not positive or not given); a float band is
    never scaled; the offset is always 0. *)
Theorem packBandsAsData_scale_by_bit_depth
    (raster : Raster.t) (format : option Format.t)
    (pi : nat) (pk : Pack.t) (k : nat) (bi : Z) (band : Band.t) :
  TextureSet.packs (fst (packBandsAsData raster format)) !! pi = Some pk ->
  Pack.format pk = RGBA16F ->
  Pack.channels pk !! k = Some bi ->
  bandAt raster bi = Some band ->
  Pack.offset pk !! k = Some (JS.ofZ 0) /\
  (isFloat band = true -> Pack.scale pk !! k = Some (JS.ofZ 1)) /\
  (isFloat band = false ->
     (forall bits, bitsOf raster bi = Some bits -> 1 <= bits <= 15 ->
        Pack.scale pk !! k = Some (JS.ofZ 1)) /\
     (forall bits, bitsOf raster bi = Some bits -> 16 <= bits <= 53 ->
        Pack.scale pk !! k = Some (JS.ofZ (2 ^ bits - 1))) /\
     (forall bits, bitsOf raster bi = Some bits -> bits <= 0 ->
        Pack.scale pk !! k = Some (JS.ofZ 65535)) /\
     (bitsOf raster bi = None -> Pack.scale pk !! k = Some (JS.ofZ 65535))).
Proof.
  intros Hpk Hfmt Hk Hband.
  pose proof (pack_slot_lt4 raster format pi pk k bi Hpk Hk) as Hk4.
  pose proof (pack_format_global raster format pk
                ltac:(apply list_elem_of_lookup; eauto)) as Hglobal.
  apply pack_lookup in Hpk as [-> _].
  destruct (useRGBA8 raster format (activeChannels raster format));
    [rewrite Hglobal in Hfmt; discriminate|].
  unfold packAt in *.
  assert (Hscale : Pack.scale (fst (packRGBA16F raster
                      (packCh (activeChannels raster format) (4 * pi)))) !! k
                   = Some (scaleFor raster bi)).
  { apply packRGBA16F_scale. exact Hk. }
  rewrite Hscale. unfold scaleFor.
  rewrite (bandAt_inBands raster bi band Hband), Hband. cbn [negb].
  split; [|split].
  - cbn [packRGBA16F fst Pack.offset]. do 4 (destruct k as [|k]; [reflexivity|]). lia.
  - intros ->. reflexivity.
  - intros ->. cbn [negb]. repeat split.
    + intros bits -> Hb. rewrite maxOf_below_16 by exact Hb. reflexivity.
    + intros bits -> Hb. destruct (maxOf_from_16 bits Hb) as [-> ->]. reflexivity.
    + intros bits -> Hb. rewrite maxOf_nonpositive by exact Hb. reflexivity.
    + intros ->. reflexivity.
Qed.

Lemma packBandsAsData_scale_by_bit_depth_witness :
  exists pk,
    TextureSet.packs (fst (packBandsAsData raster16 None)) !! 0%nat = Some pk /\
    Pack.format pk = RGBA16F /\
    Pack.scale pk !! 0%nat = Some (JS.ofZ 65535).
Proof.
  eexists. split; [reflexivity|]. split; [reflexivity|].
  pose proof (packBandsAsData_scale_by_bit_depth raster16 None 0 _ 0 0
                (bandOf Uint16Array [65535]) eq_refl eq_refl eq_refl eq_refl)
    as (_ & _ & H).
  destruct (H eq_refl) as (_ & H16 & _).
  apply (H16 16); [reflexivity|lia].
Defined.

(** ** GPU packer: clamp warnings *)

Lemma halfValue_clamped (raster : Raster.t) bi s i :
  snd (halfValue raster bi s i) = true ->
  fst (halfValue raster bi s i) = JS.ofZ 65504 \/
  fst (halfValue raster bi s i) = JS.ofZ (-65504).
Proof.
  unfold halfValue. cbv zeta.
  destruct (JS.gt _ (JS.ofZ 65504)); [left; reflexivity|].
  destruct (JS.lt _ (JS.ofZ (-65504))); [right; reflexivity|].
  discriminate.
Qed.

Lemma packRGBA16F_clamped (raster : Raster.t) ch :
  snd (packRGBA16F raster ch) = true ->
  0x7BFF ∈ Pack.data (fst (packRGBA16F raster ch)) \/
  0xFBFF ∈ Pack.data (fst (packRGBA16F raster ch)).
Proof.
  cbn [packRGBA16F fst snd Pack.data]. intros Hc.
  apply existsb_exists in Hc as (c & Hin & Hsnd).
  assert (Hval : fst c = JS.ofZ 65504 \/ fst c = JS.ofZ (-65504)).
  { apply in_flat_map in Hin as (i & _ & Hin).
    apply in_map_iff in Hin as ([bi s] & <- & _).
    apply halfValue_clamped. exact Hsnd. }
  destruct Hval as [Hv|Hv]; [left|right];
    apply list_elem_of_In, in_map_iff; exists c; (split; [|exact Hin]);
    rewrite Hv; vm_compute; reflexivity.
Qed.

Lemma packLoop_warns (raster : Raster.t) fuel channels (u8 : bool) :
  forall p,
    let packs := fst (packLoop raster fuel channels u8 p) in
    let warns := snd (packLoop raster fuel channels u8 p) in
    (forall w, w ∈ warns -> w = clampWarning) /\
    (length warns <= length packs)%nat /\
    (u8 = true -> warns = []) /\
    (warns <> [] ->
       exists pk, pk ∈ packs /\ (0x7BFF ∈ Pack.data pk \/ 0xFBFF ∈ Pack.data pk)).
Proof.
  induction fuel as [|fuel IH]; intros p; cbn [packLoop].
  - cbn. repeat split; try lia; try congruence. intros w Hw. inversion Hw.
  - destruct (p <? length channels)%nat.
    2:{ cbn. repeat split; try lia; try congruence. intros w Hw. inversion Hw. }
    specialize (IH (p + 4)%nat). cbv zeta in IH.
    destruct (packLoop raster fuel channels u8 (p + 4)) as [packs warns].
    cbn [fst snd] in IH. destruct IH as (Hall & Hlen & Hu8 & Hclamp).
    destruct u8.
    + cbn [fst snd length]. rewrite (Hu8 eq_refl) in *.
      repeat split; try (cbn; lia); try congruence; try exact Hall.
    + pose proof (packRGBA16F_clamped raster (packCh channels p)) as Hhere.
      destruct (packRGBA16F raster (packCh channels p)) as [pk0 clamped].
      cbn [fst snd] in *. destruct clamped.
      * split; [|split; [|split]].
        -- intros w [->|Hw]%elem_of_cons; [reflexivity|auto].
        -- cbn [length]. lia.
        -- discriminate.
        -- intros _. exists pk0. split; [apply elem_of_cons; left; reflexivity|].
           apply Hhere. reflexivity.
      * split; [|split; [|split]].
        -- exact Hall.
        -- cbn [length]. lia.
        -- discriminate.
        -- intros Hne. destruct (Hclamp Hne) as (pk & Hpk & Hdata).
           exists pk. split; [apply elem_of_cons; right; exact Hpk|exact Hdata].
Qed.

(** X18. The only warning the packer posts is the clamp warning, at most
    once per pack and never on the 8-bit path; and when it is posted, some
    pack really holds a clamped value, stored as the largest finite
    half-float (pattern 0x7BFF, or 0xFBFF for a negative value). *)
Theorem packBandsAsData_clamp_warnings (raster : Raster.t) (format : option Format.t) :
  let ts := fst (packBandsAsData raster format) in
  let warns := snd (packBandsAsData raster format) in
  (forall w, w ∈ warns -> w = clampWarning) /\
  (length warns <= length (TextureSet.packs ts))%nat /\
  (useRGBA8 raster format (activeChannels raster format) = true -> warns = []) /\
  (warns <> [] ->
     exists pk, pk ∈ TextureSet.packs ts /\
                (0x7BFF ∈ Pack.data pk \/ 0xFBFF ∈ Pack.data pk)).
Proof.
  pose proof (packLoop_warns raster (length (activeChannels raster format))
                (activeChannels raster format)
                (useRGBA8 raster format (activeChannels raster format)) 0) as H.
  unfold packBandsAsData. cbv zeta in H |- *.
  destruct (packLoop raster _ _ _ 0) as [packs warns].
  cbn [fst snd TextureSet.packs] in *. exact H.
Qed.

Lemma packBandsAsData_clamp_warnings_witness :
  snd (packBandsAsData rasterFloat None) = [clampWarning] /\
  exists pk, pk ∈ TextureSet.packs (fst (packBandsAsData rasterFloat None)) /\
             (0x7BFF ∈ Pack.data pk \/ 0xFBFF ∈ Pack.data pk).
Proof.
  split; [reflexivity|].
  apply (proj2 (proj2 (proj2 (packBandsAsData_clamp_warnings rasterFloat None)))).
  discriminate.
Defined.

(** ** Half-float codec: rounding *)

Lemma lor_shifted (a b k : Z) :
  0 <= k -> 0 <= b < 2 ^ k -> Z.lor (a * 2 ^ k) b = a * 2 ^ k + b.
Proof.
  intros Hk Hb. symmetry. apply Z.add_nocarry_lor.
  apply Z.bits_inj'. intros n Hn. rewrite Z.land_spec, Z.bits_0.
  destruct (Z.lt_ge_cases n k) as [Hlt|Hge].
  - rewrite Z.mul_pow2_bits_low by lia. reflexivity.
  - destruct (Z.eq_dec b 0) as [->|Hb0].
    + rewrite Z.bits_0. apply andb_false_r.
    + rewrite (Z.bits_above_log2 b n); [apply andb_false_r|lia|].
      apply Z.lt_le_trans with k; [|exact Hge].
      apply Z.log2_lt_pow2; lia.
Qed.

(** The three fields put together with [|] and [<<]. *)
Lemma assemble_half (s : bool) (ex q : Z) :
  0 <= ex < 32 -> 0 <= q < 1024 ->
  JS.bor (JS.bor (JS.shl (if s then 1 else 0) 15) (JS.shl ex 10)) q =
  (if s then 0x8000 else 0) + ex * 1024 + q.
Proof.
  intros Hex Hq.
  assert (Hs : JS.shl (if s then 1 else 0) 15 = if s then 0x8000 else 0)
    by (destruct s; reflexivity).
  assert (He : JS.shl ex 10 = ex * 2 ^ 10).
  { unfold JS.shl. rewrite (toInt32_small ex) by (zpow; lia).
    rewrite Z.shiftl_mul_pow2 by lia. apply toInt32_small. zpow. lia. }
  rewrite Hs, He. unfold JS.bor.
  rewrite (toInt32_small (if s then 0x8000 else 0)) by (destruct s; zpow; lia).
  rewrite (toInt32_small (ex * 2 ^ 10)) by (zpow; lia).
  assert (Hin : Z.lor (if s then 0x8000 else 0) (ex * 2 ^ 10) =
                (if s then 0x8000 else 0) + ex * 2 ^ 10).
  { destruct s; [|reflexivity].
    change 0x8000 with (1 * 2 ^ 15). rewrite lor_shifted; [reflexivity|lia|].
    zpow. lia. }
  rewrite Hin.
  rewrite (toInt32_small ((if s then 0x8000 else 0) + ex * 2 ^ 10))
    by (destruct s; zpow; lia).
  rewrite (toInt32_small q) by (zpow; lia).
  replace ((if s then 0x8000 else 0) + ex * 2 ^ 10)
    with (((if s then 32 else 0) + ex) * 2 ^ 10) by (destruct s; zpow; lia).
  rewrite lor_shifted by (zpow; lia).
  destruct s; zpow; lia.
Qed.

Lemma assemble_half_inf (s : bool) :
  JS.bor (JS.shl (if s then 1 else 0) 15) 0x7C00 = (if s then 0x8000 else 0) + 31 * 1024.
Proof. destruct s; reflexivity. Qed.

(** Unfolds the codec on a finite non-zero binary32 input and reads the
    three fields off its pattern. *)
Ltac codec_by_fields s m e Hb :=
  destruct (float32_bits_fields s m e Hb) as (E & M & Hbits & HE & HM & Hshape);
  unfold f32ToF16Bits; cbv zeta;
  rewrite fround_float32 by exact Hb;
  rewrite Hbits;
  destruct (fields_of_bits s E M ltac:(lia) HM) as (-> & -> & ->).

(** The codec on a normal binary32 value within the binary16 exponent
    range, in closed form. *)
Lemma codec_normal (s : bool) (m : positive) (e : Z) :
  bounded JS.prec32 JS.emax32 m e = true ->
  -37 <= e <= -8 ->
  2 ^ 23 <= Z.pos m < 2 ^ 24 /\
  f32ToF16Bits (S754_finite s m e) =
    (if s then 0x8000 else 0) + (e + 38) * 1024 + (Z.pos m - 2 ^ 23 + 4096) / 8192.
Proof.
  intros Hb He.
  assert (Hm : 2 ^ 23 <= Z.pos m < 2 ^ 24).
  { destruct (float32_shape m e Hb) as [[Hm _]|[_ He']]; [exact Hm|lia]. }
  split; [exact Hm|].
  codec_by_fields s m e Hb.
  destruct Hshape as [(-> & HE1 & Hm')|(-> & He' & _)]; [|lia].
  replace (Z.pos m - 2 ^ 23) with M by lia. clear Hbits.
  destruct (Z.eqb_spec (e + 150) 0xFF); [lia|].
  destruct (Z.eqb_spec (e + 150) 0); [lia|].
  destruct (Z.leb_spec 0x1F (e + 150 - 127 + 15)); [lia|].
  destruct (Z.leb_spec (e + 150 - 127 + 15) 0); [lia|].
  unfold JS.band at 1.
  rewrite !toInt32_small by (zpow; lia).
  change 0x00800000 with (2 ^ 23).
  rewrite land_bit by (zpow; lia).
  replace (e + 150 - 127 + 15) with (e + 38) by lia.
  destruct (Z.ltb_spec (M + 0x00001000) (2 ^ 23)) as [Hlow|Hcarry]; cbn [Z.eqb negb].
  - (* no carry out of the mantissa *)
    assert (Hsar : JS.sar (M + 0x00001000) 13 = (M + 4096) / 8192).
    { unfold JS.sar. rewrite toInt32_small by (zpow; lia).
      rewrite Z.shiftr_div_pow2 by lia. reflexivity. }
    rewrite Hsar. apply assemble_half; [lia|].
    zpow. split; [apply Z.div_pos; lia|].
    apply Z.div_lt_upper_bound; lia.
  - (* the mantissa rounds up to the next power of two *)
    assert (Hq : (M + 4096) / 8192 = 1024).
    { zpow. symmetry. apply (Z.div_unique (M + 4096) 8192 1024 (M + 4096 - 8388608)); lia. }
    rewrite Hq.
    replace (negb (2 ^ 23 =? 0)) with true by reflexivity.
    destruct (Z.leb_spec 0x1F (e + 38 + 1)) as [Hinf|Hfin].
    + assert (e = -8) by lia. subst e. rewrite assemble_half_inf. lia.
    + change (JS.sar 0 13) with 0.
      rewrite assemble_half by lia. lia.
Qed.

(** X19. On a normal binary32 value whose exponent lies in the binary16
    range, the codec rounds to the nearest binary16 value, ties away from
    zero: with [m * 2^e] the input ([2^23 <= m < 2^24]) the pattern is the
    sign bit plus [(e + 38) * 1024 + q], where [q] counts binary16 steps
    and [(1024 + q) * 8192] differs from [m] by at most half a step; a
    mantissa that rounds up to the next power of two carries into the
    exponent field, and past the largest exponent it gives infinity. *)
Theorem f32ToF16Bits_rounds_to_nearest (s : bool) (m : positive) (e : Z) :
  bounded JS.prec32 JS.emax32 m e = true ->
  -37 <= e <= -8 ->
  exists q,
    f32ToF16Bits (S754_finite s m e) =
      (if s then 0x8000 else 0) + (e + 38) * 1024 + q /\
    0 <= q <= 1024 /\
    -4096 <= Z.pos m - (1024 + q) * 8192 < 4096.
Proof.
  intros Hb He. destruct (codec_normal s m e Hb He) as [Hm Hcodec].
  exists ((Z.pos m - 2 ^ 23 + 4096) / 8192). split; [exact Hcodec|].
  revert Hm. zpow. intros Hm.
  pose proof (Z.div_mod (Z.pos m - 8388608 + 4096) 8192 ltac:(lia)) as Hdm.
  pose proof (Z.mod_pos_bound (Z.pos m - 8388608 + 4096) 8192 ltac:(lia)) as Hr.
  split; lia.
Qed.

Lemma f32ToF16Bits_rounds_to_nearest_witness :
  bounded JS.prec32 JS.emax32 12587008 (-23) = true /\
  f32ToF16Bits (S754_finite false 12587008 (-23)) = 0x3E01 /\
  exists q,
    f32ToF16Bits (S754_finite false 12587008 (-23)) = 0 + (-23 + 38) * 1024 + q /\
    0 <= q <= 1024 /\
    -4096 <= 12587008 - (1024 + q) * 8192 < 4096.
Proof.
  split; [reflexivity|]. split; [reflexivity|].
  apply (f32ToF16Bits_rounds_to_nearest false 12587008 (-23)); [reflexivity|lia].
Defined.

(** ** Half-float codec: round trip and order *)

Lemma bounded_normal32 (p : positive) (e : Z) :
  2 ^ 23 <= Z.pos p < 2 ^ 24 -> -149 <= e <= 104 ->
  bounded JS.prec32 JS.emax32 p e = true.
Proof.
  intros Hp He. unfold bounded, canonical_mantissa, fexp, emin, JS.prec32, JS.emax32.
  assert (Hd : Z.pos (digits2_pos p) = 24).
  { pose proof (digits2_pos_bounds p) as [Hlo Hhi].
    assert (H1 : Z.pos (digits2_pos p) - 1 < 24).
    { apply (Z.pow_lt_mono_r_iff 2); lia. }
    assert (H2 : 23 < Z.pos (digits2_pos p)).
    { apply (Z.pow_lt_mono_r_iff 2); lia. }
    lia. }
  rewrite Hd. apply andb_true_iff. split.
  - apply Z.eqb_eq. lia.
  - apply Z.leb_le. lia.
Qed.

Lemma f16_fields (h : Z) :
  0 <= h < 2 ^ 16 ->
  h = (if f16_sign h then 2 ^ 15 else 0) + f16_exp h * 2 ^ 10 + f16_mant h /\
  0 <= f16_exp h < 32 /\ 0 <= f16_mant h < 1024.
Proof.
  intros Hh. unfold f16_sign, f16_exp, f16_mant. revert Hh. zpow. intros Hh.
  pose proof (Z.div_mod h 1024 ltac:(lia)) as H1.
  pose proof (Z.mod_pos_bound h 1024 ltac:(lia)) as H2.
  pose proof (Z.div_mod (h / 1024) 32 ltac:(lia)) as H3.
  pose proof (Z.mod_pos_bound (h / 1024) 32 ltac:(lia)) as H4.
  assert (H5 : 0 <= h / 1024 < 64).
  { split; [apply Z.div_pos; lia|apply Z.div_lt_upper_bound; lia]. }
  destruct (Z.leb_spec 32768 h) as [Hs|Hs].
  - assert (Hq : h / 1024 / 32 = 1).
    { symmetry. apply (Z.div_unique (h / 1024) 32 1 (h / 1024 - 32)); [|lia].
      assert (32 <= h / 1024) by (apply Z.div_le_lower_bound; lia). lia. }
    lia.
  - assert (Hq : h / 1024 / 32 = 0).
    { apply Z.div_small. split; [lia|]. apply Z.div_lt_upper_bound; lia. }
    lia.
Qed.

(** X20. Encoding inverts decoding: for every binary16 pattern that
    denotes a normal value, a zero or an infinity, and for the quiet NaN
    [0x7E00], the codec applied to the value the pattern denotes gives the
    pattern back.  (The other patterns, subnormals and other NaNs, are never
    produced by the codec.) *)
Theorem f32ToF16Bits_round_trip (h : Z) :
  0 <= h < 2 ^ 16 ->
  f16_kept h = true ->
  f32ToF16Bits (f16ToF32 h) = h.
Proof.
  intros Hh Hkept.
  destruct (f16_fields h Hh) as (Hdec & He & Hm).
  unfold f16_kept in Hkept. unfold f16ToF32. cbv zeta.
  remember (f16_sign h) as s eqn:Es.
  remember (f16_exp h) as ex eqn:Eex.
  remember (f16_mant h) as mt eqn:Emt.
  clear Es Eex Emt.
  destruct (Z.eqb_spec ex 31) as [He31|He31].
  - destruct (Z.eqb_spec mt 0) as [Hm0|Hm0].
    + rewrite Hdec, He31, Hm0. destruct s; reflexivity.
    + cbn [orb] in Hkept. apply Z.eqb_eq in Hkept. rewrite Hkept. reflexivity.
  - destruct (Z.eqb_spec ex 0) as [He0|He0].
    + apply Z.eqb_eq in Hkept. rewrite Hdec, He0, Hkept. destruct s; reflexivity.
    + assert (Hpos : Z.pos (Z.to_pos ((2 ^ 10 + mt) * 2 ^ 13)) = (2 ^ 10 + mt) * 2 ^ 13)
        by (apply Z2Pos.id; zpow; lia).
      assert (Hb : bounded JS.prec32 JS.emax32
                     (Z.to_pos ((2 ^ 10 + mt) * 2 ^ 13)) (ex - 38) = true).
      { apply bounded_normal32; [rewrite Hpos; zpow; lia|lia]. }
      destruct (codec_normal s _ _ Hb ltac:(lia)) as [_ ->].
      rewrite Hpos.
      assert (Hq : ((2 ^ 10 + mt) * 2 ^ 13 - 2 ^ 23 + 4096) / 8192 = mt).
      { zpow. symmetry. apply (Z.div_unique _ 8192 mt 4096); lia. }
      rewrite Hq, Hdec. destruct s; zpow; lia.
Qed.

Lemma f32ToF16Bits_round_trip_witness :
  f16_kept 0xC248 = true /\
  f16ToF32 0xC248 = S754_finite true 13172736 (-22) /\
  f32ToF16Bits (f16ToF32 0xC248) = 0xC248.
Proof.
  split; [reflexivity|]. split; [reflexivity|].
  apply f32ToF16Bits_round_trip; [lia|reflexivity].
Defined.

Lemma codec_nonneg_shape (m : positive) (e : Z) :
  bounded JS.prec32 JS.emax32 m e = true ->
  (e < -37 /\ f32ToF16Bits (S754_finite false m e) = 0) \/
  (-37 <= e <= -8 /\ 2 ^ 23 <= Z.pos m < 2 ^ 24 /\
   f32ToF16Bits (S754_finite false m e) =
     (e + 38) * 1024 + (Z.pos m - 2 ^ 23 + 4096) / 8192) \/
  (-8 < e /\ f32ToF16Bits (S754_finite false m e) = 0x7C00).
Proof.
  intros Hb.
  destruct (Z.lt_ge_cases e (-37)) as [Hlo|Hlo].
  - left. split; [exact Hlo|]. exact (codec_flush false m e Hb Hlo).
  - destruct (Z.lt_ge_cases (-8) e) as [Hhi|Hhi].
    + right. right. split; [exact Hhi|].
      exact (codec_infinity false m e Hb (or_introl Hhi)).
    + right. left. split; [lia|].
      destruct (codec_normal false m e Hb ltac:(lia)) as [Hm Hc].
      split; [exact Hm|]. rewrite Hc. lia.
Qed.

(** X21. The codec keeps the order of non-negative values: if [x <= y]
    for two non-negative binary32 values (zero, finite or infinite), the
    pattern of [x] is not greater than the pattern of [y]. *)
Theorem f32ToF16Bits_monotone (x y : spec_float) :
  is_float32 x = true -> is_float32 y = true ->
  sign_of x = false -> sign_of y = false ->
  SFleb x y = true ->
  f32ToF16Bits x <= f32ToF16Bits y.
Proof.
  intros Hx Hy Hsx Hsy Hle.
  assert (Hmax : forall m e, bounded JS.prec32 JS.emax32 m e = true ->
                   0 <= f32ToF16Bits (S754_finite false m e) <= 0x7C00).
  { intros m e Hb.
    destruct (codec_nonneg_shape m e Hb) as [[_ ->]|[(He & Hm & ->)|[_ ->]]]; [lia| |lia].
    revert Hm. zpow. intros Hm.
    assert (0 <= (Z.pos m - 8388608 + 4096) / 8192 <= 1024).
    { split; [apply Z.div_pos; lia|].
      apply Z.lt_succ_r, Z.div_lt_upper_bound; lia. }
    lia. }
  assert (Hzero : f32ToF16Bits (S754_zero false) = 0) by reflexivity.
  assert (Hinf : f32ToF16Bits (S754_infinity false) = 0x7C00) by reflexivity.
  destruct x as [sx|sx| |sx mx ex]; cbn [sign_of] in Hsx; subst;
    try discriminate Hle;
    destruct y as [sy|sy| |sy my ey]; cbn [sign_of] in Hsy; subst;
    try discriminate Hle;
    rewrite ?Hzero, ?Hinf; try lia;
    try (apply (Hmax _ _ Hy)); try (apply (Hmax _ _ Hx)).
  - apply SFleb_finite_pos in Hle.
    change (is_float32 (S754_finite false mx ex) = true)
      with (bounded JS.prec32 JS.emax32 mx ex = true) in Hx.
    change (is_float32 (S754_finite false my ey) = true)
      with (bounded JS.prec32 JS.emax32 my ey = true) in Hy.
    destruct (codec_nonneg_shape mx ex Hx) as [[Hex ->]|[(Hex & Hmx & ->)|[Hex ->]]];
      destruct (codec_nonneg_shape my ey Hy) as [[Hey ->]|[(Hey & Hmy & ->)|[Hey ->]]];
      try lia.
    + revert Hmy. zpow. intros Hmy.
      assert (0 <= (Z.pos my - 8388608 + 4096) / 8192)
        by (apply Z.div_pos; lia).
      lia.
    + revert Hmx Hmy. zpow. intros Hmx Hmy.
      assert (Hqx : 0 <= (Z.pos mx - 8388608 + 4096) / 8192 <= 1024).
      { split; [apply Z.div_pos; lia|].
        apply Z.lt_succ_r, Z.div_lt_upper_bound; lia. }
      assert (Hqy : 0 <= (Z.pos my - 8388608 + 4096) / 8192 <= 1024).
      { split; [apply Z.div_pos; lia|].
        apply Z.lt_succ_r, Z.div_lt_upper_bound; lia. }
      destruct Hle as [Hlt|[-> Hm]].
      * lia.
      * assert ((Z.pos mx - 8388608 + 4096) / 8192 <= (Z.pos my - 8388608 + 4096) / 8192)
          by (apply Z.div_le_mono; lia).
        lia.
    + revert Hmx. zpow. intros Hmx.
      assert (Hqx : (Z.pos mx - 8388608 + 4096) / 8192 <= 1024).
      { apply Z.lt_succ_r, Z.div_lt_upper_bound; lia. }
      lia.
Qed.

Lemma f32ToF16Bits_monotone_witness :
  let x := float32_ofZ 1000 in
  let y := float32_ofZ 70000 in
  SFleb x y = true /\ f32ToF16Bits x <= f32ToF16Bits y.
Proof.
  split; [reflexivity|].
  apply f32ToF16Bits_monotone; reflexivity.
Defined.

(** ** Image-mode packer *)

Lemma same_float_eq (a b : spec_float) : same_float a b = true -> a = b.
Proof.
  destruct a as [s|s| |s m e], b as [s'|s'| |s' m' e']; cbn [same_float];
    try discriminate; try reflexivity.
  - intros H. apply Bool.eqb_prop in H. congruence.
  - intros H. apply Bool.eqb_prop in H. congruence.
  - intros H. apply andb_true_iff in H as [H He]. apply andb_true_iff in H as [Hs Hm].
    apply Bool.eqb_prop in Hs. apply Pos.eqb_eq in Hm. apply Z.eqb_eq in He.
    congruence.
Qed.

(** Every byte value is a binary16 value: its pattern decodes to it. *)
Lemma byte_half_exact (b : Z) :
  0 <= b < 256 -> f16ToF32 (f32ToF16Bits (JS.ofZ b)) = float32_ofZ b.
Proof.
  intros Hb.
  assert (Hall : forallb (fun n =>
                    same_float (f16ToF32 (f32ToF16Bits (JS.ofZ (Z.of_nat n))))
                               (float32_ofZ (Z.of_nat n)))
                   (seq 0 256) = true) by (vm_compute; reflexivity).
  rewrite forallb_forall in Hall.
  specialize (Hall (Z.to_nat b)). rewrite Z2Nat.id in Hall by lia.
  apply same_float_eq, Hall, in_seq. lia.
Qed.

(** X22. Image-mode packing keeps every byte: the texture set is always
    one pack with channels [0, 1, 2, 3], scale 1 and offset 0; stored as
    RGBA8 (the default) its data is the RGBA buffer itself, and stored as
    RGBA16F (when forced, or when RGBA8 is not preferred) it has four
    elements per pixel, each the binary16 pattern of the byte at that
    position, which denotes exactly that byte. *)
Theorem packCanonicalRGBA_keeps_bytes
    (rgba8 : list Z) (width height : nat) (format : option Format.t) :
  exists pk,
    TextureSet.packs (packCanonicalRGBA rgba8 width height format) = [pk] /\
    TextureSet.mode (packCanonicalRGBA rgba8 width height format) = image /\
    Pack.channels pk = [0; 1; 2; 3] /\
    Pack.scale pk = [JS.ofZ 1; JS.ofZ 1; JS.ofZ 1; JS.ofZ 1] /\
    Pack.offset pk = [JS.ofZ 0; JS.ofZ 0; JS.ofZ 0; JS.ofZ 0] /\
    (preferRGBA8 format = true -> forceRGBA16F format = false ->
       Pack.format pk = RGBA8 /\ Pack.data pk = rgba8) /\
    (preferRGBA8 format = false \/ forceRGBA16F format = true ->
       Pack.format pk = RGBA16F /\
       length (Pack.data pk) = (4 * (width * height))%nat /\
       forall i b, (i < 4 * (width * height))%nat ->
         rgba8 !! i = Some b -> 0 <= b < 256 ->
         exists h, Pack.data pk !! i = Some h /\ f16ToF32 h = float32_ofZ b).
Proof.
  unfold packCanonicalRGBA.
  destruct (preferRGBA8 format) eqn:Hp, (forceRGBA16F format) eqn:Hf;
    cbn [andb negb]; eexists; (split; [reflexivity|]);
    cbn [TextureSet.mode Pack.channels Pack.scale Pack.offset Pack.format Pack.data];
    repeat (split; [reflexivity|]).
  all: split; [intros; first [discriminate | split; reflexivity]|].
  all: intros Hcase; try (destruct Hcase; discriminate).
  all: split; [reflexivity|]; split;
         [rewrite length_map, length_seq; lia|].
  all: intros i b Hi Hb Hbyte;
       exists (f32ToF16Bits (JS.ofZ b)); split; [|apply byte_half_exact; exact Hbyte];
       rewrite list_lookup_fmap, lookup_seq_lt by lia;
       cbn [fmap option_fmap option_map Nat.add]; unfold byteNumber; rewrite Hb;
       rewrite toUint16_f32ToF16Bits; reflexivity.
Qed.

Lemma packCanonicalRGBA_keeps_bytes_witness :
  exists pk,
    TextureSet.packs (packCanonicalRGBA [10; 20; 30; 255] 1 1 formatForce16) = [pk] /\
    Pack.format pk = RGBA16F /\
    Pack.data pk = [0x4900; 0x4D00; 0x4F80; 0x5BF8].
Proof.
  destruct (packCanonicalRGBA_keeps_bytes [10; 20; 30; 255] 1 1 formatForce16)
    as (pk & Hpk & _ & _ & _ & _ & _ & H16).
  exists pk. split; [exact Hpk|].
  destruct (H16 (or_intror eq_refl)) as (Hfmt & _ & _).
  split; [exact Hfmt|].
  injection Hpk as <-. reflexivity.
Defined.

(** ** Packing without a worker *)

(** X23. For a raster with exactly four 8-bit bands, packing without a
    worker gives the texture set the worker's data packer gives (natural
    band order, default storage options): the two paths agree.  The only
    other effect of the worker-less path is its warning, logged once. *)
Theorem noPool_pack_agrees_with_worker
    (raster : Raster.t) (format : option Format.t) (st : Log.t) :
  length (Raster.bands raster) = 4%nat ->
  (forall band, band ∈ Raster.bands raster -> isU8 band = true) ->
  hasExplicitChannels format = false ->
  preferRGBA8 format = true ->
  forceRGBA16F format = false ->
  fst (tiffRasterToGpuTextureSet_noPool raster st) = fst (packBandsAsData raster format) /\
  snd (packBandsAsData raster format) = [] /\
  snd (tiffRasterToGpuTextureSet_noPool raster st) = logStep st PackedWithoutWorker.
Proof.
  intros Hlen Hu8 Hexp Hpref Hforce.
  destruct raster as [w h bands spp bps pi]. cbn [Raster.bands] in *.
  destruct bands as [|b0 [|b1 [|b2 [|b3 [|b4 bands]]]]]; try discriminate.
  assert (H0 : isU8 b0 = true) by (apply Hu8; set_solver).
  assert (H1 : isU8 b1 = true) by (apply Hu8; set_solver).
  assert (H2 : isU8 b2 = true) by (apply Hu8; set_solver).
  assert (H3 : isU8 b3 = true) by (apply Hu8; set_solver).
  unfold packBandsAsData.
  rewrite activeChannels_natural by exact Hexp.
  cbn [Raster.bands length seq map].
  unfold useRGBA8. rewrite Hpref, Hforce.
  set (r := {| Raster.width := w; Raster.bands := [b0; b1; b2; b3] |}).
  assert (Hall : allU8 r [Some (Z.of_nat 0); Some (Z.of_nat 1);
                          Some (Z.of_nat 2); Some (Z.of_nat 3)] = true).
  { apply (proj2 (allU8_spec r _)). intros c Hc.
    repeat (apply elem_of_cons in Hc as [->|Hc];
            [eexists _, _; split; [reflexivity|split; [reflexivity|assumption]]|]).
    inversion Hc. }
  rewrite Hall. cbn [andb negb].
  cbn [packLoop length Nat.ltb Nat.leb Nat.add fst snd].
  split; [|split; reflexivity].
  unfold tiffRasterToGpuTextureSet_noPool, packRGBA8, packCh, channelOr, pixelCount.
  cbn [fst TextureSet.packs]. f_equal.
Qed.

Lemma noPool_pack_agrees_with_worker_witness :
  fst (tiffRasterToGpuTextureSet_noPool raster4 emptyLog) =
    fst (packBandsAsData raster4 None) /\
  map Line.key (Log.console (snd (tiffRasterToGpuTextureSet_noPool raster4 emptyLog)))
    = ["gpuTextureSet_no_worker"].
Proof.
  split; [|reflexivity].
  refine (proj1 (noPool_pack_agrees_with_worker raster4 None emptyLog
                   eq_refl _ eq_refl eq_refl eq_refl)).
  intros band Hband. cbn in Hband.
  repeat (apply elem_of_cons in Hband as [->|Hband]; [reflexivity|]).
  inversion Hband.
Defined.

(** ** Colour-space converters: RGB and grey *)

Lemma toUint8Clamp_byte (v : Z) : 0 <= v < 256 -> JS.toUint8Clamp (JS.ofZ v) = v.
Proof.
  intros Hv.
  assert (Hall : forallb (fun n => JS.toUint8Clamp (JS.ofZ (Z.of_nat n)) =? Z.of_nat n)
                   (seq 0 256) = true) by (vm_compute; reflexivity).
  rewrite forallb_forall in Hall.
  specialize (Hall (Z.to_nat v)). rewrite Z2Nat.id in Hall by lia.
  apply Z.eqb_eq, Hall, in_seq. lia.
Qed.

Lemma interleave3_length (r g b : list JS.number) :
  length g = length r -> length b = length r ->
  length (interleave3 r g b) = (3 * length r)%nat.
Proof.
  revert g b. induction r as [|x r IH]; intros [|y g] [|z b] Hg Hb;
    try discriminate; [reflexivity|].
  cbn [interleave3 length]. rewrite IH by (cbn in *; lia). lia.
Qed.

Lemma interleave3_lookup (r g b : list JS.number) :
  length g = length r -> length b = length r ->
  forall i, (i < length r)%nat ->
    interleave3 r g b !! (3 * i)%nat = r !! i /\
    interleave3 r g b !! (3 * i + 1)%nat = g !! i /\
    interleave3 r g b !! (3 * i + 2)%nat = b !! i.
Proof.
  revert g b. induction r as [|x r IH]; intros [|y g] [|z b] Hg Hb i Hi;
    try discriminate; [cbn in Hi; lia|].
  destruct i as [|i].
  - repeat split.
  - replace (3 * S i)%nat with (S (S (S (3 * i)))) by lia.
    cbn [interleave3 Nat.add lookup list_lookup].
    apply IH; cbn in *; lia.
Qed.

(** One pixel of the planar form. *)
Lemma RGBAfromRGB_planar_pixel (r g b : list JS.number) (a : option (list JS.number))
    (i : nat) (R G B : Z) :
  r !! i = Some (JS.ofZ R) -> g !! i = Some (JS.ofZ G) -> b !! i = Some (JS.ofZ B) ->
  0 <= R < 256 -> 0 <= G < 256 -> 0 <= B < 256 ->
  (a = None -> pixelIs (RGBAfromRGB (PlanarRGB r g b a)) i R G B 255) /\
  (forall alpha A, a = Some alpha -> alpha !! i = Some (JS.ofZ A) -> 0 <= A < 256 ->
     pixelIs (RGBAfromRGB (PlanarRGB r g b a)) i R G B A).
Proof.
  intros HR HG HB HRb HGb HBb. split.
  - intros ->. cbn [RGBAfromRGB].
    apply pixelIs_cells; [reflexivity|exact (lookup_lt_Some _ _ _ HR)|].
    rewrite (read_Some _ _ _ HR), (read_Some _ _ _ HG), (read_Some _ _ _ HB).
    rewrite !toUint8Clamp_byte by assumption. reflexivity.
  - intros alpha A -> HA HAb. cbn [RGBAfromRGB].
    apply pixelIs_cells; [reflexivity|exact (lookup_lt_Some _ _ _ HR)|].
    rewrite (read_Some _ _ _ HR), (read_Some _ _ _ HG), (read_Some _ _ _ HB),
            (read_Some _ _ _ HA).
    rewrite !toUint8Clamp_byte by assumption. reflexivity.
Qed.

(** X24. [RGBAfromRGB] copies the three colour planes into the RGBA buffer
    and gives the same buffer for planar bands (without alpha) and for the
    same samples interleaved; with an alpha band, alpha is copied too, and
    without it alpha is 255.  A sample that is a byte is stored
    unchanged. *)
Theorem RGBAfromRGB_copies_planes (r g b : list JS.number) :
  length g = length r -> length b = length r ->
  RGBAfromRGB (InterleavedRGB (interleave3 r g b)) = RGBAfromRGB (PlanarRGB r g b None) /\
  (forall a, length (RGBAfromRGB (PlanarRGB r g b a)) = (4 * length r)%nat) /\
  (forall a i R G B,
     r !! i = Some (JS.ofZ R) -> g !! i = Some (JS.ofZ G) -> b !! i = Some (JS.ofZ B) ->
     0 <= R < 256 -> 0 <= G < 256 -> 0 <= B < 256 ->
     (a = None -> pixelIs (RGBAfromRGB (PlanarRGB r g b a)) i R G B 255) /\
     (forall alpha A, a = Some alpha -> alpha !! i = Some (JS.ofZ A) -> 0 <= A < 256 ->
        pixelIs (RGBAfromRGB (PlanarRGB r g b a)) i R G B A)).
Proof.
  intros Hg Hb. split; [|split].
  - cbn [RGBAfromRGB]. rewrite interleave3_length by assumption.
    replace ((3 * length r + 2) / 3)%nat with (length r)
      by (apply (Nat.div_unique _ 3 _ 2); lia).
    replace (3 * length r * 4 / 3)%nat with (4 * length r)%nat
      by (apply (Nat.div_unique _ 3 _ 0); lia).
    rewrite take_ge.
    + assert (Hext : forall l, (forall i, i ∈ l -> (i < length r)%nat) ->
        flat_map (fun p =>
          [JS.toUint8Clamp (Converters.read (interleave3 r g b) (3 * p));
           JS.toUint8Clamp (Converters.read (interleave3 r g b) (3 * p + 1));
           JS.toUint8Clamp (Converters.read (interleave3 r g b) (3 * p + 2)); 255]) l =
        flat_map (fun i =>
          [JS.toUint8Clamp (Converters.read r i); JS.toUint8Clamp (Converters.read g i);
           JS.toUint8Clamp (Converters.read b i); 255]) l).
      { induction l as [|p l IH]; intros Hl; [reflexivity|].
        cbn [flat_map]. rewrite IH by (intros i Hi; apply Hl; set_solver).
        destruct (interleave3_lookup r g b Hg Hb p ltac:(apply Hl; set_solver))
          as (H0 & H1 & H2).
        unfold Converters.read. rewrite H0, H1, H2. reflexivity. }
      apply Hext. intros i Hi. apply list_elem_of_In, in_seq in Hi. lia.
    + rewrite (length_flat_map_const _ 4%nat); [rewrite length_seq; lia|].
      intros p. reflexivity.
  - intros a. cbn [RGBAfromRGB].
    rewrite (length_flat_map_const _ 4%nat); [rewrite length_seq; reflexivity|].
    intros i. reflexivity.
  - intros a i R G B HR HG HB HRb HGb HBb.
    exact (RGBAfromRGB_planar_pixel r g b a i R G B HR HG HB HRb HGb HBb).
Qed.

Lemma RGBAfromRGB_copies_planes_witness :
  RGBAfromRGB (InterleavedRGB (map JS.ofZ [10; 20; 30; 40; 50; 60]))
    = [10; 20; 30; 255; 40; 50; 60; 255] /\
  RGBAfromRGB (InterleavedRGB (interleave3 (map JS.ofZ [10; 40]) (map JS.ofZ [20; 50])
                                           (map JS.ofZ [30; 60])))
    = RGBAfromRGB (PlanarRGB (map JS.ofZ [10; 40]) (map JS.ofZ [20; 50])
                             (map JS.ofZ [30; 60]) None).
Proof.
  split; [reflexivity|].
  exact (proj1 (RGBAfromRGB_copies_planes (map JS.ofZ [10; 40]) (map JS.ofZ [20; 50])
                  (map JS.ofZ [30; 60]) eq_refl eq_refl)).
Defined.

(** X25. Grey conversion of 8-bit samples ([max = 255]): black-is-zero
    stores a sample [v] as [v] up to 127, as [v + 1] from 128 to 254 and as
    255 for 255, so it is within one level of the sample, keeps black and
    white, and never decreases; white-is-zero is its exact mirror image,
    the value black-is-zero gives for [255 - v].  Each pixel is that grey
    level three times, with alpha 255. *)
Theorem grey_8bit_levels (input : list JS.number) (i : nat) (v : Z) :
  input !! i = Some (JS.ofZ v) ->
  0 <= v < 256 ->
  let black := if v <? 128 then v else if v <? 255 then v + 1 else 255 in
  let white := if 127 <? v then 255 - v else if 0 <? v then 256 - v else 255 in
  pixelIs (RGBAfromBlackIsZero input (JS.ofZ 255)) i black black black 255 /\
  pixelIs (RGBAfromWhiteIsZero input (JS.ofZ 255)) i white white white 255 /\
  whiteValue (JS.ofZ 255) (JS.ofZ v) = blackValue (JS.ofZ 255) (JS.ofZ (255 - v)).
Proof.
  intros Hv Hbyte black white.
  assert (Hall : forallb (fun n =>
      let v := Z.of_nat n in
      (blackValue (JS.ofZ 255) (JS.ofZ v) =?
         (if v <? 128 then v else if v <? 255 then v + 1 else 255)) &&
      (whiteValue (JS.ofZ 255) (JS.ofZ v) =?
         (if 127 <? v then 255 - v else if 0 <? v then 256 - v else 255)) &&
      (whiteValue (JS.ofZ 255) (JS.ofZ v) =? blackValue (JS.ofZ 255) (JS.ofZ (255 - v))))
    (seq 0 256) = true) by (vm_compute; reflexivity).
  rewrite forallb_forall in Hall.
  specialize (Hall (Z.to_nat v)). cbv zeta in Hall. rewrite Z2Nat.id in Hall by lia.
  assert (Hin : In (Z.to_nat v) (seq 0 256)) by (apply in_seq; lia).
  apply Hall in Hin.
  apply andb_true_iff in Hin as [Hin Hmirror].
  apply andb_true_iff in Hin as [Hblack Hwhite].
  apply Z.eqb_eq in Hblack, Hwhite, Hmirror.
  split; [|split; [|exact Hmirror]].
  - unfold RGBAfromBlackIsZero.
    apply pixelIs_cells; [reflexivity|exact (lookup_lt_Some _ _ _ Hv)|].
    cbv zeta. rewrite (read_Some _ _ _ Hv), Hblack. reflexivity.
  - unfold RGBAfromWhiteIsZero.
    apply pixelIs_cells; [reflexivity|exact (lookup_lt_Some _ _ _ Hv)|].
    cbv zeta. rewrite (read_Some _ _ _ Hv), Hwhite. reflexivity.
Qed.

Lemma grey_8bit_levels_witness :
  pixelIs (RGBAfromBlackIsZero (map JS.ofZ [0; 200; 255]) (JS.ofZ 255)) 1 201 201 201 255 /\
  pixelIs (RGBAfromWhiteIsZero (map JS.ofZ [0; 200; 255]) (JS.ofZ 255)) 1 55 55 55 255.
Proof.
  pose proof (grey_8bit_levels (map JS.ofZ [0; 200; 255]) 1 200 eq_refl ltac:(lia))
    as (Hb & Hw & _).
  split; [exact Hb|exact Hw].
Defined.

(** ** A request served by its worker *)

Lemma deliver_warnings (B : Type) (wi : nat) (warns : list Warn.t) :
  forall st : Main B,
    pool B (deliver wi (map (PostWarn B) warns) st) = pool B st /\
    promises B (deliver wi (map (PostWarn B) warns) st) = promises B st.
Proof.
  induction warns as [|w warns IH]; intros st; [split; reflexivity|].
  cbn [map deliver fold_left poolOnMessage].
  destruct (IH {| pool := pool B st; promises := promises B st;
                  logState := onWorkerWarn (Some (Warn.code w)) (Some (Warn.message w))
                                (logState B st) |}) as [Hp Hs].
  unfold deliver in Hp, Hs. rewrite Hp, Hs. split; reflexivity.
Qed.

Lemma rtErrorToString_plain (e : exn) :
  rtErrorToString (errorToPlain e) = errorToPlain e.
Proof. destruct e as [[|c m]|[|c s]]; reflexivity. Qed.

(** X26. A request served end to end: when a request is posted to a
    worker and the messages the worker posts for it are delivered back to
    the pool, the promise of the request is fulfilled with the worker's
    result, or rejected with an error whose message is the text of the
    exception raised in the worker; the pool's bookkeeping is again what it
    was before the request, and no other promise is touched. *)
Theorem request_served_by_worker
    (fromArrayBuffer : list Z -> result GeoTiff.t)
    (imageModeTextureSet : Raster.t -> Hints.t -> list Warn.t * result TextureSet.t)
    (BitmapOutput : Type)
    (renderImageBitmap : Raster.t -> Hints.t -> list Warn.t * result BitmapOutput)
    (postMessage : nat -> Request.t -> option (list nat) -> option exn)
    (n : Z) (events : list (MainEvent BitmapOutput))
    (op : string) (payload : Payload.t) (transfer : option (list nat))
    (bi : nat) (best : Entry.t) :
  let st := mainRun BitmapOutput postMessage events (initMain BitmapOutput n) in
  let id := Pool._nextId (pool BitmapOutput st) in
  let st1 := fst (request BitmapOutput postMessage op payload transfer st) in
  let st2 := deliver bi
               (onmessage fromArrayBuffer imageModeTextureSet BitmapOutput
                  renderImageBitmap id op payload) st1 in
  chooseWorker (Pool.workers (pool BitmapOutput st)) = Some (bi, best) ->
  postMessage (Entry.worker best)
    {| Request.id := id; Request.op := op; Request.payload := payload |}
    (transferArg transfer) = None ->
  promises BitmapOutput st2 !! id =
    Some match snd (runOp fromArrayBuffer imageModeTextureSet BitmapOutput
                      renderImageBitmap op payload) with
         | inr r => Fulfilled r
         | inl e => Rejected (ErrorObject (errorToPlain e))
         end /\
  Pool.workers (pool BitmapOutput st2) = Pool.workers (pool BitmapOutput st) /\
  (forall d, d <> id -> promises BitmapOutput st2 !! d = promises BitmapOutput st !! d).
Proof.
  intros st id st1 st2 Hchoose Hpost.
  assert (Hinv : poolInv (pool BitmapOutput st))
    by (apply poolInv_mainRun, poolInv_newPool).
  assert (Hall : forall s, _) by
    (intros s; exact (request_then_reply BitmapOutput postMessage op payload transfer
                        st bi best s Hinv Hchoose Hpost)).
  cbn zeta in Hall. fold id in Hall. fold st1 in Hall.
  destruct (Hall Pending) as (_ & _ & Hentry & Hback & _).
  assert (Hothers : forall d, d <> id ->
            promises BitmapOutput st1 !! d = promises BitmapOutput st !! d).
  { intros d Hd. unfold st1, request. rewrite Hchoose. fold id. rewrite Hpost.
    cbn [fst promises]. apply lookup_insert_ne. congruence. }
  unfold st2, onmessage.
  destruct (runOp fromArrayBuffer imageModeTextureSet BitmapOutput renderImageBitmap
              op payload) as [warns outcome].
  cbn [snd]. unfold deliver. rewrite fold_left_app.
  destruct (deliver_warnings BitmapOutput bi warns st1) as [Hp Hs].
  unfold deliver in Hp, Hs.
  set (stw := fold_left _ (map (PostWarn BitmapOutput) warns) st1) in *.
  cbn [fold_left].
  destruct outcome as [e|r]; cbn [poolOnMessage]; rewrite Hp, Hentry;
    cbn [Entry.callbacks Entry.pending Entry.worker]; rewrite lookup_insert_eq;
    cbn [promises pool Pool.workers]; rewrite Hs; (split; [|split]).
  - rewrite rtErrorToString_plain.
    exact (proj2 (proj2 (proj2 (proj2 (Hall (Rejected (ErrorObject (errorToPlain e)))))))).
  - exact Hback.
  - intros d Hd. rewrite settle_other by exact Hd. apply Hothers. exact Hd.
  - exact (proj2 (proj2 (proj2 (proj2 (Hall (Fulfilled r)))))).
  - exact Hback.
  - intros d Hd. rewrite settle_other by exact Hd. apply Hothers. exact Hd.
Qed.

Lemma request_served_by_worker_witness :
  let run := mainRun unit postAlways [] (initMain unit 2) in
  let st1 := fst (request unit postAlways "decodeRaster" dataPayload None run) in
  let st2 := deliver 0 (onmessage (fun _ => ret singleImageTiff) noImageMode unit noBitmap
                          1 "decodeRaster" dataPayload) st1 in
  promises unit st1 !! 1 = Some Pending /\
  promises unit st2 !! 1 = Some (Fulfilled (RasterResult unit decodedSingle)) /\
  Pool.workers (pool unit st2) = Pool.workers (pool unit run).
Proof.
  split; [reflexivity|].
  pose proof (request_served_by_worker (fun _ => ret singleImageTiff) noImageMode unit
                noBitmap postAlways 2 [] "decodeRaster" dataPayload None 0
                {| Entry.worker := 0; Entry.pending := 0; Entry.callbacks := ∅ |}
                eq_refl eq_refl) as (Hp & Hw & _).
  split; [exact Hp|exact Hw].
Defined.

(** ** TIFF structure check *)

Section ValidateFacts.

Variable u : list Z.
Hypothesis bytes : forall o b, u !! o = Some b -> 0 <= b < 256.

Lemma byteAt_range (o : Z) : 0 <= Validate.byteAt u o < 256.
Proof.
  unfold Validate.byteAt. destruct (0 <=? o); [|lia].
  destruct (u !! Z.to_nat o) as [b|] eqn:Hb; [exact (bytes _ _ Hb)|lia].
Qed.

Lemma shl_byte (b k : Z) :
  0 <= b < 256 -> 0 <= k <= 16 -> JS.shl b k = b * 2 ^ k.
Proof.
  intros Hb Hk. unfold JS.shl. rewrite (toInt32_small b) by (zpow; lia).
  rewrite Z.shiftl_mul_pow2 by lia. apply toInt32_small.
  assert (0 < 2 ^ k <= 2 ^ 16).
  { split; [apply Z.pow_pos_nonneg; lia|apply Z.pow_le_mono_r; lia]. }
  revert H. zpow. intros H. nia.
Qed.

Lemma bor_shifted (a b k : Z) :
  0 <= k -> 0 <= b < 2 ^ k -> - 2 ^ 31 <= a * 2 ^ k < 2 ^ 31 -> k <= 31 ->
  JS.bor (a * 2 ^ k) b = a * 2 ^ k + b /\ JS.bor b (a * 2 ^ k) = a * 2 ^ k + b.
Proof.
  intros Hk Hb Ha Hk31. unfold JS.bor.
  assert (2 ^ k <= 2 ^ 31) by (apply Z.pow_le_mono_r; lia).
  rewrite (toInt32_small (a * 2 ^ k)) by exact Ha.
  rewrite (toInt32_small b) by (revert H; zpow; lia).
  split; [|rewrite Z.lor_comm]; apply lor_shifted; assumption.
Qed.

Lemma readU16_num16 (le : bool) (o : Z) :
  Validate.readU16 u le o = Validate.num16 u le o /\
  0 <= Validate.num16 u le o < 2 ^ 16.
Proof.
  pose proof (byteAt_range o) as H0. pose proof (byteAt_range (o + 1)) as H1.
  unfold Validate.readU16, Validate.num16. destruct le.
  - rewrite shl_byte by lia.
    destruct (bor_shifted (Validate.byteAt u (o + 1)) (Validate.byteAt u o) 8)
      as [_ ->]; zpow; lia.
  - rewrite shl_byte by lia.
    destruct (bor_shifted (Validate.byteAt u o) (Validate.byteAt u (o + 1)) 8)
      as [-> _]; zpow; lia.
Qed.

(** The top byte shifted by 24 wraps to a negative 32-bit integer when its
    high bit is set; [>>> 0] undoes the wrap. *)
Lemma shl24 (b : Z) :
  0 <= b < 256 ->
  exists a, JS.shl b 24 = a * 2 ^ 24 /\ -128 <= a < 128 /\ (a = b \/ a = b - 256).
Proof.
  intros Hb. unfold JS.shl. rewrite (toInt32_small b) by (zpow; lia).
  rewrite Z.shiftl_mul_pow2 by lia.
  rewrite toInt32_uint32 by (zpow; lia).
  destruct (Z.ltb_spec (b * 2 ^ 24) (2 ^ 31)) as [Hlo|Hhi].
  - exists b. split; [reflexivity|]. split; [revert Hlo; zpow; lia|]. left. reflexivity.
  - exists (b - 256). split; [zpow; lia|]. split; [revert Hhi; zpow; lia|].
    right. reflexivity.
Qed.

Lemma readU32_num32 (le : bool) (o : Z) :
  Validate.readU32 u le o = Validate.num32 u le o /\
  0 <= Validate.num32 u le o < 2 ^ 32.
Proof.
  pose proof (byteAt_range o) as H0. pose proof (byteAt_range (o + 1)) as H1.
  pose proof (byteAt_range (o + 2)) as H2. pose proof (byteAt_range (o + 3)) as H3.
  unfold Validate.readU32, Validate.num32, Validate.toUint32. destruct le.
  - rewrite !shl_byte by lia.
    destruct (shl24 (Validate.byteAt u (o + 3)) H3) as (a & -> & Ha & Hcase).
    destruct (bor_shifted (Validate.byteAt u (o + 1)) (Validate.byteAt u o) 8)
      as [_ ->]; try (zpow; lia).
    replace (Validate.byteAt u (o + 1) * 2 ^ 8 + Validate.byteAt u o)
      with (Validate.byteAt u o + 2 ^ 8 * Validate.byteAt u (o + 1)) by lia.
    destruct (bor_shifted (Validate.byteAt u (o + 2))
                (Validate.byteAt u o + 2 ^ 8 * Validate.byteAt u (o + 1)) 16)
      as [_ ->]; try (zpow; lia).
    destruct (bor_shifted a
                (Validate.byteAt u (o + 2) * 2 ^ 16 +
                 (Validate.byteAt u o + 2 ^ 8 * Validate.byteAt u (o + 1))) 24)
      as [_ ->]; try (zpow; lia).
    split; [|zpow; lia].
    destruct Hcase as [->| ->].
    + rewrite Z.mod_small by (zpow; lia). zpow. lia.
    + replace ((Validate.byteAt u (o + 3) - 256) * 2 ^ 24 +
               (Validate.byteAt u (o + 2) * 2 ^ 16 +
                (Validate.byteAt u o + 2 ^ 8 * Validate.byteAt u (o + 1))))
        with (Validate.byteAt u o + 2 ^ 8 * Validate.byteAt u (o + 1) +
              2 ^ 16 * Validate.byteAt u (o + 2) + 2 ^ 24 * Validate.byteAt u (o + 3) +
              (-1) * 2 ^ 32) by (zpow; lia).
      rewrite Z.mod_add by (zpow; lia). rewrite Z.mod_small by (zpow; lia). zpow. lia.
  - rewrite (shl_byte (Validate.byteAt u (o + 1)) 16),
            (shl_byte (Validate.byteAt u (o + 2)) 8) by lia.
    destruct (shl24 (Validate.byteAt u o) H0) as (a & -> & Ha & Hcase).
    destruct (bor_shifted a (Validate.byteAt u (o + 1) * 2 ^ 16) 24)
      as [-> _]; try (zpow; lia).
    (* the remaining two [|] only touch bits that are still zero *)
    assert (Hor : forall x y k, 0 <= k <= 24 -> 0 <= y < 2 ^ k -> 0 <= x ->
              x mod 2 ^ k = 0 -> x + y < 2 ^ 24 ->
              JS.bor (a * 2 ^ 24 + x) y = a * 2 ^ 24 + (x + y)).
    { intros x y k Hk Hy Hx Hxk Hsum. unfold JS.bor.
      rewrite (toInt32_small (a * 2 ^ 24 + x)) by (revert Hsum; zpow; lia).
      rewrite (toInt32_small y) by (revert Hsum; zpow; lia).
      replace (a * 2 ^ 24 + x) with ((a * 2 ^ (24 - k) + x / 2 ^ k) * 2 ^ k).
      - rewrite lor_shifted by (try assumption; lia).
        rewrite Z.mul_add_distr_r, <- Z.mul_assoc, <- Z.pow_add_r by lia.
        replace (24 - k + k) with 24 by lia.
        assert (x / 2 ^ k * 2 ^ k = x).
        { pose proof (Z.div_mod x (2 ^ k) ltac:(apply Z.pow_nonzero; lia)). lia. }
        lia.
      - rewrite Z.mul_add_distr_r, <- Z.mul_assoc, <- Z.pow_add_r by lia.
        replace (24 - k + k) with 24 by lia.
        pose proof (Z.div_mod x (2 ^ k) ltac:(apply Z.pow_nonzero; lia)). lia. }
    rewrite (Hor (Validate.byteAt u (o + 1) * 2 ^ 16)
                 (Validate.byteAt u (o + 2) * 2 ^ 8) 16);
      [|lia|zpow; lia|zpow; lia|apply Z.mod_mul; zpow; lia|zpow; lia].
    rewrite (Hor (Validate.byteAt u (o + 1) * 2 ^ 16 + Validate.byteAt u (o + 2) * 2 ^ 8)
                 (Validate.byteAt u (o + 3)) 8);
      [|lia|zpow; lia|zpow; lia| |zpow; lia].
    2:{ replace (Validate.byteAt u (o + 1) * 2 ^ 16 + Validate.byteAt u (o + 2) * 2 ^ 8)
          with ((Validate.byteAt u (o + 1) * 2 ^ 8 + Validate.byteAt u (o + 2)) * 2 ^ 8)
          by (zpow; lia).
        apply Z.mod_mul. zpow. lia. }
    split; [|zpow; lia].
    destruct Hcase as [->| ->].
    + rewrite Z.mod_small by (zpow; lia). zpow. lia.
    + replace ((Validate.byteAt u o - 256) * 2 ^ 24 +
               (Validate.byteAt u (o + 1) * 2 ^ 16 + Validate.byteAt u (o + 2) * 2 ^ 8 +
                Validate.byteAt u (o + 3)))
        with (2 ^ 24 * Validate.byteAt u o + 2 ^ 16 * Validate.byteAt u (o + 1) +
              2 ^ 8 * Validate.byteAt u (o + 2) + Validate.byteAt u (o + 3) +
              (-1) * 2 ^ 32) by (zpow; lia).
      rewrite Z.mod_add by (zpow; lia). rewrite Z.mod_small by (zpow; lia). zpow. lia.
Qed.

Lemma scanEntries_ok (le : bool) (entriesStart : Z) (left : nat) :
  forall i,
    Validate.scanEntries u le entriesStart left i = inr tt <->
    forall j, i <= j < i + Z.of_nat left ->
      1 <= Validate.num16 u le (entriesStart + j * 12 + 2) <= 12.
Proof.
  induction left as [|left IH]; intros i; cbn [Validate.scanEntries].
  - split; [intros _ j Hj; lia|reflexivity].
  - cbv zeta. rewrite (proj1 (readU16_num16 le _)).
    destruct (Z.ltb_spec (Validate.num16 u le (entriesStart + i * 12 + 2)) 1) as [Hlo|Hlo];
      cbn [orb].
    + split; [discriminate|]. intros H. specialize (H i ltac:(lia)). lia.
    + destruct (Z.ltb_spec 12 (Validate.num16 u le (entriesStart + i * 12 + 2))) as [Hhi|Hhi].
      * split; [discriminate|]. intros H. specialize (H i ltac:(lia)). lia.
      * rewrite IH. split.
        -- intros H j Hj. destruct (Z.eq_dec j i) as [->|Hne]; [lia|].
           apply H. lia.
        -- intros H j Hj. apply H. lia.
Qed.

End ValidateFacts.

(** X27. The structure check accepts a buffer exactly when it starts with
    a well-formed TIFF header and first directory, read as numbers in the
    file's byte order: the byte order mark, magic number 42, an even
    directory offset inside the buffer, at most 128 entries that fit in the
    buffer together with the next-directory pointer, and a field type in
    1..12 in every entry.  (Every byte the check looks at then lies inside
    the buffer.) *)
Theorem validateTIFFStructure_accepts_well_formed (u : list Z) :
  Validate.isBytes u = true ->
  (Validate.validateTIFFStructure u = inr tt <-> Validate.wellFormed u).
Proof.
  intros Hbytes.
  assert (bytes : forall o b, u !! o = Some b -> 0 <= b < 256).
  { intros o b Hb. unfold Validate.isBytes in Hbytes. rewrite forallb_forall in Hbytes.
    specialize (Hbytes b ltac:(apply list_elem_of_In, list_elem_of_lookup; eauto)).
    lia. }
  pose proof (readU16_num16 u bytes) as H16.
  pose proof (readU32_num32 u bytes) as H32.
  unfold Validate.validateTIFFStructure, Validate.wellFormed. cbv zeta.
  destruct (Nat.ltb_spec (length u) 16) as [Hshort|Hlong].
  { split; [discriminate|]. intros [Hlen _]. lia. }
  set (isII := (Validate.byteAt u 0 =? 0x49) && (Validate.byteAt u 1 =? 0x49)).
  set (isMM := (Validate.byteAt u 0 =? 0x4D) && (Validate.byteAt u 1 =? 0x4D)).
  assert (Hle : forall le : bool,
            Validate.byteAt u 0 = (if le then 0x49 else 0x4D) ->
            Validate.byteAt u 1 = (if le then 0x49 else 0x4D) ->
            isII = le /\ (negb isII && negb isMM = false)).
  { intros le H0 H1. unfold isII, isMM. rewrite H0, H1. destruct le; split; reflexivity. }
  assert (Hmark : negb isII && negb isMM = false ->
            Validate.byteAt u 0 = (if isII then 0x49 else 0x4D) /\
            Validate.byteAt u 1 = (if isII then 0x49 else 0x4D)).
  { unfold isII, isMM.
    destruct (Z.eqb_spec (Validate.byteAt u 0) 0x49) as [-> |H0];
      destruct (Z.eqb_spec (Validate.byteAt u 1) 0x49) as [-> |H1]; cbn [andb negb];
      try (intros _; split; reflexivity);
      destruct (Z.eqb_spec (Validate.byteAt u 0) 0x4D) as [H0'|H0'];
      destruct (Z.eqb_spec (Validate.byteAt u 1) 0x4D) as [H1'|H1']; cbn [andb negb];
      try discriminate; try (intros _; split; congruence). }
  assert (Hbody : forall le : bool,
    (if negb (Validate.readU16 u le 2 =? 42)
     then throw (ErrorObject ("Bad TIFF magic: " +:+ pretty (Validate.readU16 u le 2)))
     else
       if Z.of_nat (length u) <=? Validate.readU32 u le 4
       then throw (ErrorObject "IFD0 offset out of bounds")
       else
         if negb (Validate.readU32 u le 4 mod 2 =? 0)
         then throw (ErrorObject "IFD0 offset must be 2-byte aligned")
         else
           if 128 <? Validate.readU16 u le (Validate.readU32 u le 4)
           then throw (ErrorObject ("Suspiciously large IFD entry count: " +:+
                         pretty (Validate.readU16 u le (Validate.readU32 u le 4))))
           else
             if Z.of_nat (length u) <?
                Validate.readU32 u le 4 + 2 +
                Validate.readU16 u le (Validate.readU32 u le 4) * 12 + 4
             then throw (ErrorObject "IFD entries run out of bounds")
             else Validate.scanEntries u le (Validate.readU32 u le 4 + 2)
                    (Z.to_nat (Validate.readU16 u le (Validate.readU32 u le 4))) 0)
    = inr tt <->
    (Validate.num16 u le 2 = 42 /\
     Validate.num32 u le 4 < Z.of_nat (length u) /\
     Validate.num32 u le 4 mod 2 = 0 /\
     Validate.num16 u le (Validate.num32 u le 4) <= 128 /\
     Validate.num32 u le 4 + 2 + 12 * Validate.num16 u le (Validate.num32 u le 4) + 4
       <= Z.of_nat (length u) /\
     forall i, 0 <= i < Validate.num16 u le (Validate.num32 u le 4) ->
       1 <= Validate.num16 u le (Validate.num32 u le 4 + 2 + 12 * i + 2) <= 12)).
  { intros le.
    rewrite (proj1 (H32 le 4)). rewrite !(proj1 (H16 le _)).
    pose proof (proj2 (H16 le (Validate.num32 u le 4))) as Hn.
    destruct (Z.eqb_spec (Validate.num16 u le 2) 42) as [Hmagic|Hmagic]; cbn [negb];
      [|split; [discriminate|intros [H _]; contradiction]].
    destruct (Z.leb_spec (Z.of_nat (length u)) (Validate.num32 u le 4)) as [Hout|Hin];
      [split; [discriminate|intros (_ & H & _); lia]|].
    destruct (Z.eqb_spec (Validate.num32 u le 4 mod 2) 0) as [Heven|Hodd]; cbn [negb];
      [|split; [discriminate|intros (_ & _ & H & _); contradiction]].
    destruct (Z.ltb_spec 128 (Validate.num16 u le (Validate.num32 u le 4))) as [Hbig|Hsmall];
      [split; [discriminate|intros (_ & _ & _ & H & _); lia]|].
    destruct (Z.ltb_spec (Z.of_nat (length u))
                (Validate.num32 u le 4 + 2 +
                 Validate.num16 u le (Validate.num32 u le 4) * 12 + 4)) as [Hrun|Hfit];
      [split; [discriminate|intros (_ & _ & _ & _ & H & _); lia]|].
    rewrite (scanEntries_ok u bytes).
    split.
    - intros Hscan. repeat (split; [first [assumption|lia]|]).
      intros i Hi.
      replace (Validate.num32 u le 4 + 2 + 12 * i + 2)
        with (Validate.num32 u le 4 + 2 + i * 12 + 2) by lia.
      apply Hscan. lia.
    - intros (_ & _ & _ & _ & _ & Hall) j Hj.
      replace (Validate.num32 u le 4 + 2 + j * 12 + 2)
        with (Validate.num32 u le 4 + 2 + 12 * j + 2) by lia.
      apply Hall. lia. }
  split.
  - intros Hok. split; [exact Hlong|].
    destruct (negb isII && negb isMM) eqn:Hno; [discriminate|].
    destruct (Hmark eq_refl) as [H0 H1].
    exists isII. split; [exact H0|]. split; [exact H1|].
    apply Hbody. exact Hok.
  - intros (_ & le & H0 & H1 & Hrest).
    destruct (Hle le H0 H1) as [-> ->].
    apply Hbody. exact Hrest.
Qed.

Lemma validateTIFFStructure_accepts_well_formed_witness :
  Validate.isBytes Validate.sample = true /\
  Validate.validateTIFFStructure Validate.sample = inr tt /\
  Validate.wellFormed Validate.sample.
Proof.
  split; [reflexivity|]. split; [reflexivity|].
  apply (validateTIFFStructure_accepts_well_formed Validate.sample); reflexivity.
Defined.

(** ** Colour-space converters: the two input forms *)

Lemma flat_map_seq_ext {A} (f g : nat -> list A) (n : nat) :
  (forall i, (i < n)%nat -> f i = g i) ->
  flat_map f (seq 0 n) = flat_map g (seq 0 n).
Proof.
  intros Hfg.
  assert (H : forall l, (forall i, In i l -> (i < n)%nat) -> flat_map f l = flat_map g l).
  { induction l as [|i l IH]; intros Hl; [reflexivity|].
    cbn [flat_map]. rewrite IH by (intros j Hj; apply Hl; right; exact Hj).
    rewrite Hfg by (apply Hl; left; reflexivity). reflexivity. }
  apply H. intros i Hi. apply in_seq in Hi. lia.
Qed.

Lemma interleave4_length (c m y k : list JS.number) :
  length m = length c -> length y = length c -> length k = length c ->
  length (interleave4 c m y k) = (4 * length c)%nat.
Proof.
  revert m y k. induction c as [|x c IH]; intros [|x1 m] [|x2 y] [|x3 k] Hm Hy Hk;
    try discriminate; [reflexivity|].
  cbn [interleave4 length]. rewrite IH by (cbn in *; lia). lia.
Qed.

Lemma interleave4_lookup (c m y k : list JS.number) :
  length m = length c -> length y = length c -> length k = length c ->
  forall i, (i < length c)%nat ->
    interleave4 c m y k !! (4 * i)%nat = c !! i /\
    interleave4 c m y k !! (4 * i + 1)%nat = m !! i /\
    interleave4 c m y k !! (4 * i + 2)%nat = y !! i /\
    interleave4 c m y k !! (4 * i + 3)%nat = k !! i.
Proof.
  revert m y k. induction c as [|x c IH]; intros [|x1 m] [|x2 y] [|x3 k] Hm Hy Hk i Hi;
    try discriminate; [cbn in Hi; lia|].
  destruct i as [|i].
  - repeat split.
  - replace (4 * S i)%nat with (S (S (S (S (4 * i))))) by lia.
    cbn [interleave4 Nat.add lookup list_lookup].
    apply IH; cbn in *; lia.
Qed.

(** X28. The YCbCr and CMYK converters give the same RGBA buffer for
    planar bands as for the same samples interleaved in one buffer. *)
Theorem planar_and_interleaved_agree :
  (forall y cb cr : list JS.number,
     length cb = length y -> length cr = length y ->
     Converters.RGBAfromYCbCr (Converters.Interleaved (interleave3 y cb cr)) =
     Converters.RGBAfromYCbCr (Converters.Planar y cb cr)) /\
  (forall c m y k : list JS.number,
     length m = length c -> length y = length c -> length k = length c ->
     RGBAfromCMYK (InterleavedCMYK (interleave4 c m y k)) =
     RGBAfromCMYK (PlanarCMYK c m y k)).
Proof.
  split.
  - intros y cb cr Hcb Hcr. cbn [Converters.RGBAfromYCbCr].
    rewrite interleave3_length by assumption.
    replace ((3 * length y + 2) / 3)%nat with (length y)
      by (apply (Nat.div_unique _ 3 _ 2); lia).
    replace (3 * length y * 4 / 3)%nat with (4 * length y)%nat
      by (apply (Nat.div_unique _ 3 _ 0); lia).
    rewrite take_ge.
    + apply flat_map_seq_ext. intros i Hi.
      destruct (interleave3_lookup y cb cr Hcb Hcr i Hi) as (H0 & H1 & H2).
      unfold Converters.read. rewrite H0, H1, H2. reflexivity.
    + rewrite (length_flat_map_const _ 4%nat); [rewrite length_seq; lia|].
      intros p. reflexivity.
  - intros c m y k Hm Hy Hk. cbn [RGBAfromCMYK].
    rewrite interleave4_length by assumption.
    replace ((4 * length c + 3) / 4)%nat with (length c)
      by (apply (Nat.div_unique _ 4 _ 3); lia).
    rewrite take_ge.
    + apply flat_map_seq_ext. intros i Hi.
      destruct (interleave4_lookup c m y k Hm Hy Hk i Hi) as (H0 & H1 & H2 & H3).
      unfold Converters.read. rewrite H0, H1, H2, H3. reflexivity.
    + rewrite (length_flat_map_const _ 4%nat); [rewrite length_seq; lia|].
      intros p. reflexivity.
Qed.

Lemma planar_and_interleaved_agree_witness :
  RGBAfromCMYK (InterleavedCMYK (map JS.ofZ [0; 255; 128; 0; 10; 20; 30; 255]))
    = [253; 0; 126; 255; 0; 0; 0; 255] /\
  RGBAfromCMYK (InterleavedCMYK (interleave4 (map JS.ofZ [0; 10]) (map JS.ofZ [255; 20])
                                             (map JS.ofZ [128; 30]) (map JS.ofZ [0; 255])))
    = RGBAfromCMYK (PlanarCMYK (map JS.ofZ [0; 10]) (map JS.ofZ [255; 20])
                               (map JS.ofZ [128; 30]) (map JS.ofZ [0; 255])).
Proof.
  split; [reflexivity|].
  exact (proj2 planar_and_interleaved_agree (map JS.ofZ [0; 10]) (map JS.ofZ [255; 20])
           (map JS.ofZ [128; 30]) (map JS.ofZ [0; 255]) eq_refl eq_refl eq_refl).
Defined.

(** ** Image-mode renderer *)




(** A warning posted before the renderer throws is delivered before the
    error reply. *)
Example onmessage_warns_then_fails :
  onmessage (fun _ => ret singleImageTiff) (imageBranch noCIELab None None) unit
    noBitmap 3 "rasterToGpuTextureSet"
    {| Payload.buffer := [];
       Payload.raster := Some rasterNoBands;
       Payload.hints := hintsSixChannels |}
  = [ PostWarn unit (extraChannelsWarning 6);
      PostError unit 3 "Cannot read properties of undefined (reading 'length')" ].
Proof. vm_compute. reflexivity. Qed.

Lemma inBands_bandAt (raster : Raster.t) (z : Z) :
  inBands raster z = false <-> bandAt raster z = None.
Proof.
  unfold inBands, bandAt, bandCount.
  destruct (Z.leb_spec 0 z) as [Hz|Hz]; cbn [andb]; [|split; reflexivity].
  destruct (Z.ltb_spec z (Z.of_nat (length (Raster.bands raster)))) as [Hlt|Hge].
  - split; [discriminate|]. intros Hnone. apply lookup_ge_None in Hnone. lia.
  - split; [|reflexivity]. intros _. apply lookup_ge_None. lia.
Qed.

(** X30. An explicit channel order of four or more entries, on a raster
    whose photometric tag selects no converter of its own, maps bands
    straight to the RGBA slots: pixel [i] gets in slot [k] the byte of the
    band named by entry [k] (0 for a null entry or a band that does not
    exist).  Entries after the fourth are dropped, with one warning that
    names the requested count; four entries give no warning.  An order in
    [format.image.rgbaChannels] takes precedence over
    [hints.renderChannels]. *)
Theorem image_mode_maps_channels
    (RGBAfromCIELab : Converters.YCbCrArgs -> list Z)
    (colorMap : option (list JS.number))
    (rgbaChannels : option (list (option Z)))
    (raster : Raster.t) (hints : Hints.t) (cs : list (option Z)) :
  requestedChannels rgbaChannels hints = Some cs ->
  (4 <= length cs)%nat ->
  plainTag (Raster.photometricInterpretation raster) = true ->
  exists out,
    rasterToRGBA8_ImageMode RGBAfromCIELab colorMap rgbaChannels raster hints =
      (if (4 <? length cs)%nat then [extraChannelsWarning (length cs)] else [], ret out) /\
    length out = (4 * pixelCount raster)%nat /\
    (forall l, rgbaChannels = Some l -> cs = l) /\
    forall i k, (i < pixelCount raster)%nat -> (k < 4)%nat ->
      (forall z band v,
         cs !! k = Some (Some z) -> bandAt raster z = Some band ->
         Band.samples band !! i = Some (JS.ofZ v) -> 0 <= v < 256 ->
         out !! (4 * i + k)%nat = Some v) /\
      (forall z, cs !! k = Some (Some z) -> bandAt raster z = None ->
         out !! (4 * i + k)%nat = Some 0) /\
      (cs !! k = Some None -> out !! (4 * i + k)%nat = Some 0).
Proof.
  intros Hreq Hlen Hplain.
  unfold plainTag in Hplain.
  repeat (apply andb_true_iff in Hplain as [Hplain ?]).
  repeat match goal with H : negb _ = true |- _ => apply negb_true_iff in H end.
  exists (tmpBytes raster (take 4 cs)).
  assert (Htake : exists c0 c1 c2 c3, take 4 cs = [c0; c1; c2; c3]).
  { destruct cs as [|c0 [|c1 [|c2 [|c3 cs]]]]; cbn in Hlen; try lia. eauto. }
  destruct Htake as (c0 & c1 & c2 & c3 & Htake).
  split; [|split; [|split]].
  - unfold rasterToRGBA8_ImageMode. rewrite Hreq. cbn [option_map]. rewrite Htake.
    rewrite Hplain, H, H0, H1, H2, H3. cbn [orb andb negb length Nat.eqb].
    reflexivity.
  - unfold tmpBytes. rewrite (length_flat_map_const _ 4%nat); [rewrite length_seq; lia|].
    intros i. rewrite length_map, Htake. reflexivity.
  - intros l ->. cbn [requestedChannels] in Hreq. congruence.
  - intros i k Hi Hk.
    assert (Hcell : forall c, cs !! k = Some c ->
              tmpBytes raster (take 4 cs) !! (4 * i + k)%nat =
              Some (JS.toUint8Clamp
                      match c with
                      | Some z => if inBands raster z then sampleAt raster z i else JS.ofZ 0
                      | None => JS.ofZ 0
                      end)).
    { intros c Hc. unfold tmpBytes.
      rewrite lookup_cells; [| |exact Hi|exact Hk].
      - rewrite list_lookup_fmap, lookup_take_lt by exact Hk. rewrite Hc. reflexivity.
      - intros j. rewrite length_map, Htake. reflexivity. }
    split; [|split].
    + intros z band v Hc Hband Hv Hbyte. rewrite (Hcell _ Hc).
      rewrite (bandAt_inBands raster z band Hband).
      rewrite (sampleAt_Some raster z band i _ Hband Hv).
      rewrite toUint8Clamp_byte by exact Hbyte. reflexivity.
    + intros z Hc Hnone. rewrite (Hcell _ Hc).
      rewrite (proj2 (inBands_bandAt raster z) Hnone). reflexivity.
    + intros Hc. rewrite (Hcell _ Hc). reflexivity.
Qed.

Lemma image_mode_maps_channels_witness :
  rasterToRGBA8_ImageMode noCIELab None None raster6 hintsSixChannels
    = ([extraChannelsWarning 6], ret [5; 3; 1; 7; 6; 4; 2; 8]) /\
  exists out,
    rasterToRGBA8_ImageMode noCIELab None None raster6 hintsSixChannels =
      ([extraChannelsWarning 6], ret out) /\
    out !! 4%nat = Some 6.
Proof.
  split; [reflexivity|].
  destruct (image_mode_maps_channels noCIELab None None raster6 hintsSixChannels
              [Some 2; Some 1; Some 0; Some 3; Some 4; Some 5]
              eq_refl ltac:(cbn; lia) eq_refl) as (out & Hout & _ & _ & Hcells).
  exists out. split; [exact Hout|].
  exact (proj1 (Hcells 1%nat 0%nat ltac:(cbn; lia) ltac:(lia)) 2
           (bandOf Uint8Array [5; 6]) 6 eq_refl eq_refl eq_refl ltac:(lia)).
Defined.
